(** * Reddit Mastermind: planning and validation engine

    A shallow embedding of the calendar planner
    ([lib/utils/date.ts], [lib/algorithm/subreddit-strategy.ts],
    [lib/algorithm/keyword-strategy.ts], [lib/algorithm/persona-matcher.ts],
    [lib/algorithm/content-generator.ts], [lib/algorithm/validators.ts])
    and theorems about it.

    Modelling conventions.
    - A [Date] is its time value, an integer number of milliseconds ([Z]).
      Local time is UTC shifted by a fixed offset [tzOffset] (no daylight
      saving transitions).
    - A JavaScript number that is not an integer by construction (a value of
      [Math.random()], a ratio, a percentage) is an exact rational ([Q]).
    - [Math.random()] is a sequence [random : nat -> Q] of the exact values
      of the numbers drawn; the number of values consumed so far is threaded
      through the computation. A decimal literal that a draw is compared
      with is the exact value of the binary64 number the literal denotes
      ([double_0_6] for [0.6]), so the comparison is the code's. A literal
      that a quotient of two counts is compared with is the decimal
      fraction: for counts below 2^45 the rounded quotient is above the
      rounded literal exactly when the exact quotient is above the fraction.
    - [Math.floor(Math.random() * n)] is the floor of the exact product
      ([floorTimes]). The code rounds the product to binary64 first, which
      at a draw just below a multiple of [1/n] can give the next whole
      number, never [n] itself; the theorems about these floors state their
      range and nothing finer.
    - An exception is the [Throw] branch of [Result]; object state (the
      strategy classes' private maps) is threaded explicitly by the monad [M].
    - A [Map] that is only read by key is a [gmap]; a [Map] whose iteration
      order is observable is an insertion-ordered association list ([omap]).
    - A message built by a template literal is a constructor of [Message]
      carrying the interpolated values; number formatting is not modelled.
    - A string is a sequence of one-unit characters; [toLowerCase] folds
      the letters A to Z only, white space is that of ASCII, and the length
      of a word is its number of units. On a text with characters outside
      ASCII the code's lower-casing and word lengths can differ from these;
      the theorem on titles that are equal after lower-casing is therefore
      proved for every lower-casing function. *)

From Stdlib Require Import ZArith QArith Qround Qabs Ascii String Lia.
From stdpp Require Import base option list strings gmap pretty.

(** ** Exceptions and the state monad *)

Inductive Message : Type :=
  | Overposting (subreddit : string) (count : nat)
  | PostsTooSimilar (p1 p2 : string) (similarity : Q)
  | PostsModeratelySimilar (p1 p2 : string) (similarity : Q)
  | UnusualTimestamp (post_id : string) (hour : Z)
  | UnrealisticTimestamp (post_id : string) (hour : Z)
  | CommentNonExistentPost (comment_id post_id : string)
  | CommentBeforePost (comment_id : string) (minutesEarly : Q)
  | CommentTooLate (comment_id : string) (daysAfterPost : Q)
  | CommentNonExistentParent (comment_id parent_id : string)
  | CommentBeforeParent (comment_id : string)
  | ReplyTooQuick (comment_id : string) (minutes : Q)
  | PersonaDominates (username : string) (percentage : Q)
  | PersonaHighShare (username : string) (percentage : Q)
  | UnusedPersonas (usernames : list string)
  | SelfParent (comment_id : string).

Inductive Exn : Type :=
  | TypeError
  | AiError (detail : string)
  | ValidationFailed (errors : list Message).

Inductive Result (A : Type) : Type :=
  | Ok (a : A)
  | Throw (e : Exn).
Arguments Ok {A} a.
Arguments Throw {A} e.

(** A computation over an object state [S]; the [nat] counts the values of
    [Math.random()] consumed so far. *)
Definition M (S A : Type) : Type := S -> nat -> Result (A * S * nat).

Definition ret {S A} (a : A) : M S A := fun s k => Ok (a, s, k).

Definition bind {S A B} (m : M S A) (f : A -> M S B) : M S B :=
  fun s k =>
    match m s k with
    | Ok (a, s', k') => f a s' k'
    | Throw e => Throw e
    end.

Definition throw {S A} (e : Exn) : M S A := fun _ _ => Throw e.
Definition getState {S} : M S S := fun s k => Ok (s, s, k).
Definition putState {S} (s : S) : M S unit := fun _ k => Ok (tt, s, k).

(** [o!]: a property read on [undefined] raises a [TypeError]. *)
Definition defined {S A} (o : option A) : M S A :=
  match o with
  | Some a => ret a
  | None => throw TypeError
  end.

(** Run a method of a member object. *)
Definition zoom {S T A} (proj : S -> T) (upd : T -> S -> S) (m : M T A) : M S A :=
  fun s k =>
    match m (proj s) k with
    | Ok (a, t, k') => Ok (a, upd t s, k')
    | Throw e => Throw e
    end.

Notation "'let!' x ':=' m 'in' f" := (bind m (fun x => f))
  (at level 10, x pattern, m at level 200, f at level 200).

(** ** [Array.prototype.sort] with a comparator

    The sort is stable; for the comparators of this program (differences of
    integer keys, compared lexicographically) the result is the unique stable
    ordering, computed here by insertion. *)

Fixpoint insertBy {A} (cmp : A -> A -> Z) (x : A) (l : list A) : list A :=
  match l with
  | [] => [x]
  | y :: ys => if (cmp x y <=? 0)%Z then x :: y :: ys else y :: insertBy cmp x ys
  end.

Definition sortBy {A} (cmp : A -> A -> Z) (l : list A) : list A :=
  foldr (insertBy cmp) [] l.

(** [strings.sort()]: the default order compares code units. *)
Definition sortStrings (l : list string) : list string :=
  sortBy (fun a b => if String.leb a b then (-1)%Z else 1%Z) l.

(** [parts.join(sep)] *)
Fixpoint join (sep : string) (parts : list string) : string :=
  match parts with
  | [] => ""
  | [p] => p
  | p :: ps => p +:+ sep +:+ join sep ps
  end.

(** ** Insertion-ordered maps *)

Definition omap (V : Type) : Type := list (string * V).

Fixpoint omap_get {V} (m : omap V) (k : string) : option V :=
  match m with
  | [] => None
  | (k', v) :: m' => if decide (k' = k) then Some v else omap_get m' k
  end.

Definition omap_has {V} (m : omap V) (k : string) : bool :=
  match omap_get m k with Some _ => true | None => false end.

(** [m.set(k, v)]: an existing key keeps its position, a new key goes last. *)
Fixpoint omap_set {V} (m : omap V) (k : string) (v : V) : omap V :=
  match m with
  | [] => [(k, v)]
  | (k', v') :: m' =>
      if decide (k' = k) then (k', v) :: m' else (k', v') :: omap_set m' k v
  end.

Definition omap_values {V} (m : omap V) : list V := m.*2.
Definition omap_keys {V} (m : omap V) : list string := m.*1.

(** ** Schemas ([lib/ai/schemas.ts]) *)

Record Persona : Type := { username : string; backstory : string }.

Record Keyword : Type := { keyword_id : string; keyword : string }.

Record CompanyInfo : Type := {
  name : string;
  website : string;
  description : string;
  subreddits : list string;
  postsPerWeek : nat
}.

Record CalendarInput : Type := {
  company : CompanyInfo;
  personas : list Persona;
  keywords : list Keyword;
  weekNumber : option nat
}.

Record GeneratedPost : Type := {
  post_id : string;
  subreddit : string;
  title : string;
  body : string;
  author_username : string;
  timestamp : Z;
  keyword_ids : list string
}.

Record GeneratedComment : Type := {
  comment_id : string;
  c_post_id : string;
  parent_comment_id : option string;
  comment_text : string;
  c_username : string;
  c_timestamp : Z
}.

Record ContentCalendar : Type := {
  cal_weekNumber : nat;
  companyName : string;
  posts : list GeneratedPost;
  comments : list GeneratedComment;
  generatedAt : Z
}.

(** Numbers: [x < y] on rationals, and [Math.floor(r * n)]. *)
Definition Qltb (x y : Q) : bool := negb (Qle_bool y x).
Definition floorTimes (r : Q) (n : Z) : Z := Qfloor (r * inject_Z n).

(** The binary64 numbers that the literals [0.3], [0.4], [0.6] and [0.7]
    denote ([0.5] is [1 # 2]). *)
Definition double_0_3 : Q := 5404319552844595 # 18014398509481984.
Definition double_0_4 : Q := 3602879701896397 # 9007199254740992.
Definition double_0_6 : Q := 5404319552844595 # 9007199254740992.
Definition double_0_7 : Q := 3152519739159347 # 4503599627370496.

Section Planner.

(** The time zone offset of local time, in milliseconds. *)
Variable tzOffset : Z.
(** The successive values of [Math.random()]. *)
Variable random : nat -> Q.

Definition Math_random {St} : M St Q := fun s k => Ok (random k, s, S k).

(** ** Date utilities ([lib/utils/date.ts] over date-fns) *)

Definition msPerMinute : Z := 60000.
Definition msPerHour : Z := 3600000.
Definition msPerDay : Z := 86400000.

Definition localTime (d : Z) : Z := (d + tzOffset)%Z.
Definition getHours (d : Z) : Z := ((localTime d `mod` msPerDay) `div` msPerHour)%Z.
Definition getMinutes (d : Z) : Z := ((localTime d `mod` msPerHour) `div` msPerMinute)%Z.
(** Day of the week, Sunday = 0; 1 January 1970 was a Thursday. *)
Definition getDay (d : Z) : Z := (((localTime d `div` msPerDay) + 4) `mod` 7)%Z.

Definition addMinutes (d amount : Z) : Z := (d + amount * msPerMinute)%Z.
Definition addHours (d amount : Z) : Z := (d + amount * msPerHour)%Z.
Definition addDays (d amount : Z) : Z := (d + amount * msPerDay)%Z.
Definition setHours (d hours : Z) : Z := (d + (hours - getHours d) * msPerHour)%Z.
Definition setMinutes (d minutes : Z) : Z := (d + (minutes - getMinutes d) * msPerMinute)%Z.
Definition isWeekend (d : Z) : bool := (getDay d =? 0)%Z || (getDay d =? 6)%Z.

(** [startOfWeek(d, { weekStartsOn: 1 })]: local midnight of the Monday on or
    before [d]. *)
Definition startOfWeek (d : Z) : Z :=
  let day := getDay d in
  let diff := ((if (day <? 1)%Z then 7 else 0) + day - 1)%Z in
  let d' := addDays d (- diff) in
  (d' - (localTime d' `mod` msPerDay))%Z.

(** [totalPosts] is positive wherever the planner calls this. For
    [totalPosts = 0] the code divides by zero and returns an invalid date,
    which a time value cannot stand for: the model is that of the code for
    positive [totalPosts] only. *)
Definition generatePostTime {S} (weekStart : Z) (postIndex totalPosts : nat) : M S Z :=
  let baseDate := startOfWeek weekStart in
  let dayOffset := ((Z.of_nat postIndex * 7) `div` Z.of_nat totalPosts)%Z in
  let postDate := addDays baseDate dayOffset in
  let! postDate :=
    (if isWeekend postDate then
       let! r := Math_random in
       if Qltb double_0_3 r then
         let daysUntilMonday := if (getDay postDate =? 0)%Z then 1%Z else 2%Z in
         ret (addDays postDate daysUntilMonday)
       else ret postDate
     else ret postDate) in
  let! r := Math_random in
  let! hour :=
    (if Qltb r (1 # 2) then
       let! r1 := Math_random in ret (14 + floorTimes r1 4)%Z
     else
       let! r2 := Math_random in ret (9 + floorTimes r2 12)%Z) in
  let! r3 := Math_random in
  let minute := floorTimes r3 60 in
  let postDate := setHours postDate hour in
  let postDate := setMinutes postDate minute in
  ret postDate.

Definition generateFirstCommentTime {S} (postTime : Z) : M S Z :=
  let! r := Math_random in
  let delayMinutes := (15 + floorTimes r 45)%Z in
  ret (addMinutes postTime delayMinutes).

Definition generateReplyCommentTime {S} (parentCommentTime : Z) : M S Z :=
  let! r := Math_random in
  let delayMinutes := (5 + floorTimes r 25)%Z in
  ret (addMinutes parentCommentTime delayMinutes).

Definition generateLateCommentTime {S} (postTime : Z) : M S Z :=
  let! r := Math_random in
  let delayHours := (1 + floorTimes r 5)%Z in
  let! r' := Math_random in
  let delayMinutes := floorTimes r' 60 in
  let commentTime := addHours postTime delayHours in
  let commentTime := addMinutes commentTime delayMinutes in
  ret commentTime.

Definition adjustToBusinessHours (date : Z) : Z :=
  let hour := getHours date in
  if (hour <? 6)%Z then setHours (setMinutes date 0) 9
  else if (23 <=? hour)%Z then
    let adjusted := addDays date 1 in
    let adjusted := setHours (setMinutes adjusted 0) 9 in
    adjusted
  else date.

Definition getMinutesDifference (date1 date2 : Z) : Z :=
  ((date2 - date1) `div` (1000 * 60))%Z.

Definition isValidCommentTime (postTime commentTime : Z) : bool :=
  let diffMinutes := getMinutesDifference postTime commentTime in
  (0 <? diffMinutes)%Z && (diffMinutes <? 7 * 24 * 60)%Z.

(** ** Subreddit selection ([lib/algorithm/subreddit-strategy.ts]) *)

Record SubredditUsageTracker : Type := {
  su_subreddit : string;
  postsThisWeek : nat;
  lastPostIndex : Z
}.

(** The state of a [SubredditStrategy] is its [usageTracker] map. *)
Definition SubredditStrategy : Type := omap SubredditUsageTracker.

Definition SubredditStrategy_new : SubredditStrategy := [].

Definition initSubredditTracker (tracker : SubredditStrategy) (subs : list string)
    : SubredditStrategy :=
  foldl (fun t sub =>
           if omap_has t sub then t
           else omap_set t sub
                  {| su_subreddit := sub; postsThisWeek := 0; lastPostIndex := -1 |})
        tracker subs.

Definition isUnposted (tracker : SubredditStrategy) (sub : string) : bool :=
  match omap_get tracker sub with
  | Some usage => Nat.eqb (postsThisWeek usage) 0
  | None => false
  end.

Definition selectSubreddit (subs : list string) (postIndex totalPosts : nat)
    : M SubredditStrategy string :=
  let! tracker := getState in
  let tracker := initSubredditTracker tracker subs in
  let availableSubreddits := filter (fun sub => isUnposted tracker sub = true) subs in
  let! selectedSubreddit :=
    (if Nat.eqb (length availableSubreddits) 0 then
       let sortedByLastUse :=
         sortBy (fun a b => (lastPostIndex a - lastPostIndex b)%Z) (omap_values tracker) in
       let! first := defined (head sortedByLastUse) in
       ret (su_subreddit first)
     else
       let index := (postIndex mod length availableSubreddits)%nat in
       defined (availableSubreddits !! index)) in
  let! usage := defined (omap_get tracker selectedSubreddit) in
  let! _ := putState (omap_set tracker selectedSubreddit
                        {| su_subreddit := su_subreddit usage;
                           postsThisWeek := S (postsThisWeek usage);
                           lastPostIndex := Z.of_nat postIndex |}) in
  ret selectedSubreddit.

Definition isOverposted (sub : string) : M SubredditStrategy bool :=
  let! tracker := getState in
  ret (match omap_get tracker sub with
       | Some usage => Nat.ltb 1 (postsThisWeek usage)
       | None => false
       end).

(** The planner's loop restricted to the subreddit choice: [selectSubreddit]
    for [postIndex] = [from], ..., [from + n - 1]. *)
Fixpoint selectSubreddits (subs : list string) (totalPosts from n : nat)
    : M SubredditStrategy (list string) :=
  match n with
  | O => ret []
  | S n' =>
      let! sub := selectSubreddit subs from totalPosts in
      let! rest := selectSubreddits subs totalPosts (S from) n' in
      ret (sub :: rest)
  end.

(** ** Keyword selection ([lib/algorithm/keyword-strategy.ts]) *)

Record KeywordUsageTracker : Type := {
  keywordId : string;
  usageCount : Z;
  lastUsedPostIndex : Z
}.

Record KeywordStrategy : Type := {
  kw_usageTracker : gmap string KeywordUsageTracker;
  keywordCombinations : gset string
}.

Definition KeywordStrategy_new : KeywordStrategy :=
  {| kw_usageTracker := ∅; keywordCombinations := ∅ |}.

Definition initKeywordTracker (tracker : gmap string KeywordUsageTracker)
    (availableKeywords : list Keyword) : gmap string KeywordUsageTracker :=
  foldl (fun t kw =>
           match t !! keyword_id kw with
           | Some _ => t
           | None => <[keyword_id kw :=
                        {| keywordId := keyword_id kw; usageCount := 0;
                           lastUsedPostIndex := -1 |}]> t
           end)
        tracker availableKeywords.

(** [usage.usageCount++; usage.lastUsedPostIndex = postIndex] on the tracker
    entry of [id]. *)
Definition markKeywordUsed (id : string) (postIndex : nat) : M KeywordStrategy unit :=
  let! st := getState in
  let! usage := defined (kw_usageTracker st !! id) in
  putState {| kw_usageTracker :=
                <[id := {| keywordId := keywordId usage;
                           usageCount := usageCount usage + 1;
                           lastUsedPostIndex := Z.of_nat postIndex |}]>
                  (kw_usageTracker st);
              keywordCombinations := keywordCombinations st |}.

(** The sorted, comma-joined ids of a selection. *)
Definition combinationOf (selection : list Keyword) : string :=
  join "," (sortStrings (keyword_id <$> selection)).

Definition compareKeywordUsage (a b : Keyword * KeywordUsageTracker) : Z :=
  if bool_decide (usageCount a.2 ≠ usageCount b.2)
  then (usageCount a.2 - usageCount b.2)%Z
  else (lastUsedPostIndex a.2 - lastUsedPostIndex b.2)%Z.

(** First loop: take keywords in ranked order, skipping one only when the
    combination it would complete was used before. *)
Fixpoint selectUnseenCombination (keywordCount postIndex : nat)
    (sortedKeywords selectedKeywords : list Keyword)
    : M KeywordStrategy (list Keyword) :=
  match sortedKeywords with
  | [] => ret selectedKeywords
  | keyword :: rest =>
      if Nat.leb keywordCount (length selectedKeywords) then ret selectedKeywords
      else
        let! st := getState in
        let potentialCombination := combinationOf (selectedKeywords ++ [keyword]) in
        if Nat.eqb (length selectedKeywords) 0
           || negb (bool_decide (potentialCombination ∈ keywordCombinations st))
        then
          let! _ := markKeywordUsed (keyword_id keyword) postIndex in
          selectUnseenCombination keywordCount postIndex rest (selectedKeywords ++ [keyword])
        else
          selectUnseenCombination keywordCount postIndex rest selectedKeywords
  end.

(** Second loop: fill up with the least-used keywords not yet selected. *)
Fixpoint fillLeastUsed (keywordCount postIndex : nat)
    (sortedKeywords selectedKeywords : list Keyword)
    : M KeywordStrategy (list Keyword) :=
  match sortedKeywords with
  | [] => ret selectedKeywords
  | keyword :: rest =>
      if Nat.leb keywordCount (length selectedKeywords) then ret selectedKeywords
      else if negb (existsb (fun k => bool_decide (keyword_id k = keyword_id keyword))
                            selectedKeywords)
      then
        let! _ := markKeywordUsed (keyword_id keyword) postIndex in
        fillLeastUsed keywordCount postIndex rest (selectedKeywords ++ [keyword])
      else
        fillLeastUsed keywordCount postIndex rest selectedKeywords
  end.

(** The [usage] read by the sort comparator is the tracker entry, which the
    initialisation above has just made present for every available keyword. *)
Fixpoint withKeywordUsage (tracker : gmap string KeywordUsageTracker)
    (availableKeywords : list Keyword)
    : M KeywordStrategy (list (Keyword * KeywordUsageTracker)) :=
  match availableKeywords with
  | [] => ret []
  | kw :: rest =>
      let! usage := defined (tracker !! keyword_id kw) in
      let! others := withKeywordUsage tracker rest in
      ret ((kw, usage) :: others)
  end.

Definition selectKeywordsForPost (availableKeywords : list Keyword) (postIndex : nat)
    (subreddit : string) : M KeywordStrategy (list Keyword) :=
  let! st := getState in
  let tracker := initKeywordTracker (kw_usageTracker st) availableKeywords in
  let! _ := putState {| kw_usageTracker := tracker;
                        keywordCombinations := keywordCombinations st |} in
  let! r := Math_random in
  let keywordCount := if Qltb r double_0_6 then 2%nat else 3%nat in
  let! ranked := withKeywordUsage tracker availableKeywords in
  let sortedKeywords := (sortBy compareKeywordUsage ranked).*1 in
  let! selectedKeywords :=
    selectUnseenCombination keywordCount postIndex sortedKeywords [] in
  let! selectedKeywords :=
    (if Nat.ltb (length selectedKeywords) keywordCount
     then fillLeastUsed keywordCount postIndex sortedKeywords selectedKeywords
     else ret selectedKeywords) in
  let combination := combinationOf selectedKeywords in
  let! st := getState in
  let! _ := putState {| kw_usageTracker := kw_usageTracker st;
                        keywordCombinations := {[combination]} ∪ keywordCombinations st |} in
  ret selectedKeywords.

(** ** Persona assignment ([lib/algorithm/persona-matcher.ts]) *)

Record PersonaUsageTracker : Type := {
  pu_username : string;
  postCount : Z;
  commentCount : Z;
  lastUsedIndex : Z
}.

(** The state of a [PersonaMatcher] is its [usageTracker] map. *)
Definition PersonaMatcher_new : gmap string PersonaUsageTracker := ∅.

Definition initPersonaTracker (tracker : gmap string PersonaUsageTracker)
    (personas : list Persona) : gmap string PersonaUsageTracker :=
  foldl (fun t p =>
           match t !! username p with
           | Some _ => t
           | None => <[username p :=
                        {| pu_username := username p; postCount := 0;
                           commentCount := 0; lastUsedIndex := -1 |}]> t
           end)
        tracker personas.

(** The [usage] paired with each persona before sorting. When an entry is
    missing, the source fails at the first read of a field of [undefined]: in
    the comparator if it is called at all, else in the update loop; in both
    cases before any state is changed. *)
Fixpoint withPersonaUsage (tracker : gmap string PersonaUsageTracker)
    (personas : list Persona)
    : M (gmap string PersonaUsageTracker) (list (Persona * PersonaUsageTracker)) :=
  match personas with
  | [] => ret []
  | p :: rest =>
      let! usage := defined (tracker !! username p) in
      let! others := withPersonaUsage tracker rest in
      ret ((p, usage) :: others)
  end.

Definition comparePostUsage (a b : Persona * PersonaUsageTracker) : Z :=
  if bool_decide (postCount a.2 ≠ postCount b.2)
  then (postCount a.2 - postCount b.2)%Z
  else (lastUsedIndex a.2 - lastUsedIndex b.2)%Z.

Definition compareCommentUsage (a b : Persona * PersonaUsageTracker) : Z :=
  if bool_decide (commentCount a.2 ≠ commentCount b.2)
  then (commentCount a.2 - commentCount b.2)%Z
  else (lastUsedIndex a.2 - lastUsedIndex b.2)%Z.

Definition selectPostAuthor (personas : list Persona) (postIndex : nat)
    : M (gmap string PersonaUsageTracker) Persona :=
  let! tracker := getState in
  let tracker := initPersonaTracker tracker personas in
  let! _ := putState tracker in
  let! ranked := withPersonaUsage tracker personas in
  let sortedPersonas := sortBy comparePostUsage ranked in
  let! first := defined (head sortedPersonas) in
  let selectedPersona := first.1 in
  let! usage := defined (tracker !! username selectedPersona) in
  let! _ := putState (<[username selectedPersona :=
                         {| pu_username := pu_username usage;
                            postCount := postCount usage + 1;
                            commentCount := commentCount usage;
                            lastUsedIndex := Z.of_nat postIndex |}]> tracker) in
  ret selectedPersona.

(** [usage.commentCount++; usage.lastUsedIndex = postIndex] for each selected
    persona in turn. *)
Fixpoint markCommenters (selectedPersonas : list Persona) (postIndex : nat)
    : M (gmap string PersonaUsageTracker) unit :=
  match selectedPersonas with
  | [] => ret tt
  | persona :: rest =>
      let! tracker := getState in
      let! usage := defined (tracker !! username persona) in
      let! _ := putState (<[username persona :=
                             {| pu_username := pu_username usage;
                                postCount := postCount usage;
                                commentCount := commentCount usage + 1;
                                lastUsedIndex := Z.of_nat postIndex |}]> tracker) in
      markCommenters rest postIndex
  end.

Definition selectCommentAuthors (personas : list Persona) (postAuthor : Persona)
    (postIndex : nat) : M (gmap string PersonaUsageTracker) (list Persona) :=
  let availablePersonas :=
    filter (fun p => username p ≠ username postAuthor) personas in
  if Nat.eqb (length availablePersonas) 0 then ret [postAuthor]
  else
    let! r := Math_random in
    let commenterCount :=
      Nat.min (Z.to_nat (2 + floorTimes r 3)) (length availablePersonas) in
    let! tracker := getState in
    let! ranked := withPersonaUsage tracker availablePersonas in
    let sortedPersonas := sortBy compareCommentUsage ranked in
    let selectedPersonas := (take commenterCount sortedPersonas).*1 in
    let! _ := markCommenters selectedPersonas postIndex in
    let! r' := Math_random in
    if Qltb r' double_0_7 && Nat.ltb 0 (length selectedPersonas) then
      let! tracker := getState in
      let! postAuthorUsage := defined (tracker !! username postAuthor) in
      let! _ := putState (<[username postAuthor :=
                             {| pu_username := pu_username postAuthorUsage;
                                postCount := postCount postAuthorUsage;
                                commentCount := commentCount postAuthorUsage + 1;
                                lastUsedIndex := lastUsedIndex postAuthorUsage |}]> tracker) in
      ret (selectedPersonas ++ [postAuthor])
    else ret selectedPersonas.

(** ** Business rules ([lib/algorithm/validators.ts]) *)

Record ValidationResult : Type := {
  isValid : bool;
  errors : list Message;
  warnings : list Message
}.

Definition mkResult (errs warns : list Message) : ValidationResult :=
  {| isValid := Nat.eqb (length errs) 0; errors := errs; warnings := warns |}.

(** [counts.set(key, (counts.get(key) || 0) + 1)] *)
Definition countUp (counts : omap nat) (key : string) : omap nat :=
  omap_set counts key (S (default 0%nat (omap_get counts key))).

Definition validateNoOverposting (posts : list GeneratedPost) : ValidationResult :=
  let subredditCounts := foldl (fun m post => countUp m (subreddit post)) [] posts in
  let errs :=
    flat_map (fun '(sub, count) =>
                if Nat.ltb 1 count then [Overposting sub count] else [])
             subredditCounts in
  mkResult errs [].

Definition lowerChar (c : ascii) : ascii :=
  let n := nat_of_ascii c in
  if Nat.leb 65 n && Nat.leb n 90 then ascii_of_nat (n + 32) else c.

Fixpoint toLowerCase (s : string) : string :=
  match s with
  | EmptyString => EmptyString
  | String c s' => String (lowerChar c) (toLowerCase s')
  end.

(** [new Set(text.split(/\s+/).filter(w => w.length > 3))] *)
Definition longWords (text : string) : gset string :=
  list_to_set (filter (fun w => (3 < String.length w)%nat) (String.words text)).

Definition calculateTextSimilarity (text1 text2 : string) : Q :=
  let words1 := longWords text1 in
  let words2 := longWords text2 in
  if Nat.eqb (size words1) 0 && Nat.eqb (size words2) 0 then 1%Q
  else if Nat.eqb (size words1) 0 || Nat.eqb (size words2) 0 then 0%Q
  else
    let intersection := words1 ∩ words2 in
    let union := words1 ∪ words2 in
    (Z.of_nat (size intersection) # Pos.of_nat (size union))%Q.

(** One pass of the inner loop: [post] against every later post. *)
Definition similarityMessages (post : GeneratedPost) (later : list GeneratedPost)
    : list Message * list Message :=
  foldl (fun '(errs, warns) other =>
           let similarity :=
             calculateTextSimilarity (toLowerCase (title post)) (toLowerCase (title other)) in
           if Qltb (7 # 10) similarity
           then (errs ++ [PostsTooSimilar (post_id post) (post_id other) similarity], warns)
           else if Qltb (5 # 10) similarity
           then (errs, warns ++ [PostsModeratelySimilar (post_id post) (post_id other) similarity])
           else (errs, warns))
        ([], []) later.

Fixpoint topicMessages (posts : list GeneratedPost) : list Message * list Message :=
  match posts with
  | [] => ([], [])
  | post :: later =>
      let '(errs, warns) := similarityMessages post later in
      let '(errs', warns') := topicMessages later in
      (errs ++ errs', warns ++ warns')
  end.

Definition validateTopicDiversity (posts : list GeneratedPost) : ValidationResult :=
  let '(errs, warns) := topicMessages posts in
  mkResult errs warns.

(** The same check with the function that lower-cases a title as a
    parameter; [validateTopicDiversity] is its instance at [toLowerCase]. *)
Definition similarityMessagesWith (lower : string -> string) (post : GeneratedPost)
    (later : list GeneratedPost) : list Message * list Message :=
  foldl (fun '(errs, warns) other =>
           let similarity :=
             calculateTextSimilarity (lower (title post)) (lower (title other)) in
           if Qltb (7 # 10) similarity
           then (errs ++ [PostsTooSimilar (post_id post) (post_id other) similarity], warns)
           else if Qltb (5 # 10) similarity
           then (errs, warns ++ [PostsModeratelySimilar (post_id post) (post_id other) similarity])
           else (errs, warns))
        ([], []) later.

Fixpoint topicMessagesWith (lower : string -> string) (posts : list GeneratedPost)
    : list Message * list Message :=
  match posts with
  | [] => ([], [])
  | post :: later =>
      let '(errs, warns) := similarityMessagesWith lower post later in
      let '(errs', warns') := topicMessagesWith lower later in
      (errs ++ errs', warns ++ warns')
  end.

Definition validateTopicDiversityWith (lower : string -> string)
    (posts : list GeneratedPost) : ValidationResult :=
  let '(errs, warns) := topicMessagesWith lower posts in
  mkResult errs warns.

(** A string used as a condition: [null] and the empty string are falsy. *)
Definition truthy (o : option string) : bool :=
  match o with
  | Some s => negb (bool_decide (s = ""))
  | None => false
  end.

Definition findPost (posts : list GeneratedPost) (id : string) : option GeneratedPost :=
  find (fun p => bool_decide (post_id p = id)) posts.

Definition findComment (comments : list GeneratedComment) (id : option string)
    : option GeneratedComment :=
  find (fun c => bool_decide (Some (comment_id c) = id)) comments.

(** Minutes between two dates, not rounded. *)
Definition minutesBetween (earlier later : Z) : Q := ((later - earlier) # 60000)%Q.

Definition postTimeMessages (post : GeneratedPost) : list Message * list Message :=
  let hour := getHours (timestamp post) in
  (if (2 <=? hour)%Z && (hour <? 5)%Z
   then [UnrealisticTimestamp (post_id post) hour] else [],
   if (hour <? 6)%Z then [UnusualTimestamp (post_id post) hour] else []).

Definition commentTimeMessages (posts : list GeneratedPost)
    (comments : list GeneratedComment) (comment : GeneratedComment)
    : list Message * list Message :=
  match findPost posts (c_post_id comment) with
  | None => ([CommentNonExistentPost (comment_id comment) (c_post_id comment)], [])
  | Some post =>
      let errs1 :=
        if negb (isValidCommentTime (timestamp post) (c_timestamp comment)) then
          let timeDiff := minutesBetween (timestamp post) (c_timestamp comment) in
          if Qltb timeDiff 0
          then [CommentBeforePost (comment_id comment) (Qabs timeDiff)]
          else [CommentTooLate (comment_id comment) (timeDiff / 60 / 24)]
        else [] in
      let '(errs2, warns2) :=
        if truthy (parent_comment_id comment) then
          match findComment comments (parent_comment_id comment) with
          | None =>
              ([CommentNonExistentParent (comment_id comment)
                  (default "" (parent_comment_id comment))], [])
          | Some parentComment =>
              let replyTime :=
                minutesBetween (c_timestamp parentComment) (c_timestamp comment) in
              if Qltb replyTime 0 then ([CommentBeforeParent (comment_id comment)], [])
              else if Qltb replyTime 1
              then ([], [ReplyTooQuick (comment_id comment) replyTime])
              else ([], [])
          end
        else ([], []) in
      (errs1 ++ errs2, warns2)
  end.

Definition validateTimestamps (posts : list GeneratedPost)
    (comments : list GeneratedComment) : ValidationResult :=
  let postMsgs := postTimeMessages <$> posts in
  let commentMsgs := commentTimeMessages posts comments <$> comments in
  mkResult (concat (postMsgs.*1) ++ concat (commentMsgs.*1))
           (concat (postMsgs.*2) ++ concat (commentMsgs.*2)).

Record PersonaStat : Type := {
  ps_username : string;
  ps_count : nat;
  percentage : Q
}.

Definition validatePersonaDistribution (posts : list GeneratedPost)
    (comments : list GeneratedComment) : ValidationResult :=
  let personaCounts := foldl (fun m post => countUp m (author_username post)) [] posts in
  let personaCounts :=
    foldl (fun m comment => countUp m (c_username comment)) personaCounts comments in
  let totalContent := (length posts + length comments)%nat in
  let personaStats :=
    sortBy (fun a b => (Z.of_nat (ps_count b) - Z.of_nat (ps_count a))%Z)
           ((fun '(username, count) =>
               {| ps_username := username; ps_count := count;
                  percentage := (Z.of_nat count # Pos.of_nat totalContent) * 100 |})
              <$> personaCounts) in
  let errs :=
    match personaStats with
    | top :: _ =>
        if Qltb 50 (percentage top)
        then [PersonaDominates (ps_username top) (percentage top)] else []
    | [] => []
    end in
  let warns1 :=
    match personaStats with
    | top :: _ :: _ =>
        if Qltb 40 (percentage top)
        then [PersonaHighShare (ps_username top) (percentage top)] else []
    | _ => []
    end in
  let warns2 :=
    if existsb (fun stat => Nat.eqb (ps_count stat) 0) personaStats then
      let unused :=
        ps_username <$> filter (fun stat => ps_count stat = 0%nat) personaStats in
      [UnusedPersonas unused]
    else [] in
  mkResult errs (warns1 ++ warns2).

Definition threadMessages (comments : list GeneratedComment)
    (comment : GeneratedComment) : list Message :=
  if truthy (parent_comment_id comment) then
    let parentExists :=
      existsb (fun c => bool_decide (Some (comment_id c) = parent_comment_id comment))
              comments in
    (if negb parentExists
     then [CommentNonExistentParent (comment_id comment)
             (default "" (parent_comment_id comment))]
     else [])
    ++ (if bool_decide (Some (comment_id comment) = parent_comment_id comment)
        then [SelfParent (comment_id comment)] else [])
  else [].

Definition validateCommentThreads (comments : list GeneratedComment) : ValidationResult :=
  mkResult (flat_map (threadMessages comments) comments) [].

Definition validateContentCalendar (posts : list GeneratedPost)
    (comments : list GeneratedComment) : ValidationResult :=
  let results :=
    [ validateNoOverposting posts;
      validateTopicDiversity posts;
      validateTimestamps posts comments;
      validatePersonaDistribution posts comments;
      validateCommentThreads comments ] in
  {| isValid := forallb isValid results;
     errors := flat_map errors results;
     warnings := flat_map warnings results |}.

(** The posts and comments are updated in place; the result is the pair of
    arrays after the pass. Comments are compared with the adjusted posts. *)
Definition fixTimestampIssues (posts : list GeneratedPost)
    (comments : list GeneratedComment) : list GeneratedPost * list GeneratedComment :=
  let posts :=
    (fun post =>
       {| post_id := post_id post; subreddit := subreddit post; title := title post;
          body := body post; author_username := author_username post;
          timestamp := adjustToBusinessHours (timestamp post);
          keyword_ids := keyword_ids post |}) <$> posts in
  let comments :=
    (fun comment =>
       match findPost posts (c_post_id comment) with
       | Some post =>
           if (c_timestamp comment <? timestamp post)%Z then
             {| comment_id := comment_id comment; c_post_id := c_post_id comment;
                parent_comment_id := parent_comment_id comment;
                comment_text := comment_text comment; c_username := c_username comment;
                c_timestamp := (timestamp post + 15 * 60 * 1000)%Z |}
           else comment
       | None => comment
       end) <$> comments in
  (posts, comments).

(** ** The AI service ([lib/ai/types.ts], [lib/ai/ai.interface.ts]) *)

Inductive CommentPosition : Type := First | Reply | Late.

Record GeneratePostRequest : Type := {
  gp_persona : Persona;
  gp_subreddit : string;
  gp_keywords : list Keyword;
  gp_company : CompanyInfo;
  gp_icpSegment : option string
}.

Record GenerateCommentRequest : Type := {
  gc_persona : Persona;
  gc_post : string * string * string;  (* title, body, author_username *)
  gc_parentComment : option (string * string);  (* text, username *)
  gc_company : CompanyInfo;
  commentPosition : CommentPosition;
  gc_shouldMentionProduct : bool
}.

(** The external service: the answer to the [n]-th call of each method, which
    may depend on the request; [Throw] is a rejected promise. *)
Variable aiGeneratePost : nat -> GeneratePostRequest -> Result (string * string).
Variable aiGenerateComment : nat -> GenerateCommentRequest -> Result string.

(** The successive readings of the system clock ([new Date()]). *)
Variable now : nat -> Z.

Definition await {St A} (r : Result A) : M St A :=
  fun s k => match r with Ok a => Ok (a, s, k) | Throw e => Throw e end.

(** ** ICP mapping ([lib/algorithm/subreddit-strategy.ts]) *)

Fixpoint includes (s sub : string) : bool :=
  String.prefix sub s
  || match s with
     | EmptyString => false
     | String _ s' => includes s' sub
     end.

Definition icpMappings : list (string * list string) :=
  [ ("consultants", ["consulting"; "consultant"; "professional services"]);
    ("educators", ["teacher"; "professor"; "education"; "university"]);
    ("marketers", ["marketing"; "marketer"; "brand"; "growth"]);
    ("sales teams", ["sales"; "business development"; "account executive"]);
    ("executives", ["executive"; "ceo"; "leadership"; "c-suite"]);
    ("designers", ["designer"; "design"; "creative"]);
    ("developers", ["developer"; "engineer"; "programmer"; "software"]) ].

Definition mapICPToSubreddit (subreddit companyDescription : string) : option string :=
  let description := toLowerCase companyDescription in
  let subredditLower := toLowerCase subreddit in
  fst <$> find (fun '(segment, kws) =>
                  existsb (fun kw => includes subredditLower kw) kws
                  && existsb (fun kw => includes description kw) kws)
               icpMappings.

(** ** The content generator ([lib/algorithm/content-generator.ts]) *)

Record PostPlan : Type := {
  postIndex : nat;
  pp_subreddit : string;
  author : Persona;
  pp_timestamp : Z;
  pp_keywords : list Keyword;
  icpSegment : option string
}.

Record CommentPlan : Type := {
  position : CommentPosition;
  cp_author : Persona;
  parentCommentId : option string;
  shouldMentionProduct : bool;
  timingOffset : string
}.

Record ContentGenerator : Type := {
  keywordStrategy : KeywordStrategy;
  subredditStrategy : SubredditStrategy;
  personaMatcher : gmap string PersonaUsageTracker
}.

Definition onKeywordStrategy {A} : M KeywordStrategy A -> M ContentGenerator A :=
  zoom keywordStrategy
       (fun t g => {| keywordStrategy := t; subredditStrategy := subredditStrategy g;
                      personaMatcher := personaMatcher g |}).

Definition onSubredditStrategy {A} : M SubredditStrategy A -> M ContentGenerator A :=
  zoom subredditStrategy
       (fun t g => {| keywordStrategy := keywordStrategy g; subredditStrategy := t;
                      personaMatcher := personaMatcher g |}).

Definition onPersonaMatcher {A}
    : M (gmap string PersonaUsageTracker) A -> M ContentGenerator A :=
  zoom personaMatcher
       (fun t g => {| keywordStrategy := keywordStrategy g;
                      subredditStrategy := subredditStrategy g; personaMatcher := t |}).

(** Phase 1, iterations [i], ..., [i + n - 1] of the loop. *)
Fixpoint createPostPlansFrom (input : CalendarInput) (weekStart : Z) (i n : nat)
    : M ContentGenerator (list PostPlan) :=
  match n with
  | O => ret []
  | S n' =>
      let perWeek := postsPerWeek (company input) in
      let! sub :=
        onSubredditStrategy (selectSubreddit (subreddits (company input)) i perWeek) in
      let! selectedKeywords :=
        onKeywordStrategy (selectKeywordsForPost (keywords input) i sub) in
      let! who := onPersonaMatcher (selectPostAuthor (personas input) i) in
      let! time := generatePostTime weekStart i perWeek in
      let segment := mapICPToSubreddit sub (description (company input)) in
      let plan :=
        {| postIndex := i; pp_subreddit := sub; author := who; pp_timestamp := time;
           pp_keywords := selectedKeywords; icpSegment := segment |} in
      let! plans := createPostPlansFrom input weekStart (S i) n' in
      ret (plan :: plans)
  end.

Definition createWeeklyPostPlan (input : CalendarInput) (weekStart : Z)
    : M ContentGenerator (list PostPlan) :=
  createPostPlansFrom input weekStart 0 (postsPerWeek (company input)).

(** Phase 2; [call] is the number of posts requested from the service so far. *)
Fixpoint generatePostsFrom (plans : list PostPlan) (input : CalendarInput) (call : nat)
    : M ContentGenerator (list GeneratedPost) :=
  match plans with
  | [] => ret []
  | plan :: rest =>
      let! result :=
        await (aiGeneratePost call
                 {| gp_persona := author plan; gp_subreddit := pp_subreddit plan;
                    gp_keywords := pp_keywords plan; gp_company := company input;
                    gp_icpSegment := icpSegment plan |}) in
      let post :=
        {| post_id := "P" +:+ pretty (postIndex plan + 1)%nat;
           subreddit := pp_subreddit plan;
           title := result.1; body := result.2;
           author_username := username (author plan);
           timestamp := pp_timestamp plan;
           keyword_ids := keyword_id <$> pp_keywords plan |} in
      let! posts := generatePostsFrom rest input (S call) in
      ret (post :: posts)
  end.

Definition generatePosts (plans : list PostPlan) (input : CalendarInput)
    : M ContentGenerator (list GeneratedPost) :=
  generatePostsFrom plans input 0.

Definition timingOffsetOf (p : CommentPosition) : string :=
  match p with First => "+21min" | Reply => "+16min" | Late => "+2h" end.

(** The body of the loop of [createCommentPlans] for the persona at index [i]. *)
Definition createCommentPlan (i : nat) (persona postAuthor : Persona)
    : M ContentGenerator CommentPlan :=
  let! (pos, parent, mention) :=
    (if Nat.eqb i 0 then
       let! r := Math_random in ret (First, None, Qltb r double_0_7)
     else
       let! secondReplies :=
         (if Nat.eqb i 1 then let! r := Math_random in ret (Qltb r double_0_6)
          else ret false) in
       if secondReplies then
         let! r := Math_random in ret (Reply, Some "C1", Qltb r double_0_3)
       else if bool_decide (username persona = username postAuthor) then
         ret (Reply, Some "C1", false)
       else
         let! r := Math_random in ret (Late, None, Qltb r double_0_4)) in
  ret {| position := pos; cp_author := persona; parentCommentId := parent;
         shouldMentionProduct := mention; timingOffset := timingOffsetOf pos |}.

Fixpoint createCommentPlansFrom (i : nat) (personas : list Persona) (postAuthor : Persona)
    : M ContentGenerator (list CommentPlan) :=
  match personas with
  | [] => ret []
  | persona :: rest =>
      let! plan := createCommentPlan i persona postAuthor in
      let! plans := createCommentPlansFrom (S i) rest postAuthor in
      ret (plan :: plans)
  end.

Definition createCommentPlans (personas : list Persona) (targetCount : Z)
    (postAuthor : Persona) : M ContentGenerator (list CommentPlan) :=
  let actualCount := Z.min targetCount (Z.of_nat (length personas)) in
  createCommentPlansFrom 0 (take (Z.to_nat actualCount) personas) postAuthor.

(** The inner loop of phase 3 over the plans of one post; the next comment
    gets the id [C<commentIdCounter>]. *)
Fixpoint generateThread (post : GeneratedPost) (input : CalendarInput)
    (commentPlans : list CommentPlan) (allComments : list GeneratedComment)
    (commentIdCounter : nat) : M ContentGenerator (list GeneratedComment * nat) :=
  match commentPlans with
  | [] => ret (allComments, commentIdCounter)
  | commentPlan :: rest =>
      let parentComment :=
        if truthy (parentCommentId commentPlan)
        then findComment allComments (parentCommentId commentPlan)
        else None in
      let! result :=
        await (aiGenerateComment (commentIdCounter - 1)
                 {| gc_persona := cp_author commentPlan;
                    gc_post := (title post, body post, author_username post);
                    gc_parentComment :=
                      (fun pc => (comment_text pc, c_username pc)) <$> parentComment;
                    gc_company := company input;
                    commentPosition := position commentPlan;
                    gc_shouldMentionProduct := shouldMentionProduct commentPlan |}) in
      let! commentTimestamp :=
        match position commentPlan, parentComment with
        | First, _ => generateFirstCommentTime (timestamp post)
        | Reply, Some pc => generateReplyCommentTime (c_timestamp pc)
        | _, _ => generateLateCommentTime (timestamp post)
        end in
      let comment :=
        {| comment_id := "C" +:+ pretty commentIdCounter;
           c_post_id := post_id post;
           parent_comment_id := parentCommentId commentPlan;
           comment_text := result;
           c_username := username (cp_author commentPlan);
           c_timestamp := commentTimestamp |} in
      generateThread post input rest (allComments ++ [comment]) (S commentIdCounter)
  end.

(** The outer loop of phase 3 from the post at index [i] on. *)
Fixpoint generateCommentsFrom (posts : list GeneratedPost) (postPlans : list PostPlan)
    (input : CalendarInput) (i : nat) (allComments : list GeneratedComment)
    (commentIdCounter : nat) : M ContentGenerator (list GeneratedComment) :=
  match posts with
  | [] => ret allComments
  | post :: rest =>
      let! plan := defined (postPlans !! i) in
      let! r := Math_random in
      let count := (2 + floorTimes r 3)%Z in
      let! commentingPersonas :=
        onPersonaMatcher (selectCommentAuthors (personas input) (author plan) i) in
      let! commentPlans := createCommentPlans commentingPersonas count (author plan) in
      let! (allComments, commentIdCounter) :=
        generateThread post input commentPlans allComments commentIdCounter in
      generateCommentsFrom rest postPlans input (S i) allComments commentIdCounter
  end.

Definition generateComments (posts : list GeneratedPost) (postPlans : list PostPlan)
    (input : CalendarInput) : M ContentGenerator (list GeneratedComment) :=
  generateCommentsFrom posts postPlans input 0 [] 1.

Definition ContentGenerator_new : ContentGenerator :=
  {| keywordStrategy := KeywordStrategy_new;
     subredditStrategy := SubredditStrategy_new;
     personaMatcher := PersonaMatcher_new |}.

(** Phases 1 to 3 of [generate]: the posts and comments as assembled, before
    the validation phase. *)
Definition assemble (input : CalendarInput)
    : M ContentGenerator (list GeneratedPost * list GeneratedComment) :=
  let! _ := putState ContentGenerator_new in
  let weekStart := startOfWeek (now 0) in
  let! postPlans := createWeeklyPostPlan input weekStart in
  let! posts := generatePosts postPlans input in
  let! comments := generateComments posts postPlans input in
  ret (posts, comments).

Definition generate (input : CalendarInput) : M ContentGenerator ContentCalendar :=
  let! (posts, comments) := assemble input in
  let '(posts, comments) := fixTimestampIssues posts comments in
  let validation := validateContentCalendar posts comments in
  if negb (isValid validation) then throw (ValidationFailed (errors validation))
  else
    ret {| cal_weekNumber :=
             match weekNumber input with
             | Some (S n) => S n
             | _ => 1%nat
             end;
           companyName := name (company input);
           posts := posts;
           comments := comments;
           generatedAt := now 1 |}.

(** ** Sample data

    The scenario of the specification: two subreddits, two posts a week,
    three personas, three keywords. *)

Definition riley : Persona := {| username := "riley_ops"; backstory := "Head of operations." |}.
Definition jordan : Persona :=
  {| username := "jordan_consults"; backstory := "Independent consultant." |}.
Definition emily : Persona := {| username := "emily_econ"; backstory := "Economics student." |}.

Definition demoCompany : CompanyInfo :=
  {| name := "Slideforge";
     website := "https://slideforge.ai";
     description := "AI slide decks for consulting teams";
     subreddits := ["r/PowerPoint"; "r/GoogleSlides"];
     postsPerWeek := 2 |}.

Definition demoInput : CalendarInput :=
  {| company := demoCompany;
     personas := [riley; jordan; emily];
     keywords :=
       [ {| keyword_id := "K1"; keyword := "best ai presentation maker" |};
         {| keyword_id := "K2"; keyword := "alternatives to PowerPoint" |};
         {| keyword_id := "K3"; keyword := "slide deck automation" |} ];
     weekNumber := None |}.

(** A service that answers every request, with a different title per post. *)
Definition demoPost (call : nat) (_ : GeneratePostRequest) : Result (string * string) :=
  Ok (if Nat.eqb call 0 then "Which presentation maker works"
      else "Alternatives worth trying lately",
      "Looking for advice.").

(** A service that gives every post the same title. *)
Definition sameTitlePost (call : nat) (_ : GeneratePostRequest) : Result (string * string) :=
  Ok ("Which presentation maker works", "Looking for advice.").

Definition demoComment (call : nat) (_ : GenerateCommentRequest) : Result string :=
  Ok "Good question.".

(** Every draw is 0.5. *)
Definition half (_ : nat) : Q := 1 # 2.

(** Monday 8 December 2025, 08:00 UTC. *)
Definition demoNow (_ : nat) : Z := 1765180800000.

Definition alice : Persona := {| username := "alice"; backstory := "" |}.
Definition bob : Persona := {| username := "bob"; backstory := "" |}.
Definition carol : Persona := {| username := "carol"; backstory := "" |}.
Definition dave : Persona := {| username := "dave"; backstory := "" |}.
Definition erin : Persona := {| username := "erin"; backstory := "" |}.
Definition fivePersonas : list Persona := [alice; bob; carol; dave; erin].

(** The first draw is 0.9, the later ones 0.1. *)
Definition highThenLow (k : nat) : Q := if Nat.eqb k 0 then 9 # 10 else 1 # 10.

(** A post at 15:30 UTC and a comment on it thirty seconds later. *)
Definition lonePost : GeneratedPost :=
  {| post_id := "P1"; subreddit := "r/PowerPoint";
     title := "Which presentation maker works"; body := "Looking for advice.";
     author_username := "riley_ops"; timestamp := 1765207800000;
     keyword_ids := ["K1"; "K2"] |}.

Definition quickComment : GeneratedComment :=
  {| comment_id := "C1"; c_post_id := "P1"; parent_comment_id := None;
     comment_text := "Good question."; c_username := "emily_econ";
     c_timestamp := 1765207830000 |}.

(** A service that fails the request for the second post. *)
Definition failingPost (call : nat) (req : GeneratePostRequest)
    : Result (string * string) :=
  if Nat.eqb call 1 then Throw (AiError "rate limit") else demoPost call req.

(** The sample input without personas. *)
Definition noPersonas : CalendarInput :=
  {| company := demoCompany; personas := []; keywords := keywords demoInput;
     weekNumber := None |}.

(** A post with the title of [lonePost] in capitals. *)
Definition shoutedPost : GeneratedPost :=
  {| post_id := "P2"; subreddit := "r/GoogleSlides";
     title := "WHICH PRESENTATION MAKER WORKS"; body := "Any ideas?";
     author_username := "jordan_consults"; timestamp := 1765294200000;
     keyword_ids := ["K3"] |}.

(** A subreddit tracker after one post in each of two subreddits. *)
Definition postedTracker : SubredditStrategy :=
  [ ("r/A", {| su_subreddit := "r/A"; postsThisWeek := 1; lastPostIndex := 0 |});
    ("r/B", {| su_subreddit := "r/B"; postsThisWeek := 1; lastPostIndex := 1 |}) ].

(** A persona tracker after a post by one persona and a comment by another. *)
Definition sharedTracker : gmap string PersonaUsageTracker :=
  {[ "riley_ops" := {| pu_username := "riley_ops"; postCount := 1;
                       commentCount := 0; lastUsedIndex := 0 |};
     "emily_econ" := {| pu_username := "emily_econ"; postCount := 0;
                        commentCount := 1; lastUsedIndex := 0 |} ]}.

(** The persona tracker after a first post by alice, and after bob and then
    alice have commented on it. *)
Definition postedByAlice : gmap string PersonaUsageTracker :=
  {[ "alice" := {| pu_username := "alice"; postCount := 1; commentCount := 0;
                   lastUsedIndex := 0 |};
     "bob" := {| pu_username := "bob"; postCount := 0; commentCount := 0;
                 lastUsedIndex := -1 |} ]}.

Definition commentedTracker : gmap string PersonaUsageTracker :=
  {[ "alice" := {| pu_username := "alice"; postCount := 1; commentCount := 1;
                   lastUsedIndex := 0 |};
     "bob" := {| pu_username := "bob"; postCount := 0; commentCount := 1;
                 lastUsedIndex := 0 |} ]}.

(** ** Vocabulary of the statements *)

(** The value of a computation that returned. *)
Definition valueOf {St A} (r : Result (A * St * nat)) : option A :=
  match r with
  | Ok (a, _, _) => Some a
  | Throw _ => None
  end.

(** Id, post id and parent id of each comment. *)
Definition threadsOf (calendar : ContentCalendar)
    : list (string * string * option string) :=
  (λ c, (comment_id c, c_post_id c, parent_comment_id c)) <$> comments calendar.

(** The calendar day of a date in local time, counted from the epoch. *)
Definition localDay (d : Z) : Z := (localTime d `div` msPerDay)%Z.

Definition freshSubreddit (sub : string) : SubredditUsageTracker :=
  {| su_subreddit := sub; postsThisWeek := 0; lastPostIndex := -1 |}.

(** The tracker agrees with the list [used] of subreddits chosen so far. *)
Definition tracksUsed (used : list string) (tracker : SubredditStrategy) : Prop :=
  ∀ sub,
    match omap_get tracker sub with
    | Some usage => postsThisWeek usage = 0%nat ↔ sub ∉ used
    | None => sub ∉ used
    end.

(** The combinations are unchanged and every tracked keyword stays tracked. *)
Definition keepsTracked (st st' : KeywordStrategy) : Prop :=
  keywordCombinations st' = keywordCombinations st
  ∧ ∀ id, is_Some (kw_usageTracker st !! id) → is_Some (kw_usageTracker st' !! id).

(** The ids are [C1], [C2], ... in order, and a parent reference is [C1],
    held by a comment other than the first. *)
Definition wellThreaded (ids : list string) (parents : list (option string)) : Prop :=
  ids = (λ n : nat, "C" +:+ pretty n) <$> seq 1 (length ids)
  ∧ length parents = length ids
  ∧ ∀ i p, parents !! i = Some (Some p) → p = "C1" ∧ (1 ≤ i)%nat.

Definition threadShape (allComments : list GeneratedComment) (commentIdCounter : nat)
    : Prop :=
  commentIdCounter = S (length allComments)
  ∧ wellThreaded (comment_id <$> allComments) (parent_comment_id <$> allComments).

(** The number of occurrences of a key in a list. *)
Definition occurrences (k : string) (l : list string) : nat :=
  length (filter (λ x, x = k) l).

(** The head of a list is least for the comparator. *)
Definition headLeast {A} (cmp : A → A → Z) (l : list A) : Prop :=
  match l with
  | [] => True
  | h :: _ => ∀ y, y ∈ l → (cmp h y ≤ 0)%Z
  end.

(** The business-hours adjustment of one post, as [fixTimestampIssues]
    applies it. *)
Definition fixPost (post : GeneratedPost) : GeneratedPost :=
  {| post_id := post_id post; subreddit := subreddit post; title := title post;
     body := body post; author_username := author_username post;
     timestamp := adjustToBusinessHours (timestamp post);
     keyword_ids := keyword_ids post |}.


(** [getOverpostedSubreddits] of [SubredditStrategy]. *)
Definition getOverpostedSubreddits : M SubredditStrategy (list string) :=
  let! tracker := getState in
  ret (su_subreddit <$> filter (λ usage, (1 < postsThisWeek usage)%nat)
                               (omap_values tracker)).

(** Every tracker entry is filed under its own subreddit, one of [subs]. *)
Definition filedUnder (subs : list string) (tracker : SubredditStrategy) : Prop :=
  ∀ sub usage, (sub, usage) ∈ tracker → su_subreddit usage = sub ∧ sub ∈ subs.

(** The tracker counts one post for each subreddit of [used], none for others. *)
Definition countsUsed (used : list string) (tracker : SubredditStrategy) : Prop :=
  ∀ sub usage, omap_get tracker sub = Some usage →
    postsThisWeek usage = if decide (sub ∈ used) then 1%nat else 0%nat.

(** One more use of a keyword at post [postIndex]. *)
Definition usedOnceMore (postIndex : nat) (usage : KeywordUsageTracker)
    : KeywordUsageTracker :=
  {| keywordId := keywordId usage; usageCount := usageCount usage + 1;
     lastUsedPostIndex := Z.of_nat postIndex |}.

Definition bumpKeyword (postIndex : nat) (tracker : gmap string KeywordUsageTracker)
    (id : string) : gmap string KeywordUsageTracker :=
  match tracker !! id with
  | Some usage => <[id := usedOnceMore postIndex usage]> tracker
  | None => tracker
  end.

(** The post and comment counts the tracker holds for a username (0 when it
    has no entry). *)
Definition postsOf (tracker : gmap string PersonaUsageTracker) (name : string) : Z :=
  from_option postCount 0%Z (tracker !! name).

Definition commentsOf (tracker : gmap string PersonaUsageTracker) (name : string) : Z :=
  from_option commentCount 0%Z (tracker !! name).

(** The post counts of the personas are within one of each other. *)
Definition evenlySpread (personas : list Persona)
    (tracker : gmap string PersonaUsageTracker) : Prop :=
  ∃ m : Z, ∀ p, p ∈ personas → (m ≤ postsOf tracker (username p) ≤ m + 1)%Z.

(** A list is ordered by the comparator: no element is above a later one. *)
Fixpoint ordered {A} (cmp : A → A → Z) (l : list A) : Prop :=
  match l with
  | [] => True
  | x :: l' => (∀ y, y ∈ l' → (cmp x y ≤ 0)%Z) ∧ ordered cmp l'
  end.



(** A plan made from the input. *)
Definition plannedFrom (input : CalendarInput) (plan : PostPlan) : Prop :=
  pp_subreddit plan ∈ subreddits (company input)
  ∧ author plan ∈ personas input
  ∧ ∀ kw, kw ∈ pp_keywords plan → kw ∈ keywords input.

(** The thread of a post: one to four comments on that post, by personas
    of the input. *)
Definition threadOf (input : CalendarInput) (post : GeneratedPost)
    (thread : list GeneratedComment) : Prop :=
  (1 ≤ length thread ≤ 4)%nat
  ∧ ∀ c, c ∈ thread →
      c_post_id c = post_id post ∧ c_username c ∈ username <$> personas input.

(** What [fixTimestampIssues] does to one comment, given the adjusted posts. *)
Definition fixComment (posts : list GeneratedPost) (comment : GeneratedComment)
    : GeneratedComment :=
  match findPost posts (c_post_id comment) with
  | Some post =>
      if (c_timestamp comment <? timestamp post)%Z then
        {| comment_id := comment_id comment; c_post_id := c_post_id comment;
           parent_comment_id := parent_comment_id comment;
           comment_text := comment_text comment; c_username := c_username comment;
           c_timestamp := (timestamp post + 15 * 60 * 1000)%Z |}
      else comment
  | None => comment
  end.

(** [sub] occurs in [s] as a substring. *)
Definition occursIn (sub s : string) : Prop :=
  ∃ pre post, s = pre +:+ sub +:+ post.

(** [Math.max(...values)]; [None] stands for [-Infinity], its value on no
    argument. *)
Definition Math_max (values : list Z) : option Z :=
  foldl (λ acc v, Some (match acc with Some m => Z.max m v | None => v end))
        None values.

(** The total [reduce]d by [isPersonaDistributionBalanced]. *)
Definition totalContentOf (tracker : gmap string PersonaUsageTracker) : Z :=
  foldl (λ sum usage, (sum + postCount usage + commentCount usage)%Z) 0%Z
        (map_to_list tracker).*2.

(** [isPersonaDistributionBalanced] of [PersonaMatcher]. The sum and the
    maximum do not depend on the order of the map's values; the quotient of
    the two counts is compared with 0.5 as a rational. *)
Definition isPersonaDistributionBalanced : M (gmap string PersonaUsageTracker) bool :=
  let! tracker := getState in
  let totalContent := totalContentOf tracker in
  if (totalContent =? 0)%Z then ret true
  else
    let maxContent :=
      Math_max ((λ usage, (postCount usage + commentCount usage)%Z)
                  <$> (map_to_list tracker).*2) in
    ret (match maxContent with
         | Some m => Qle_bool (inject_Z m / inject_Z totalContent) (1 # 2)
         | None => (0 <? totalContent)%Z
         end).

(** * Properties *)

(** ** The monad *)

Lemma bind_Ok {St A B} (m : M St A) (f : A → M St B) s k a s' k' :
  m s k = Ok (a, s', k') → bind m f s k = f a s' k'.
Proof. intros H. unfold bind. by rewrite H. Qed.

Lemma bind_Ok_inv {St A B} (m : M St A) (f : A → M St B) s k r :
  bind m f s k = Ok r → ∃ a s' k', m s k = Ok (a, s', k') ∧ f a s' k' = Ok r.
Proof.
  unfold bind. destruct (m s k) as [[[a s'] k']|e]; [|done].
  intros H. by exists a, s', k'.
Qed.

(** ** Random draws *)

Lemma floorTimes_range (r : Q) (n : Z) :
  (0 <= r)%Q → (r < 1)%Q → (0 < n)%Z → (0 ≤ floorTimes r n < n)%Z.
Proof.
  intros Hlo Hhi Hn.
  pose proof (Qfloor_le (r * inject_Z n)) as H1.
  pose proof (Qlt_floor (r * inject_Z n)) as H2.
  fold (floorTimes r n) in H1, H2.
  assert (Hn' : (0 < inject_Z n)%Q) by (rewrite (Zlt_Qlt 0 n) in Hn; exact Hn).
  split.
  - assert (H : (inject_Z 0 < inject_Z (floorTimes r n + 1))%Q).
    { eapply Qle_lt_trans; [|exact H2].
      apply Qmult_le_0_compat; [done|]. by apply Qlt_le_weak. }
    rewrite <- Zlt_Qlt in H. lia.
  - assert (H : (inject_Z (floorTimes r n) < inject_Z n)%Q).
    { eapply Qle_lt_trans; [exact H1|].
      rewrite <- (Qmult_1_l (inject_Z n)) at 2.
      apply Qmult_lt_compat_r; done. }
    by rewrite <- Zlt_Qlt in H.
Qed.

(** ** Timestamps *)

Lemma generateLateCommentTime_eq {St} (postTime : Z) (s : St) (k : nat) :
  generateLateCommentTime postTime s k =
  Ok ((postTime + (1 + floorTimes (random k) 5) * msPerHour
       + floorTimes (random (S k)) 60 * msPerMinute)%Z, s, S (S k)).
Proof. reflexivity. Qed.

(** C5 (as amended): [generateLateCommentTime] returns [postTime] plus a
    whole number of hours from 1 to 5 and 0 to 59 extra minutes, after two
    draws; the total delay is at least one hour and less than six. *)
Theorem generateLateCommentTime_delay {St} (postTime : Z) (s : St) (k : nat) :
  (0 <= random k)%Q → (random k < 1)%Q →
  (0 <= random (S k))%Q → (random (S k) < 1)%Q →
  ∃ h m : Z,
    generateLateCommentTime postTime s k =
      Ok ((postTime + h * msPerHour + m * msPerMinute)%Z, s, S (S k))
    ∧ (1 ≤ h ≤ 5)%Z ∧ (0 ≤ m ≤ 59)%Z
    ∧ (1 * msPerHour ≤ h * msPerHour + m * msPerMinute < 6 * msPerHour)%Z.
Proof.
  intros Hlo Hhi Hlo' Hhi'.
  exists (1 + floorTimes (random k) 5)%Z, (floorTimes (random (S k)) 60).
  pose proof (floorTimes_range (random k) 5 Hlo Hhi ltac:(lia)) as Hh.
  pose proof (floorTimes_range (random (S k)) 60 Hlo' Hhi' ltac:(lia)) as Hm.
  split; [apply generateLateCommentTime_eq|].
  split; [lia|]. split; [lia|].
  unfold msPerHour, msPerMinute. lia.
Qed.

(** C9: [adjustToBusinessHours] is idempotent; a date whose hour is in
    [6, 23) is unchanged; an hour below 6 is moved to 09:00 of the same day
    and an hour of 23 to 09:00 of the next day. *)
Theorem adjustToBusinessHours_idempotent (t : Z) :
  adjustToBusinessHours (adjustToBusinessHours t) = adjustToBusinessHours t
  ∧ ((6 ≤ getHours t < 23)%Z → adjustToBusinessHours t = t)
  ∧ ((getHours t < 6)%Z →
       getHours (adjustToBusinessHours t) = 9%Z
       ∧ getMinutes (adjustToBusinessHours t) = 0%Z
       ∧ localDay (adjustToBusinessHours t) = localDay t)
  ∧ ((23 ≤ getHours t)%Z →
       getHours (adjustToBusinessHours t) = 9%Z
       ∧ getMinutes (adjustToBusinessHours t) = 0%Z
       ∧ localDay (adjustToBusinessHours t) = (localDay t + 1)%Z).
Proof.
  unfold adjustToBusinessHours, localDay, setHours, setMinutes, addDays,
    getHours, getMinutes, localTime, msPerDay, msPerHour, msPerMinute.
  repeat split; intros; repeat case_match; try reflexivity;
    Z.to_euclidean_division_equations; lia.
Qed.

Lemma isValidCommentTime_under_a_minute (postTime commentTime : Z) :
  (0 < commentTime - postTime < 60000)%Z →
  isValidCommentTime postTime commentTime = false.
Proof.
  intros H. unfold isValidCommentTime, getMinutesDifference.
  replace ((commentTime - postTime) `div` (1000 * 60))%Z with 0%Z; [done|].
  symmetry. apply Z.div_small. lia.
Qed.

Lemma minutesBetween_not_negative (earlier later : Z) :
  (0 < later - earlier)%Z → Qltb (minutesBetween earlier later) 0 = false.
Proof.
  intros H. unfold Qltb, minutesBetween, Qle_bool. simpl.
  apply negb_false_iff, Z.leb_le. lia.
Qed.

Lemma commentTimeMessages_under_a_minute posts comments comment post :
  findPost posts (c_post_id comment) = Some post →
  (0 < c_timestamp comment - timestamp post < 60000)%Z →
  ∃ rest,
    (commentTimeMessages posts comments comment).1 =
      CommentTooLate (comment_id comment)
        (minutesBetween (timestamp post) (c_timestamp comment) / 60 / 24) :: rest
    ∧ ∀ m, CommentBeforePost (comment_id comment) m ∉ rest.
Proof.
  intros Hpost Hdiff. unfold commentTimeMessages. rewrite Hpost.
  rewrite isValidCommentTime_under_a_minute by done.
  rewrite minutesBetween_not_negative by lia. simpl.
  destruct (truthy (parent_comment_id comment)); simpl.
  - destruct (findComment comments (parent_comment_id comment)) as [pc|]; simpl.
    + repeat case_match; simplify_eq/=; eexists; (split; [reflexivity|]);
        intros m Hm; repeat (apply elem_of_cons in Hm as [Hm|Hm]; [done|]);
        by apply elem_of_nil in Hm.
    + eexists; split; [reflexivity|].
      intros m Hm. apply elem_of_cons in Hm as [Hm|Hm]; [done|].
      by apply elem_of_nil in Hm.
  - eexists; split; [reflexivity|]. intros m Hm. by apply elem_of_nil in Hm.
Qed.

(** C10 (as amended): a comment made less than a minute after its post fails
    [isValidCommentTime], and [validateTimestamps] then reports the blocking
    "too late" error for it (with the delay in days), not the "before its
    post" error. *)
Theorem validateTimestamps_under_a_minute posts comments comment post :
  comment ∈ comments →
  findPost posts (c_post_id comment) = Some post →
  (0 < c_timestamp comment - timestamp post < 60000)%Z →
  isValidCommentTime (timestamp post) (c_timestamp comment) = false
  ∧ CommentTooLate (comment_id comment)
      (minutesBetween (timestamp post) (c_timestamp comment) / 60 / 24)
    ∈ errors (validateTimestamps posts comments)
  ∧ isValid (validateTimestamps posts comments) = false
  ∧ ∀ m, CommentBeforePost (comment_id comment) m
         ∉ (commentTimeMessages posts comments comment).1.
Proof.
  intros Hin Hpost Hdiff.
  destruct (commentTimeMessages_under_a_minute posts comments comment post Hpost Hdiff)
    as (rest & Hmsgs & Hrest).
  assert (Herr : CommentTooLate (comment_id comment)
                   (minutesBetween (timestamp post) (c_timestamp comment) / 60 / 24)
                 ∈ errors (validateTimestamps posts comments)).
  { unfold validateTimestamps, mkResult. cbn [errors]. apply elem_of_app. right.
    apply list_elem_of_In, in_concat.
    exists ((commentTimeMessages posts comments comment).1).
    split; [|rewrite Hmsgs; by left].
    apply list_elem_of_In, list_elem_of_fmap.
    exists (commentTimeMessages posts comments comment).
    split; [done|]. apply list_elem_of_fmap. by exists comment. }
  split; [by apply isValidCommentTime_under_a_minute|].
  split; [exact Herr|]. split.
  - revert Herr. unfold validateTimestamps, mkResult. cbn [errors isValid].
    destruct (concat _ ++ concat _); [intros Herr; by apply elem_of_nil in Herr|done].
  - intros m. rewrite Hmsgs. intros Hm.
    apply elem_of_cons in Hm as [Hm|Hm]; [done|]. by apply (Hrest m).
Qed.

(** ** Sorting *)

Lemma insertBy_Permutation {A} (cmp : A → A → Z) (x : A) (l : list A) :
  insertBy cmp x l ≡ₚ x :: l.
Proof.
  induction l as [|y l IH]; simpl; [done|].
  case_match; [done|]. rewrite IH. apply Permutation_swap.
Qed.

Lemma sortBy_Permutation {A} (cmp : A → A → Z) (l : list A) : sortBy cmp l ≡ₚ l.
Proof.
  induction l as [|x l IH]; simpl; [done|].
  unfold sortBy in *. rewrite insertBy_Permutation. by rewrite IH.
Qed.

Lemma length_sortBy {A} (cmp : A → A → Z) (l : list A) :
  length (sortBy cmp l) = length l.
Proof. apply Permutation_length, sortBy_Permutation. Qed.

(** ** Persona distribution *)

Lemma omap_set_Forall {V} (P : V → Prop) (m : omap V) (k : string) (v : V) :
  P v → Forall (λ kv, P kv.2) m → Forall (λ kv, P kv.2) (omap_set m k v).
Proof.
  intros Hv. induction 1 as [|[k' v'] m' Hh Ht IH]; simpl.
  - by repeat constructor.
  - case_decide; constructor; done.
Qed.

Lemma countUp_all_positive {A} (f : A → string) (l : list A) (m : omap nat) :
  Forall (λ kv, (0 < kv.2)%nat) m →
  Forall (λ kv, (0 < kv.2)%nat) (foldl (λ m x, countUp m (f x)) m l).
Proof.
  revert m. induction l as [|x l IH]; intros m Hm; simpl; [done|].
  apply IH. apply (omap_set_Forall (λ n, (0 < n)%nat)); [lia | done].
Qed.

(** No input makes [validatePersonaDistribution] report unused personas:
    a username enters the count map with its first post or comment. *)
Lemma validatePersonaDistribution_never_unused posts comments usernames :
  UnusedPersonas usernames ∉ warnings (validatePersonaDistribution posts comments).
Proof.
  unfold validatePersonaDistribution.
  set (counts := foldl _ (foldl _ _ posts) comments).
  assert (Hpos : Forall (λ kv, (0 < kv.2)%nat) counts).
  { unfold counts. apply countUp_all_positive, countUp_all_positive. constructor. }
  set (stats := sortBy _ _).
  assert (Hstats : Forall (λ st, (0 < ps_count st)%nat) stats).
  { unfold stats. rewrite sortBy_Permutation. apply Forall_fmap.
    eapply Forall_impl; [exact Hpos|]. by intros [u c]. }
  assert (Hnone : existsb (λ stat, Nat.eqb (ps_count stat) 0) stats = false).
  { apply not_true_iff_false. intros Hex. apply existsb_exists in Hex as (st & Hin & Hz).
    apply Nat.eqb_eq in Hz. rewrite Forall_forall in Hstats.
    apply list_elem_of_In in Hin. specialize (Hstats st Hin). lia. }
  unfold mkResult. cbn [warnings]. rewrite Hnone, app_nil_r.
  intros Hin. destruct stats as [|top [|second rest]]; cbn beta iota in Hin.
  - by apply elem_of_nil in Hin.
  - by apply elem_of_nil in Hin.
  - case_match; [|by apply elem_of_nil in Hin].
    apply elem_of_cons in Hin as [Hin|Hin]; [done | by apply elem_of_nil in Hin].
Qed.

(** ** Insertion-ordered maps *)

Lemma omap_get_set_eq {V} (m : omap V) (k : string) (v : V) :
  omap_get (omap_set m k v) k = Some v.
Proof.
  induction m as [|[k' v'] m IH]; simpl.
  - by rewrite decide_True.
  - destruct (decide (k' = k)) as [->|Hne]; simpl.
    + by rewrite decide_True.
    + by rewrite decide_False.
Qed.

Lemma omap_get_set_ne {V} (m : omap V) (k k' : string) (v : V) :
  k ≠ k' → omap_get (omap_set m k v) k' = omap_get m k'.
Proof.
  intros Hne. induction m as [|[k0 v0] m IH]; simpl.
  - by rewrite decide_False.
  - destruct (decide (k0 = k)) as [->|Hne0]; simpl.
    + by rewrite !decide_False.
    + by rewrite IH.
Qed.

(** ** Subreddit rotation *)

Lemma initSubredditTracker_get (subs : list string) (tracker : SubredditStrategy)
    (sub : string) :
  omap_get (initSubredditTracker tracker subs) sub =
  match omap_get tracker sub with
  | Some usage => Some usage
  | None => if decide (sub ∈ subs) then Some (freshSubreddit sub) else None
  end.
Proof.
  unfold initSubredditTracker. revert tracker.
  induction subs as [|s subs IH]; intros tracker; cbn [foldl].
  - destruct (omap_get tracker sub); [done|]. by rewrite decide_False by apply not_elem_of_nil.
  - rewrite IH. unfold omap_has.
    destruct (omap_get tracker s) as [u|] eqn:Hs.
    + destruct (omap_get tracker sub) eqn:Hsub; [done|].
      destruct (decide (sub ∈ subs)) as [Hin|Hnin].
      * by rewrite decide_True by (by right).
      * destruct (decide (sub ∈ s :: subs)) as [Hin'|]; [|done].
        apply elem_of_cons in Hin' as [->|]; [congruence | done].
    + destruct (decide (s = sub)) as [->|Hne].
      * rewrite omap_get_set_eq, Hs. by rewrite decide_True by (by left).
      * rewrite omap_get_set_ne by done.
        destruct (omap_get tracker sub); [done|].
        destruct (decide (sub ∈ subs)) as [Hin|Hnin].
        -- by rewrite decide_True by (by right).
        -- rewrite decide_False; [done|].
           intros [->|]%elem_of_cons; done.
Qed.

Lemma tracksUsed_init used tracker subs :
  tracksUsed used tracker → tracksUsed used (initSubredditTracker tracker subs).
Proof.
  intros Hinv sub. specialize (Hinv sub). rewrite initSubredditTracker_get.
  destruct (omap_get tracker sub); [done|].
  case_decide; [|done]. by simpl.
Qed.

Lemma some_subreddit_unused (used subs : list string) :
  NoDup used →
  (length used < length (remove_dups subs))%nat →
  ∃ sub, sub ∈ subs ∧ sub ∉ used.
Proof.
  intros Hnd Hlen.
  destruct (decide (Forall (λ sub, sub ∈ used) subs)) as [Hall|Hex].
  - exfalso. rewrite Forall_forall in Hall.
    assert (remove_dups subs ⊆+ used) as Hsub.
    { apply NoDup_submseteq; [apply NoDup_remove_dups|].
      intros x Hx. apply Hall. by apply elem_of_remove_dups. }
    apply submseteq_length in Hsub. lia.
  - apply not_Forall_Exists in Hex; [|apply _].
    apply Exists_exists in Hex as (sub & Hin & Hnot). by exists sub.
Qed.

Lemma selectSubreddit_unused subs postIndex totalPosts used tracker k :
  tracksUsed used tracker →
  NoDup used →
  (length used < length (remove_dups subs))%nat →
  ∃ sub tracker',
    selectSubreddit subs postIndex totalPosts tracker k = Ok (sub, tracker', k)
    ∧ sub ∈ subs ∧ (sub ∉ used) ∧ tracksUsed (sub :: used) tracker'.
Proof.
  intros Hinv Hnd Hlen.
  destruct (some_subreddit_unused used subs Hnd Hlen) as (sub0 & Hin0 & Hnot0).
  pose proof (tracksUsed_init used tracker subs Hinv) as Hinv1.
  set (tracker1 := initSubredditTracker tracker subs) in *.
  set (available := filter (λ sub, isUnposted tracker1 sub = true) subs).
  assert (Hunposted : ∀ sub, sub ∈ available →
            sub ∈ subs ∧ (sub ∉ used) ∧ (∃ usage, omap_get tracker1 sub = Some usage)).
  { intros sub [Hun Hin]%list_elem_of_filter. split; [done|].
    unfold isUnposted in Hun. specialize (Hinv1 sub).
    destruct (omap_get tracker1 sub) as [usage|]; [|done].
    apply Nat.eqb_eq in Hun. split; [by apply Hinv1 | by eexists]. }
  assert (Hav : sub0 ∈ available).
  { apply list_elem_of_filter. split; [|done].
    unfold isUnposted. specialize (Hinv1 sub0).
    unfold tracker1 in *. rewrite initSubredditTracker_get in *.
    destruct (omap_get tracker sub0) as [usage|].
    - apply Nat.eqb_eq. by apply Hinv1.
    - by rewrite decide_True. }
  assert (Hpos : (0 < length available)%nat).
  { destruct available; [by apply elem_of_nil in Hav | simpl; lia]. }
  destruct (lookup_lt_is_Some_2 available (postIndex mod length available))
    as [sel Hsel]; [apply Nat.mod_upper_bound; lia|].
  destruct (Hunposted sel) as (Hsel_in & Hsel_new & usage & Husage);
    [by eapply list_elem_of_lookup_2|].
  exists sel. eexists. split; [|split; [done|split; [done|]]].
  - unfold selectSubreddit, bind, getState, putState, ret, defined.
    fold tracker1. fold available.
    destruct (length available) eqn:Hl; [lia|]. cbn [Nat.eqb].
    rewrite Hsel. unfold ret. rewrite Husage. reflexivity.
  - intros sub. destruct (decide (sel = sub)) as [<-|Hne].
    + rewrite omap_get_set_eq. simpl. split; [done|].
      intros Hn. exfalso. apply Hn. by left.
    + rewrite omap_get_set_ne by done. specialize (Hinv1 sub).
      destruct (omap_get tracker1 sub).
      * rewrite Hinv1, not_elem_of_cons. split; [by intros ? | by intros [_ ?]].
      * rewrite not_elem_of_cons. by split.
Qed.

Lemma selectSubreddits_distinct subs totalPosts n : ∀ from used tracker k,
  tracksUsed used tracker →
  NoDup used →
  (length used + n ≤ length (remove_dups subs))%nat →
  ∃ results tracker',
    selectSubreddits subs totalPosts from n tracker k = Ok (results, tracker', k)
    ∧ length results = n
    ∧ NoDup (results ++ used)
    ∧ ∀ sub, sub ∈ results → sub ∈ subs.
Proof.
  induction n as [|n IH]; intros from used tracker k Hinv Hnd Hlen.
  - exists [], tracker. repeat split; [done..|]. intros sub Hin. by apply elem_of_nil in Hin.
  - destruct (selectSubreddit_unused subs from totalPosts used tracker k Hinv Hnd)
      as (sub & tracker1 & Hrun & Hin & Hnew & Hinv1); [lia|].
    destruct (IH (S from) (sub :: used) tracker1 k Hinv1) as (rest & tracker2 & Hrest & Hl & Hnd2 & Hsub).
    { by constructor. }
    { simpl. lia. }
    exists (sub :: rest), tracker2. split; [|split; [|split]].
    + simpl. unfold bind at 1. rewrite Hrun. unfold bind at 1. rewrite Hrest. reflexivity.
    + simpl. by rewrite Hl.
    + simpl. apply NoDup_app in Hnd2 as (Hr & Hdisj & Hsu).
      apply NoDup_cons in Hsu as [_ Hu].
      constructor.
      * rewrite elem_of_app. intros [Hr'|Hu']; [|done].
        apply (Hdisj sub Hr'). by left.
      * apply NoDup_app. split; [done|]. split; [|done].
        intros x Hx Hxu. apply (Hdisj x Hx). by right.
    + intros x [->|Hx]%elem_of_cons; [done | by apply Hsub].
Qed.

(** C4: on a fresh [SubredditStrategy], when the subreddit list has at least
    [totalPosts] distinct names, the calls of [selectSubreddit] for post
    indices 0 to [totalPosts - 1] all return, and the subreddits they return
    are pairwise distinct members of the list. *)
Theorem selectSubreddit_no_repeat (subs : list string) (totalPosts k : nat) :
  (totalPosts ≤ length (remove_dups subs))%nat →
  ∃ results tracker',
    selectSubreddits subs totalPosts 0 totalPosts SubredditStrategy_new k
      = Ok (results, tracker', k)
    ∧ length results = totalPosts
    ∧ NoDup results
    ∧ ∀ sub, sub ∈ results → sub ∈ subs.
Proof.
  intros Hlen.
  destruct (selectSubreddits_distinct subs totalPosts totalPosts 0 [] SubredditStrategy_new k)
    as (results & tracker' & Hrun & Hl & Hnd & Hsub).
  - intros sub. simpl. apply not_elem_of_nil.
  - constructor.
  - simpl. lia.
  - exists results, tracker'. rewrite app_nil_r in Hnd. done.
Qed.

(** ** Keyword rotation *)

Lemma initKeywordTracker_keeps availableKeywords : ∀ tracker id,
  is_Some (tracker !! id) →
  is_Some (initKeywordTracker tracker availableKeywords !! id).
Proof.
  unfold initKeywordTracker.
  induction availableKeywords as [|kw l IH]; intros tracker id Hid; cbn [foldl]; [done|].
  apply IH. destruct (tracker !! keyword_id kw) eqn:Hkw; [done|].
  destruct (decide (keyword_id kw = id)) as [->|Hne].
  - rewrite lookup_insert_eq. by eexists.
  - by rewrite lookup_insert_ne.
Qed.

Lemma initKeywordTracker_tracks availableKeywords : ∀ tracker kw,
  kw ∈ availableKeywords →
  is_Some (initKeywordTracker tracker availableKeywords !! keyword_id kw).
Proof.
  unfold initKeywordTracker.
  induction availableKeywords as [|kw0 l IH]; intros tracker kw Hin; cbn [foldl].
  - by apply elem_of_nil in Hin.
  - apply elem_of_cons in Hin as [->|Hin]; [|by apply IH].
    apply (initKeywordTracker_keeps l).
    destruct (tracker !! keyword_id kw0) eqn:Hkw; [by rewrite Hkw|].
    rewrite lookup_insert_eq. by eexists.
Qed.

Lemma withKeywordUsage_ok tracker availableKeywords (st : KeywordStrategy) k :
  (∀ kw, kw ∈ availableKeywords → is_Some (tracker !! keyword_id kw)) →
  ∃ ranked,
    withKeywordUsage tracker availableKeywords st k = Ok (ranked, st, k)
    ∧ ranked.*1 = availableKeywords.
Proof.
  induction availableKeywords as [|kw l IH]; intros Htracked.
  - by exists [].
  - destruct (Htracked kw) as [usage Husage]; [by left|].
    destruct IH as (ranked & Hrun & Hfst); [intros; apply Htracked; by right|].
    exists ((kw, usage) :: ranked). split; [|by rewrite fmap_cons, Hfst].
    cbn [withKeywordUsage]. rewrite Husage. cbn [defined].
    unfold bind at 1. unfold ret at 1.
    rewrite (bind_Ok _ _ _ _ _ _ _ Hrun). reflexivity.
Qed.

Lemma keepsTracked_refl st : keepsTracked st st.
Proof. by split. Qed.

Lemma keepsTracked_trans st1 st2 st3 :
  keepsTracked st1 st2 → keepsTracked st2 st3 → keepsTracked st1 st3.
Proof. intros [E1 T1] [E2 T2]. split; [congruence | auto]. Qed.

Lemma markKeywordUsed_ok id postIndex st k :
  is_Some (kw_usageTracker st !! id) →
  ∃ st', markKeywordUsed id postIndex st k = Ok (tt, st', k) ∧ keepsTracked st st'.
Proof.
  intros [usage Husage]. eexists. split.
  - unfold markKeywordUsed, bind, getState, putState. rewrite Husage. reflexivity.
  - split; [done|]. intros id' Hid'. cbn [kw_usageTracker].
    destruct (decide (id = id')) as [->|Hne].
    + rewrite lookup_insert_eq. by eexists.
    + by rewrite lookup_insert_ne.
Qed.

Lemma selectUnseenCombination_spec keywordCount postIndex sortedKeywords :
  ∀ selectedKeywords st k,
  (∀ kw, kw ∈ sortedKeywords → is_Some (kw_usageTracker st !! keyword_id kw)) →
  ∃ picked st',
    selectUnseenCombination keywordCount postIndex sortedKeywords selectedKeywords st k
      = Ok (selectedKeywords ++ picked, st', k)
    ∧ picked `sublist_of` sortedKeywords
    ∧ (length (selectedKeywords ++ picked) ≤ max (length selectedKeywords) keywordCount)%nat
    ∧ keepsTracked st st'.
Proof.
  induction sortedKeywords as [|keyword rest IH]; intros selected st k Htracked.
  - exists [], st. rewrite app_nil_r. repeat split; [done|lia|done..].
  - cbn [selectUnseenCombination].
    destruct (Nat.leb keywordCount (length selected)) eqn:Hfull.
    { exists [], st. rewrite app_nil_r.
      split; [done|]. split; [apply sublist_nil_l|]. split; [lia|apply keepsTracked_refl]. }
    apply Nat.leb_gt in Hfull.
    unfold bind at 1, getState at 1.
    destruct (_ || _).
    + destruct (markKeywordUsed_ok (keyword_id keyword) postIndex st k)
        as (st1 & Hmark & Hkeep1); [apply Htracked; by left|].
      rewrite (bind_Ok _ _ _ _ _ _ _ Hmark).
      destruct (IH (selected ++ [keyword]) st1 k) as (picked & st2 & Hrun & Hsub & Hlen & Hkeep2).
      { intros kw Hkw. apply Hkeep1, Htracked. by right. }
      exists (keyword :: picked), st2. rewrite Hrun.
      split; [by rewrite <- app_assoc|]. split; [by apply sublist_skip|].
      split; [|by eapply keepsTracked_trans].
      rewrite <- app_assoc in Hlen. cbn [app] in Hlen.
      repeat rewrite length_app in Hlen. repeat rewrite length_app. cbn [length] in *. lia.
    + destruct (IH selected st k) as (picked & st2 & Hrun & Hsub & Hlen & Hkeep2).
      { intros kw Hkw. apply Htracked. by right. }
      exists picked, st2. rewrite Hrun.
      split; [done|]. split; [by apply sublist_cons|]. done.
Qed.

Lemma fillLeastUsed_spec keywordCount postIndex sortedKeywords :
  ∀ selectedKeywords st k,
  (∀ kw, kw ∈ sortedKeywords → is_Some (kw_usageTracker st !! keyword_id kw)) →
  ∃ added st',
    fillLeastUsed keywordCount postIndex sortedKeywords selectedKeywords st k
      = Ok (selectedKeywords ++ added, st', k)
    ∧ added `sublist_of` sortedKeywords
    ∧ (∀ kw, kw ∈ added → keyword_id kw ∉ keyword_id <$> selectedKeywords)
    ∧ (length (selectedKeywords ++ added) ≤ max (length selectedKeywords) keywordCount)%nat
    ∧ ((keywordCount ≤ length (selectedKeywords ++ added))%nat
       ∨ ∀ kw, kw ∈ sortedKeywords →
           keyword_id kw ∈ keyword_id <$> (selectedKeywords ++ added))
    ∧ keepsTracked st st'.
Proof.
  induction sortedKeywords as [|keyword rest IH]; intros selected st k Htracked.
  - exists [], st. rewrite app_nil_r.
    split; [done|]. split; [done|]. split; [by intros kw ?%elem_of_nil|].
    split; [lia|]. split; [|apply keepsTracked_refl].
    right. by intros kw ?%elem_of_nil.
  - cbn [fillLeastUsed].
    destruct (Nat.leb keywordCount (length selected)) eqn:Hfull.
    { apply Nat.leb_le in Hfull. exists [], st. rewrite app_nil_r.
      split; [done|]. split; [apply sublist_nil_l|].
      split; [by intros kw ?%elem_of_nil|]. split; [lia|].
      split; [by left | apply keepsTracked_refl]. }
    apply Nat.leb_gt in Hfull.
    destruct (existsb _ selected) eqn:Hfound; cbn [negb].
    + destruct (IH selected st k) as (added & st2 & Hrun & Hsub & Hnew & Hlen & Hall & Hkeep).
      { intros kw Hkw. apply Htracked. by right. }
      exists added, st2. rewrite Hrun.
      split; [done|]. split; [by apply sublist_cons|]. split; [done|]. split; [done|].
      split; [|done].
      destruct Hall as [Hall|Hall]; [by left|]. right.
      intros kw [->|Hkw]%elem_of_cons; [|by apply Hall].
      apply existsb_exists in Hfound as (other & Hin & Heq).
      apply bool_decide_eq_true in Heq. rewrite <- Heq.
      apply list_elem_of_fmap_2, elem_of_app. left. by apply list_elem_of_In.
    + destruct (markKeywordUsed_ok (keyword_id keyword) postIndex st k)
        as (st1 & Hmark & Hkeep1); [apply Htracked; by left|].
      rewrite (bind_Ok _ _ _ _ _ _ _ Hmark).
      destruct (IH (selected ++ [keyword]) st1 k)
        as (added & st2 & Hrun & Hsub & Hnew & Hlen & Hall & Hkeep2).
      { intros kw Hkw. apply Hkeep1, Htracked. by right. }
      exists (keyword :: added), st2. rewrite Hrun.
      replace (selected ++ keyword :: added) with ((selected ++ [keyword]) ++ added)
        by (by rewrite <- app_assoc).
      split; [done|]. split; [by apply sublist_skip|].
      split; [|split; [|split; [|by eapply keepsTracked_trans]]].
      * intros kw [->|Hkw]%elem_of_cons.
        -- intros (other & Heq & Hin)%list_elem_of_fmap.
           apply not_true_iff_false in Hfound. apply Hfound.
           apply existsb_exists. exists other. split; [by apply list_elem_of_In|].
           by apply bool_decide_eq_true.
        -- intros Hin. apply (Hnew kw Hkw). rewrite fmap_app. apply elem_of_app. by left.
      * repeat rewrite length_app in Hlen. repeat rewrite length_app. cbn [length] in *. lia.
      * destruct Hall as [Hall|Hall]; [by left|]. right.
        intros kw [->|Hkw]%elem_of_cons; [|by apply Hall].
        apply list_elem_of_fmap_2, elem_of_app. left. apply elem_of_app. right. by left.
Qed.

(** C8: given at least three keywords with pairwise distinct ids,
    [selectKeywordsForPost] returns, whatever the tracker state and the
    draw, a list of exactly 2 or 3 keywords with pairwise distinct ids,
    each of them an element of the supplied list. *)
Theorem selectKeywordsForPost_two_or_three availableKeywords postIndex subreddit st k :
  (3 ≤ length availableKeywords)%nat →
  NoDup (keyword_id <$> availableKeywords) →
  ∃ selected st',
    selectKeywordsForPost availableKeywords postIndex subreddit st k
      = Ok (selected, st', S k)
    ∧ (length selected = 2%nat ∨ length selected = 3%nat)
    ∧ NoDup (keyword_id <$> selected)
    ∧ ∀ kw, kw ∈ selected → kw ∈ availableKeywords.
Proof.
  intros Hthree Hnodup.
  set (tracker := initKeywordTracker (kw_usageTracker st) availableKeywords).
  set (st0 := {| kw_usageTracker := tracker; keywordCombinations := keywordCombinations st |}).
  set (keywordCount := if Qltb (random k) double_0_6 then 2%nat else 3%nat).
  assert (Hcount : keywordCount = 2%nat ∨ keywordCount = 3%nat)
    by (unfold keywordCount; case_match; auto).
  destruct (withKeywordUsage_ok tracker availableKeywords st0 (S k))
    as (ranked & Hranked & Hfst); [apply initKeywordTracker_tracks|].
  set (sortedKeywords := (sortBy compareKeywordUsage ranked).*1).
  assert (Hperm : sortedKeywords ≡ₚ availableKeywords).
  { unfold sortedKeywords. by rewrite sortBy_Permutation, Hfst. }
  assert (Hsorted_nd : NoDup (keyword_id <$> sortedKeywords)) by (by rewrite Hperm).
  assert (Htracked : ∀ kw, kw ∈ sortedKeywords →
            is_Some (kw_usageTracker st0 !! keyword_id kw)).
  { intros kw Hkw. rewrite Hperm in Hkw. by apply initKeywordTracker_tracks. }
  destruct (selectUnseenCombination_spec keywordCount postIndex sortedKeywords [] st0 (S k) Htracked)
    as (picked & st1 & Hloop1 & Hsub1 & Hlen1 & Hkeep1).
  cbn [app length] in Hloop1, Hlen1.
  assert (Hpicked_nd : NoDup (keyword_id <$> picked)).
  { apply (sublist_NoDup _ (keyword_id <$> sortedKeywords)); [exact Hsorted_nd | by apply fmap_sublist]. }
  assert (Hfill : ∃ selected st2,
    (if Nat.ltb (length picked) keywordCount
     then fillLeastUsed keywordCount postIndex sortedKeywords picked
     else ret picked) st1 (S k) = Ok (selected, st2, S k)
    ∧ length selected = keywordCount
    ∧ NoDup (keyword_id <$> selected)
    ∧ ∀ kw, kw ∈ selected → kw ∈ sortedKeywords).
  { destruct (Nat.ltb (length picked) keywordCount) eqn:Hshort.
    - apply Nat.ltb_lt in Hshort.
      destruct (fillLeastUsed_spec keywordCount postIndex sortedKeywords picked st1 (S k))
        as (added & st2 & Hrun & Hsub2 & Hnew & Hlen2 & Hall & _).
      { intros kw Hkw. apply Hkeep1, Htracked, Hkw. }
      assert (Hnd : NoDup (keyword_id <$> (picked ++ added))).
      { rewrite fmap_app. apply NoDup_app. split; [done|]. split.
        - intros id Hid (kw & -> & Hkw)%list_elem_of_fmap. by apply (Hnew kw Hkw).
        - apply (sublist_NoDup _ (keyword_id <$> sortedKeywords)); [exact Hsorted_nd | by apply fmap_sublist]. }
      exists (picked ++ added), st2. split; [done|]. split; [|split; [done|]].
      + destruct Hall as [Hall|Hall]; [lia|].
        assert ((keyword_id <$> sortedKeywords) ⊆+ (keyword_id <$> (picked ++ added))) as Hincl.
        { apply NoDup_submseteq; [done|].
          intros id (kw & -> & Hkw)%list_elem_of_fmap. by apply Hall. }
        apply submseteq_length in Hincl. rewrite !length_fmap in Hincl.
        apply Permutation_length in Hperm. lia.
      + intros kw [Hkw|Hkw]%elem_of_app;
          [exact (sublist_subseteq _ _ Hsub1 kw Hkw) | exact (sublist_subseteq _ _ Hsub2 kw Hkw)].
    - apply Nat.ltb_ge in Hshort. exists picked, st1.
      split; [done|]. split; [lia|]. split; [done|].
      intros kw Hkw. exact (sublist_subseteq _ _ Hsub1 kw Hkw). }
  destruct Hfill as (selected & st2 & Hrun2 & Hlen & Hnd & Hfrom).
  exists selected. eexists. split; [|split; [lia|split; [done|]]].
  - unfold selectKeywordsForPost.
    unfold bind at 1, getState at 1. unfold bind at 1, putState at 1.
    unfold bind at 1, Math_random at 1.
    fold tracker. fold st0. fold keywordCount.
    rewrite (bind_Ok _ _ _ _ _ _ _ Hranked). fold sortedKeywords.
    rewrite (bind_Ok _ _ _ _ _ _ _ Hloop1).
    rewrite (bind_Ok _ _ _ _ _ _ _ Hrun2).
    reflexivity.
  - intros kw Hkw. rewrite <- Hperm. by apply Hfrom.
Qed.

(** ** Persona rotation *)

Lemma withPersonaUsage_inv tracker personas st k ranked st' k' :
  withPersonaUsage tracker personas st k = Ok (ranked, st', k') →
  ranked.*1 = personas.
Proof.
  revert ranked st k st' k'.
  induction personas as [|p l IH]; intros ranked st k st' k'; cbn [withPersonaUsage].
  - unfold ret. by intros [= <- _ _].
  - intros (usage & s1 & k1 & Hu & H)%bind_Ok_inv.
    apply bind_Ok_inv in H as (others & s2 & k2 & Ho & H).
    unfold ret in H. injection H as <- _ _.
    destruct (tracker !! username p); [|done]. unfold defined, ret in Hu.
    simplify_eq. rewrite fmap_cons. f_equal. by eapply IH.
Qed.

Lemma withPersonaUsage_ok tracker personas (st : gmap string PersonaUsageTracker) k :
  (∀ p, p ∈ personas → is_Some (tracker !! username p)) →
  ∃ ranked, withPersonaUsage tracker personas st k = Ok (ranked, st, k).
Proof.
  induction personas as [|p l IH]; intros Htracked.
  - by exists [].
  - destruct (Htracked p) as [usage Husage]; [by left|].
    destruct IH as (ranked & Hrun); [intros; apply Htracked; by right|].
    exists ((p, usage) :: ranked).
    cbn [withPersonaUsage]. rewrite Husage. cbn [defined].
    unfold bind at 1. unfold ret at 1.
    rewrite (bind_Ok _ _ _ _ _ _ _ Hrun). reflexivity.
Qed.

Lemma markCommenters_ok selectedPersonas postIndex : ∀ (tracker : gmap string PersonaUsageTracker) k,
  (∀ p, p ∈ selectedPersonas → is_Some (tracker !! username p)) →
  ∃ tracker',
    markCommenters selectedPersonas postIndex tracker k = Ok (tt, tracker', k)
    ∧ ∀ id, is_Some (tracker !! id) → is_Some (tracker' !! id).
Proof.
  induction selectedPersonas as [|p l IH]; intros tracker k Htracked.
  - by exists tracker.
  - destruct (Htracked p) as [usage Husage]; [by left|].
    set (tracker1 := <[username p := {| pu_username := pu_username usage;
                                postCount := postCount usage;
                                commentCount := commentCount usage + 1;
                                lastUsedIndex := Z.of_nat postIndex |}]> tracker).
    assert (Hkeep : ∀ id, is_Some (tracker !! id) → is_Some (tracker1 !! id)).
    { intros id Hid. unfold tracker1. destruct (decide (username p = id)) as [->|Hne].
      - rewrite lookup_insert_eq. by eexists.
      - by rewrite lookup_insert_ne. }
    destruct (IH tracker1 k) as (tracker2 & Hrun & Hkeep2).
    { intros q Hq. apply Hkeep, Htracked. by right. }
    exists tracker2. split; [|auto].
    cbn [markCommenters]. unfold bind at 1, getState at 1.
    rewrite Husage. cbn [defined]. unfold bind at 1, ret at 1.
    unfold bind at 1, putState at 1. exact Hrun.
Qed.

Lemma withPersonaUsage_state tracker personas st k ranked st' k' :
  withPersonaUsage tracker personas st k = Ok (ranked, st', k') → st' = st ∧ k' = k.
Proof.
  revert ranked st k st' k'.
  induction personas as [|p l IH]; intros ranked st k st' k'; cbn [withPersonaUsage].
  - unfold ret. by intros [= _ <- <-].
  - intros (usage & s1 & k1 & Hu & H)%bind_Ok_inv.
    apply bind_Ok_inv in H as (others & s2 & k2 & Ho & H).
    unfold ret in H. injection H as _ <- <-.
    destruct (tracker !! username p); [|done]. unfold defined, ret in Hu.
    injection Hu as _ <- <-. by eapply IH.
Qed.

Lemma markCommenters_draws selectedPersonas postIndex :
  ∀ (tracker : gmap string PersonaUsageTracker) k u tracker' k',
  markCommenters selectedPersonas postIndex tracker k = Ok (u, tracker', k') → k' = k.
Proof.
  induction selectedPersonas as [|p l IH]; intros tracker k u tracker' k';
    cbn [markCommenters].
  - unfold ret. by intros [= _ _ <-].
  - unfold bind at 1, getState at 1.
    destruct (tracker !! username p) as [usage|]; [|done].
    cbn [defined]. unfold bind at 1, ret at 1. unfold bind at 1, putState at 1.
    apply IH.
Qed.

Lemma selectCommentAuthors_count (r : Q) (available : nat) :
  (0 <= r)%Q → (r < 1)%Q → (0 < available)%nat →
  (1 ≤ Nat.min (Z.to_nat (2 + floorTimes r 3)) available ≤ 4)%nat.
Proof.
  intros Hlo Hhi Hav.
  pose proof (floorTimes_range r 3 Hlo Hhi ltac:(lia)). lia.
Qed.

(** C2 (as amended): [selectCommentAuthors] returns between 1 and 5
    personas. When no persona other than the post author is available it
    returns the author alone. Otherwise it returns personas of the list
    other than the author, as many as are available up to a number from 2
    to 4, followed by the post author exactly when the second draw is below
    0.7: only then are there five. It returns whenever the personas and the
    post author have entries in the usage tracker, as they do after
    [selectPostAuthor]. *)
Theorem selectCommentAuthors_one_to_five personas postAuthor postIndex
    (tracker : gmap string PersonaUsageTracker) k :
  (0 <= random k)%Q → (random k < 1)%Q →
  let available := filter (λ p, username p ≠ username postAuthor) personas in
  (∀ selected tracker' k',
     selectCommentAuthors personas postAuthor postIndex tracker k
       = Ok (selected, tracker', k') →
     (1 ≤ length selected ≤ 5)%nat
     ∧ (available = [] → selected = [postAuthor])
     ∧ (available ≠ [] →
        ∃ commenters n,
          selected = commenters
                     ++ (if Qltb (random (S k)) double_0_7 then [postAuthor] else [])
          ∧ (2 ≤ n ≤ 4)%nat
          ∧ length commenters = Nat.min n (length available)
          ∧ ∀ p, p ∈ commenters →
              p ∈ personas ∧ username p ≠ username postAuthor))
  ∧ ((∀ p, p ∈ personas → is_Some (tracker !! username p)) →
     is_Some (tracker !! username postAuthor) →
     ∃ selected tracker' k',
       selectCommentAuthors personas postAuthor postIndex tracker k
         = Ok (selected, tracker', k')).
Proof.
  intros Hlo Hhi available. unfold selectCommentAuthors. fold available.
  destruct (Nat.eqb (length available) 0) eqn:Hempty.
  { split.
    - unfold ret. intros selected tracker' k' [= <- _ _].
      split; [simpl; lia|]. split; [done|].
      intros Hne. apply Nat.eqb_eq in Hempty. by destruct available.
    - intros _ _. by eexists _, _, _. }
  apply Nat.eqb_neq in Hempty.
  pose proof (selectCommentAuthors_count (random k) (length available) Hlo Hhi ltac:(lia))
    as Hcount.
  pose proof (floorTimes_range (random k) 3 Hlo Hhi ltac:(lia)) as Hfloor.
  remember (Nat.min (Z.to_nat (2 + floorTimes (random k) 3)) (length available))
    as commenterCount eqn:Hcc.
  split.
  - intros selected tracker' k' Hrun.
    unfold bind at 1, Math_random at 1 in Hrun. rewrite <- Hcc in Hrun.
    unfold bind at 1, getState at 1 in Hrun.
    apply bind_Ok_inv in Hrun as (ranked & s1 & k1 & Hranked & Hrun).
    pose proof (withPersonaUsage_state _ _ _ _ _ _ _ Hranked) as [-> ->].
    apply withPersonaUsage_inv in Hranked.
    set (commenters := (take commenterCount (sortBy compareCommentUsage ranked)).*1) in *.
    assert (Hlen : length commenters = commenterCount).
    { unfold commenters. rewrite length_fmap, length_take, length_sortBy.
      rewrite <- (length_fmap fst ranked), Hranked. lia. }
    assert (Hfrom : ∀ p, p ∈ commenters →
              p ∈ personas ∧ username p ≠ username postAuthor).
    { intros p Hp.
      assert (p ∈ available) as [? ?]%list_elem_of_filter; [|done].
      rewrite <- Hranked, <- (sortBy_Permutation compareCommentUsage ranked).
      revert Hp. apply sublist_subseteq, fmap_sublist, sublist_take. }
    apply bind_Ok_inv in Hrun as (u & s2 & k2 & Hmark & Hrun).
    apply markCommenters_draws in Hmark as ->.
    unfold bind at 1, Math_random at 1 in Hrun.
    assert (Nat.ltb 0 (length commenters) = true) as Hpos
      by (apply Nat.ltb_lt; lia).
    rewrite Hpos, andb_true_r in Hrun.
    assert (Hshape : selected
              = commenters
                ++ (if Qltb (random (S k)) double_0_7 then [postAuthor] else [])).
    { destruct (Qltb (random (S k)) double_0_7).
      - unfold bind at 1, getState at 1 in Hrun.
        apply bind_Ok_inv in Hrun as (usage & s3 & k3 & _ & Hrun).
        unfold bind, putState, ret in Hrun. by injection Hrun as <- _ _.
      - unfold ret in Hrun. injection Hrun as <- _ _. by rewrite app_nil_r. }
    split.
    { rewrite Hshape, length_app, Hlen. destruct (Qltb _ _); cbn [length]; lia. }
    split; [intros Hnil; by rewrite Hnil in Hempty|].
    intros _. exists commenters, (Z.to_nat (2 + floorTimes (random k) 3)).
    split; [done|]. split; [lia|]. split; [by rewrite Hlen, Hcc | done].
  - intros Htracked Hauthor.
    unfold bind at 1, Math_random at 1. rewrite <- Hcc.
    unfold bind at 1, getState at 1.
    destruct (withPersonaUsage_ok tracker available tracker (S k)) as (ranked & Hranked).
    { intros p [_ Hp]%list_elem_of_filter. by apply Htracked. }
    rewrite (bind_Ok _ _ _ _ _ _ _ Hranked).
    pose proof (withPersonaUsage_inv _ _ _ _ _ _ _ Hranked) as Hfst.
    set (selectedPersonas := (take commenterCount (sortBy compareCommentUsage ranked)).*1).
    destruct (markCommenters_ok selectedPersonas postIndex tracker (S k))
      as (tracker1 & Hmark & Hkeep).
    { intros p Hp. apply Htracked.
      assert (p ∈ available) as [_ ?]%list_elem_of_filter; [|done].
      rewrite <- Hfst. unfold selectedPersonas in Hp.
      apply list_elem_of_fmap in Hp as ([q u] & -> & Hq).
      apply list_elem_of_fmap. exists (q, u). split; [done|].
      rewrite <- (sortBy_Permutation compareCommentUsage ranked).
      eapply sublist_subseteq; [apply sublist_take | exact Hq]. }
    rewrite (bind_Ok _ _ _ _ _ _ _ Hmark).
    unfold bind at 1, Math_random at 1.
    destruct (_ && _).
    + unfold bind at 1, getState at 1.
      destruct (Hkeep _ Hauthor) as [usage Husage]. rewrite Husage.
      by eexists _, _, _.
    + by eexists _, _, _.
Qed.

(** ** The content generator *)

Lemma comment_id_inj (m n : nat) : "C" +:+ pretty m = "C" +:+ pretty n → m = n.
Proof. intros [= H]. by apply (inj pretty). Qed.

Lemma fixTimestampIssues_ids posts comments :
  comment_id <$> (fixTimestampIssues posts comments).2 = comment_id <$> comments
  ∧ parent_comment_id <$> (fixTimestampIssues posts comments).2
    = parent_comment_id <$> comments.
Proof.
  unfold fixTimestampIssues. cbn [snd].
  set (posts' := _ <$> posts). clearbody posts'.
  induction comments as [|c l [IH1 IH2]]; [done|].
  rewrite !fmap_cons, IH1, IH2.
  split; f_equal; repeat case_match; done.
Qed.

Lemma createCommentPlan_parent i persona postAuthor s k plan s' k' :
  createCommentPlan i persona postAuthor s k = Ok (plan, s', k') →
  (position plan = Reply ↔ parentCommentId plan = Some "C1")
  ∧ (parentCommentId plan = None ∨ parentCommentId plan = Some "C1" ∧ (1 ≤ i)%nat).
Proof.
  unfold createCommentPlan.
  intros ([[pos parent] mention] & s1 & k1 & Hpick & Hret)%bind_Ok_inv.
  unfold ret in Hret. injection Hret as <- _ _. cbn [position parentCommentId].
  destruct (Nat.eqb i 0) eqn:Hi.
  - unfold bind, Math_random, ret in Hpick. injection Hpick as <- <- _ _ _.
    split; [done | by left].
  - apply Nat.eqb_neq in Hi.
    apply bind_Ok_inv in Hpick as (second & s2 & k2 & _ & Hpick).
    destruct second.
    + unfold bind, Math_random, ret in Hpick. injection Hpick as <- <- _ _ _.
      split; [done | right; split; [done | lia]].
    + case_bool_decide.
      * unfold ret in Hpick. injection Hpick as <- <- _ _ _.
        split; [done | right; split; [done | lia]].
      * unfold bind, Math_random, ret in Hpick. injection Hpick as <- <- _ _ _.
        split; [done | by left].
Qed.

Lemma wellThreaded_snoc ids parents (p : option string) :
  wellThreaded ids parents →
  p = None ∨ p = Some "C1" ∧ (1 ≤ length ids)%nat →
  wellThreaded (ids ++ ["C" +:+ pretty (S (length ids))]) (parents ++ [p]).
Proof.
  intros (Hids & Hlen & Hpar) Hp. split; [|split].
  - rewrite length_app. cbn [length]. rewrite Nat.add_1_r, seq_S, fmap_app.
    rewrite <- Hids. done.
  - rewrite !length_app. cbn [length]. lia.
  - intros i q Hq. apply lookup_app_Some in Hq as [Hq|[Hge Hq]]; [by apply Hpar|].
    apply list_lookup_singleton_Some in Hq as [Hi ->].
    destruct Hp as [|[[= ->] Hpos]]; [done|]. split; [done | lia].
Qed.

Lemma wellThreaded_sound ids parents :
  wellThreaded ids parents →
  NoDup ids
  ∧ ∀ i id p, ids !! i = Some id → parents !! i = Some (Some p) → p ≠ id ∧ p ∈ ids.
Proof.
  intros (Hids & Hlen & Hpar). split.
  - rewrite Hids. apply NoDup_fmap_2_strong; [|apply NoDup_seq].
    intros m n _ _. apply comment_id_inj.
  - intros i id p Hid Hp. destruct (Hpar i p Hp) as [-> Hpos].
    rewrite Hids in Hid. apply list_lookup_fmap_Some in Hid as (n & -> & Hn).
    apply lookup_seq in Hn as [-> Hlt]. split.
    + change "C1" with ("C" +:+ pretty 1%nat). intros Heq%comment_id_inj. lia.
    + rewrite Hids. apply list_elem_of_fmap. exists 1%nat. split; [done|].
      apply elem_of_seq. lia.
Qed.

Lemma createCommentPlansFrom_parents postAuthor personas :
  ∀ i s k plans s' k',
  createCommentPlansFrom i personas postAuthor s k = Ok (plans, s', k') →
  ∀ j plan, plans !! j = Some plan →
    parentCommentId plan = None
    ∨ parentCommentId plan = Some "C1" ∧ (1 ≤ i + j)%nat.
Proof.
  induction personas as [|persona rest IH]; intros i s k plans s' k';
    cbn [createCommentPlansFrom].
  - unfold ret. intros [= <- _ _] j plan Hj. by rewrite lookup_nil in Hj.
  - intros (plan0 & s1 & k1 & Hplan & Hrest)%bind_Ok_inv.
    apply bind_Ok_inv in Hrest as (plans0 & s2 & k2 & Hrest & Hret).
    unfold ret in Hret. injection Hret as <- _ _.
    intros [|j] plan Hj.
    + injection Hj as <-.
      destruct (createCommentPlan_parent _ _ _ _ _ _ _ _ Hplan) as [_ [?|[? ?]]];
        [by left | right; split; [done | lia]].
    + cbn [lookup list_lookup] in Hj.
      destruct (IH _ _ _ _ _ _ Hrest j plan Hj) as [?|[? ?]];
        [by left | right; split; [done | lia]].
Qed.

Lemma generateThread_shape post input commentPlans :
  ∀ allComments commentIdCounter s k allComments' commentIdCounter' s' k',
  threadShape allComments commentIdCounter →
  (∀ j plan, commentPlans !! j = Some plan →
     parentCommentId plan = None
     ∨ parentCommentId plan = Some "C1" ∧ (1 ≤ length allComments + j)%nat) →
  generateThread post input commentPlans allComments commentIdCounter s k
    = Ok ((allComments', commentIdCounter'), s', k') →
  threadShape allComments' commentIdCounter'.
Proof.
  induction commentPlans as [|commentPlan rest IH];
    intros all counter s k all' counter' s' k' [Hcounter Hshape] Hplans;
    cbn [generateThread].
  - unfold ret. by intros [= <- <- _ _].
  - intros (result & s1 & k1 & _ & Hrun)%bind_Ok_inv.
    apply bind_Ok_inv in Hrun as (commentTimestamp & s2 & k2 & _ & Hrun).
    eapply IH; [| |exact Hrun].
    + split; [rewrite length_app; cbn [length]; lia|].
      rewrite !fmap_app. cbn [fmap list_fmap comment_id parent_comment_id].
      rewrite Hcounter, <- (length_fmap comment_id all) at 1.
      apply wellThreaded_snoc; [done|].
      rewrite length_fmap.
      destruct (Hplans 0%nat commentPlan eq_refl) as [?|[? ?]];
        [by left | right; split; [done | lia]].
    + intros j plan Hj. rewrite length_app. cbn [length].
      destruct (Hplans (S j) plan Hj) as [?|[? ?]];
        [by left | right; split; [done | lia]].
Qed.

Lemma generateCommentsFrom_shape postPlans input posts :
  ∀ i allComments commentIdCounter s k result s' k',
  threadShape allComments commentIdCounter →
  generateCommentsFrom posts postPlans input i allComments commentIdCounter s k
    = Ok (result, s', k') →
  wellThreaded (comment_id <$> result) (parent_comment_id <$> result).
Proof.
  induction posts as [|post rest IH];
    intros i all counter s k result s' k' Hshape; cbn [generateCommentsFrom].
  - unfold ret. intros [= <- _ _]. apply Hshape.
  - intros (plan & s1 & k1 & _ & Hrun)%bind_Ok_inv.
    apply bind_Ok_inv in Hrun as (r & s2 & k2 & _ & Hrun).
    apply bind_Ok_inv in Hrun as (commentingPersonas & s3 & k3 & _ & Hrun).
    apply bind_Ok_inv in Hrun as (commentPlans & s4 & k4 & Hplans & Hrun).
    apply bind_Ok_inv in Hrun as ([all' counter'] & s5 & k5 & Hthread & Hrun).
    eapply IH; [|exact Hrun].
    eapply generateThread_shape; [exact Hshape| |exact Hthread].
    intros j cp Hj. unfold createCommentPlans in Hplans.
    destruct (createCommentPlansFrom_parents _ _ _ _ _ _ _ _ Hplans j cp Hj) as [?|[? ?]];
      [by left | right; split; [done | lia]].
Qed.

(** C3: in every calendar that [generate] returns, the comment ids are
    pairwise distinct, and every comment with a parent id is distinct from
    its parent, which is a comment of the same calendar. (No condition on the
    number of personas or posts is needed.) *)
Theorem generate_comment_threads input (s : ContentGenerator) k calendar s' k' :
  generate input s k = Ok (calendar, s', k') →
  NoDup (comment_id <$> comments calendar)
  ∧ ∀ c parent, c ∈ comments calendar → parent_comment_id c = Some parent →
      parent ≠ comment_id c
      ∧ ∃ c', c' ∈ comments calendar ∧ comment_id c' = parent.
Proof.
  unfold generate.
  intros ([posts0 comments0] & s1 & k1 & Hassemble & Hrun)%bind_Ok_inv.
  pose proof (fixTimestampIssues_ids posts0 comments0) as [Hids Hparents].
  destruct (fixTimestampIssues posts0 comments0) as [posts1 comments1].
  cbn [snd] in Hids, Hparents.
  destruct (negb _); [done|]. unfold ret in Hrun. injection Hrun as <- _ _.
  cbn [comments].
  assert (Hshape : wellThreaded (comment_id <$> comments1)
                                (parent_comment_id <$> comments1)).
  { rewrite Hids, Hparents. unfold assemble in Hassemble.
    apply bind_Ok_inv in Hassemble as (u & s2 & k2 & _ & Hassemble).
    apply bind_Ok_inv in Hassemble as (postPlans & s3 & k3 & _ & Hassemble).
    apply bind_Ok_inv in Hassemble as (posts' & s4 & k4 & _ & Hassemble).
    apply bind_Ok_inv in Hassemble as (comments' & s5 & k5 & Hcomments & Hret).
    unfold ret in Hret. injection Hret as _ <- _ _.
    eapply generateCommentsFrom_shape; [|exact Hcomments].
    split; [done|]. split; [done|]. split; [done|].
    intros i p Hp. by rewrite fmap_nil, lookup_nil in Hp. }
  destruct (wellThreaded_sound _ _ Hshape) as [Hnodup Hparent].
  split; [done|]. intros c parent Hc Hpar.
  apply list_elem_of_lookup in Hc as [i Hi].
  destruct (Hparent i (comment_id c) parent) as [Hne Hin].
  { by rewrite list_lookup_fmap, Hi. }
  { by rewrite list_lookup_fmap, Hi, <- Hpar. }
  split; [done|].
  apply list_elem_of_fmap in Hin as (c' & -> & Hc'). by exists c'.
Qed.

(** C7: [generate] returns no calendar when validation after the auto-fix
    pass reports a blocking error: it throws the list of errors; hence the
    posts and comments of every calendar it returns pass
    [validateContentCalendar] and each of the five checks. *)
Theorem generate_only_valid input (s : ContentGenerator) k :
  (∀ posts0 comments0 s1 k1,
     assemble input s k = Ok ((posts0, comments0), s1, k1) →
     let fixed := fixTimestampIssues posts0 comments0 in
     isValid (validateContentCalendar fixed.1 fixed.2) = false →
     generate input s k
       = Throw (ValidationFailed (errors (validateContentCalendar fixed.1 fixed.2))))
  ∧ (∀ calendar s' k',
       generate input s k = Ok (calendar, s', k') →
       isValid (validateContentCalendar (posts calendar) (comments calendar)) = true
       ∧ isValid (validateNoOverposting (posts calendar)) = true
       ∧ isValid (validateTopicDiversity (posts calendar)) = true
       ∧ isValid (validateTimestamps (posts calendar) (comments calendar)) = true
       ∧ isValid (validatePersonaDistribution (posts calendar) (comments calendar)) = true
       ∧ isValid (validateCommentThreads (comments calendar)) = true).
Proof.
  split.
  - intros posts0 comments0 s1 k1 Hassemble fixed Hinvalid.
    unfold generate. rewrite (bind_Ok _ _ _ _ _ _ _ Hassemble).
    subst fixed. destruct (fixTimestampIssues posts0 comments0) as [posts1 comments1].
    cbn [fst snd] in *. by rewrite Hinvalid.
  - intros calendar s' k'. unfold generate.
    intros ([posts0 comments0] & s1 & k1 & _ & Hrun)%bind_Ok_inv.
    destruct (fixTimestampIssues posts0 comments0) as [posts1 comments1].
    destruct (isValid (validateContentCalendar posts1 comments1)) eqn:Hvalid; [|done].
    cbn [negb] in Hrun. unfold ret in Hrun. injection Hrun as <- _ _.
    cbn [posts comments]. split; [done|].
    unfold validateContentCalendar in Hvalid. cbn [isValid forallb] in Hvalid.
    repeat (apply andb_prop in Hvalid as [? Hvalid]). done.
Qed.

(** ** More on timestamps *)

(** [isValidCommentTime] holds exactly when the comment is at least one
    minute and less than seven days after the post. *)
Lemma isValidCommentTime_iff (postTime commentTime : Z) :
  isValidCommentTime postTime commentTime = true ↔
  (60000 ≤ commentTime - postTime < 604800000)%Z.
Proof.
  unfold isValidCommentTime, getMinutesDifference.
  rewrite andb_true_iff, !Z.ltb_lt.
  change (1000 * 60)%Z with 60000%Z. change (7 * 24 * 60)%Z with 10080%Z.
  split; intros H; Z.to_euclidean_division_equations; lia.
Qed.

Lemma generateFirstCommentTime_eq {St} (postTime : Z) (s : St) (k : nat) :
  generateFirstCommentTime postTime s k
  = Ok ((postTime + (15 + floorTimes (random k) 45) * msPerMinute)%Z, s, S k).
Proof. reflexivity. Qed.

Lemma generateReplyCommentTime_eq {St} (parentTime : Z) (s : St) (k : nat) :
  generateReplyCommentTime parentTime s k
  = Ok ((parentTime + (5 + floorTimes (random k) 25) * msPerMinute)%Z, s, S k).
Proof. reflexivity. Qed.

(** X2: The first comment comes 15 to 59 whole minutes after the post (never 60)
    and passes [isValidCommentTime]. *)
Theorem generateFirstCommentTime_valid {St} (postTime : Z) (s : St) (k : nat) :
  (0 <= random k)%Q → (random k < 1)%Q →
  ∃ d : Z,
    generateFirstCommentTime postTime s k = Ok ((postTime + d * msPerMinute)%Z, s, S k)
    ∧ (15 ≤ d ≤ 59)%Z
    ∧ isValidCommentTime postTime (postTime + d * msPerMinute) = true.
Proof.
  intros Hlo Hhi. exists (15 + floorTimes (random k) 45)%Z.
  pose proof (floorTimes_range (random k) 45 Hlo Hhi ltac:(lia)).
  split; [apply generateFirstCommentTime_eq|]. split; [lia|].
  apply isValidCommentTime_iff. unfold msPerMinute. lia.
Qed.

(** X3: A reply comes 5 to 29 whole minutes after its parent. *)
Theorem generateReplyCommentTime_after_parent {St} (parentTime : Z) (s : St) (k : nat) :
  (0 <= random k)%Q → (random k < 1)%Q →
  ∃ d : Z,
    generateReplyCommentTime parentTime s k
      = Ok ((parentTime + d * msPerMinute)%Z, s, S k)
    ∧ (5 ≤ d ≤ 29)%Z.
Proof.
  intros Hlo Hhi. exists (5 + floorTimes (random k) 25)%Z.
  pose proof (floorTimes_range (random k) 25 Hlo Hhi ltac:(lia)).
  split; [apply generateReplyCommentTime_eq | lia].
Qed.

(** X4: A late comment passes [isValidCommentTime]. *)
Theorem generateLateCommentTime_valid {St} (postTime : Z) (s : St) (k : nat) :
  (0 <= random k)%Q → (random k < 1)%Q →
  (0 <= random (S k))%Q → (random (S k) < 1)%Q →
  ∃ t : Z,
    generateLateCommentTime postTime s k = Ok (t, s, S (S k))
    ∧ isValidCommentTime postTime t = true.
Proof.
  intros Hlo Hhi Hlo' Hhi'. eexists. split; [apply generateLateCommentTime_eq|].
  pose proof (floorTimes_range (random k) 5 Hlo Hhi ltac:(lia)).
  pose proof (floorTimes_range (random (S k)) 60 Hlo' Hhi' ltac:(lia)).
  apply isValidCommentTime_iff. unfold msPerHour, msPerMinute. lia.
Qed.

Lemma startOfWeek_midnight (d : Z) :
  getDay (startOfWeek d) = 1%Z ∧ (localTime (startOfWeek d) `mod` msPerDay = 0)%Z.
Proof.
  unfold startOfWeek, getDay, addDays, localTime, msPerDay.
  split; repeat case_match; Z.to_euclidean_division_equations; lia.
Qed.

(** X5: [startOfWeek] is local midnight of a Monday, at most [d] and less than
    seven days before it; applying it again changes nothing. *)
Theorem startOfWeek_monday (d : Z) :
  getDay (startOfWeek d) = 1%Z
  ∧ getHours (startOfWeek d) = 0%Z
  ∧ getMinutes (startOfWeek d) = 0%Z
  ∧ (localTime (startOfWeek d) `mod` msPerDay = 0)%Z
  ∧ (startOfWeek d ≤ d < startOfWeek d + 7 * msPerDay)%Z
  ∧ startOfWeek (startOfWeek d) = startOfWeek d.
Proof.
  unfold startOfWeek, getDay, getHours, getMinutes, addDays, localTime,
    msPerDay, msPerHour, msPerMinute.
  repeat split; repeat case_match; Z.to_euclidean_division_equations; lia.
Qed.

(** The slot of a post before the weekend draw: the week's Monday plus
    [floor(postIndex * 7 / totalPosts)] days. *)
Lemma generatePostTime_eq {St} (weekStart : Z) (postIndex totalPosts : nat) (s : St) k :
  let slot := addDays (startOfWeek weekStart)
                ((Z.of_nat postIndex * 7) `div` Z.of_nat totalPosts)%Z in
  let moved :=
    if isWeekend slot && Qltb double_0_3 (random k)
    then addDays slot (if (getDay slot =? 0)%Z then 1 else 2)%Z else slot in
  let k1 := if isWeekend slot then S k else k in
  let hour :=
    if Qltb (random k1) (1 # 2) then (14 + floorTimes (random (S k1)) 4)%Z
    else (9 + floorTimes (random (S k1)) 12)%Z in
  let minute := floorTimes (random (S (S k1))) 60 in
  generatePostTime weekStart postIndex totalPosts s k
  = Ok (setMinutes (setHours moved hour) minute, s, S (S (S k1))).
Proof.
  unfold generatePostTime, bind, Math_random, ret. cbv zeta.
  destruct (isWeekend _) eqn:Hw; cbn [andb];
    repeat (match goal with |- context [Qltb ?a ?b] => destruct (Qltb a b) end);
    reflexivity.
Qed.

Lemma setClock_at_midnight (d h m : Z) :
  (localTime d `mod` msPerDay = 0)%Z → (0 ≤ h < 24)%Z → (0 ≤ m < 60)%Z →
  getHours (setMinutes (setHours d h) m) = h
  ∧ getMinutes (setMinutes (setHours d h) m) = m
  ∧ setMinutes (setHours d h) m = (d + h * msPerHour + m * msPerMinute)%Z.
Proof.
  unfold setHours, setMinutes, getHours, getMinutes, localTime,
    msPerDay, msPerHour, msPerMinute.
  intros Hmid Hh Hm. repeat split; Z.to_euclidean_division_equations; lia.
Qed.

(** X6: for a positive [totalPosts], [generatePostTime] returns a time whose
    hour is in [9, 21), on or after the Monday that starts the week; the
    auto-fix adjustment leaves it unchanged. It is on a weekend only when
    its slot is one and the weekend draw is at most 0.3; otherwise a weekend
    slot is moved to a Monday. *)
Theorem generatePostTime_business_hours {St} (weekStart : Z)
    (postIndex totalPosts : nat) (s : St) (k : nat) :
  (∀ j, (0 <= random j)%Q ∧ (random j < 1)%Q) →
  (0 < totalPosts)%nat →
  let slot := addDays (startOfWeek weekStart)
                ((Z.of_nat postIndex * 7) `div` Z.of_nat totalPosts)%Z in
  ∃ t k',
    generatePostTime weekStart postIndex totalPosts s k = Ok (t, s, k')
    ∧ (9 ≤ getHours t < 21)%Z
    ∧ (0 ≤ getMinutes t < 60)%Z
    ∧ adjustToBusinessHours t = t
    ∧ (startOfWeek weekStart ≤ t)%Z
    ∧ (isWeekend t = true →
         isWeekend slot = true ∧ Qltb double_0_3 (random k) = false)
    ∧ (isWeekend slot = true → Qltb double_0_3 (random k) = true → getDay t = 1%Z).
Proof.
  intros Hrange Hposts slot.
  pose proof (generatePostTime_eq weekStart postIndex totalPosts s k) as Heq.
  cbv zeta in Heq. fold slot in Heq.
  set (k1 := if isWeekend slot then S k else k) in *.
  set (hour := if Qltb (random k1) (1 # 2) then _ else _) in *.
  set (minute := floorTimes (random (S (S k1))) 60) in *.
  set (moved := if isWeekend slot && Qltb double_0_3 (random k) then _ else slot) in *.
  assert (Hhour : (9 ≤ hour < 21)%Z).
  { destruct (Hrange (S k1)) as [Hlo Hhi]. unfold hour. case_match.
    - pose proof (floorTimes_range _ 4 Hlo Hhi ltac:(lia)). lia.
    - pose proof (floorTimes_range _ 12 Hlo Hhi ltac:(lia)). lia. }
  assert (Hminute : (0 ≤ minute < 60)%Z).
  { destruct (Hrange (S (S k1))) as [Hlo Hhi].
    apply (floorTimes_range _ 60 Hlo Hhi). lia. }
  destruct (startOfWeek_midnight weekStart) as [HMon Hmid0].
  assert (Hdiv : (0 ≤ (Z.of_nat postIndex * 7) `div` Z.of_nat totalPosts)%Z).
  { apply Z.div_pos; lia. }
  assert (Hslot : (localTime slot `mod` msPerDay = 0)%Z
                  ∧ (startOfWeek weekStart ≤ slot)%Z).
  { unfold slot, addDays, localTime, msPerDay in *.
    split; [Z.to_euclidean_division_equations; lia | lia]. }
  assert (Hmoved : (localTime moved `mod` msPerDay = 0)%Z ∧ (slot ≤ moved)%Z
                   ∧ (isWeekend moved = true →
                        isWeekend slot = true ∧ Qltb double_0_3 (random k) = false)
                   ∧ (isWeekend slot = true → Qltb double_0_3 (random k) = true →
                        getDay moved = 1%Z)).
  { destruct Hslot as [Hmid _]. unfold moved.
    destruct (isWeekend slot) eqn:Hw; cbn [andb].
    - destruct (Qltb double_0_3 (random k)) eqn:Hdraw.
      + unfold isWeekend in Hw |- *. apply orb_true_iff in Hw.
        rewrite !Z.eqb_eq in Hw.
        unfold addDays, getDay, localTime, msPerDay in *.
        repeat split; try case_match; intros; try done;
          rewrite ?orb_true_iff, ?Z.eqb_eq in *;
          Z.to_euclidean_division_equations; lia.
      + repeat split; first [done | lia | by intros].
    - repeat split; first [done | lia | intros; congruence]. }
  destruct Hmoved as (Hmid & Hle & Hwk & Hmon).
  destruct (setClock_at_midnight moved hour minute Hmid ltac:(lia) Hminute)
    as (Hh & Hm & Hval).
  eexists _, _. split; [exact Heq|].
  rewrite Hh, Hm. split; [done|]. split; [done|]. split; [|split; [|split]].
  - unfold adjustToBusinessHours. rewrite Hh.
    destruct (hour <? 6)%Z eqn:H1; [lia|]. destruct (23 <=? hour)%Z eqn:H2; [lia|]. done.
  - rewrite Hval. destruct Hslot as [_ Hs]. unfold msPerHour, msPerMinute. lia.
  - intros Hwe. apply Hwk. revert Hwe. rewrite Hval.
    unfold isWeekend, getDay, localTime, msPerDay, msPerHour, msPerMinute in *.
    rewrite !orb_true_iff, !Z.eqb_eq.
    intros; Z.to_euclidean_division_equations; lia.
  - intros Hw Hdraw. specialize (Hmon Hw Hdraw). rewrite Hval.
    unfold getDay, localTime, msPerDay, msPerHour, msPerMinute in *.
    Z.to_euclidean_division_equations; lia.
Qed.

(** ** More on sorting and counting *)

Lemma insertBy_headLeast {A} (cmp : A → A → Z) (x : A) (l : list A) :
  (∀ a b, (cmp a b ≤ 0)%Z ∨ (cmp b a ≤ 0)%Z) →
  (∀ a b c, (cmp a b ≤ 0)%Z → (cmp b c ≤ 0)%Z → (cmp a c ≤ 0)%Z) →
  headLeast cmp l → headLeast cmp (insertBy cmp x l).
Proof.
  intros Htotal Htrans Hl.
  assert (Hrefl : ∀ a, (cmp a a ≤ 0)%Z) by (intros a; by destruct (Htotal a a)).
  destruct l as [|y ys]; cbn [insertBy].
  - intros z ->%list_elem_of_singleton. apply Hrefl.
  - destruct (cmp x y <=? 0)%Z eqn:Hxy.
    + apply Z.leb_le in Hxy. intros z [->|Hz]%elem_of_cons; [apply Hrefl|].
      eapply Htrans; [exact Hxy | by apply Hl].
    + apply Z.leb_gt in Hxy. intros z [->|Hz]%elem_of_cons; [apply Hrefl|].
      rewrite insertBy_Permutation in Hz.
      apply elem_of_cons in Hz as [->|Hz].
      * destruct (Htotal x y); [lia | done].
      * apply Hl. by right.
Qed.

Lemma sortBy_headLeast {A} (cmp : A → A → Z) (l : list A) :
  (∀ a b, (cmp a b ≤ 0)%Z ∨ (cmp b a ≤ 0)%Z) →
  (∀ a b c, (cmp a b ≤ 0)%Z → (cmp b c ≤ 0)%Z → (cmp a c ≤ 0)%Z) →
  headLeast cmp (sortBy cmp l).
Proof.
  intros Htotal Htrans. induction l as [|x l IH]; [done|].
  by apply insertBy_headLeast.
Qed.

Lemma sortBy_head_least {A} (cmp : A → A → Z) (l : list A) (h y : A) :
  (∀ a b, (cmp a b ≤ 0)%Z ∨ (cmp b a ≤ 0)%Z) →
  (∀ a b c, (cmp a b ≤ 0)%Z → (cmp b c ≤ 0)%Z → (cmp a c ≤ 0)%Z) →
  head (sortBy cmp l) = Some h → y ∈ l → (cmp h y ≤ 0)%Z.
Proof.
  intros Htotal Htrans Hh Hy.
  pose proof (sortBy_headLeast cmp l Htotal Htrans) as Hleast.
  rewrite <- (sortBy_Permutation cmp l) in Hy.
  destruct (sortBy cmp l) as [|h' t]; [done|]. injection Hh as ->. by apply Hleast.
Qed.

Lemma omap_get_elem_of {V} (m : omap V) (k : string) (v : V) :
  omap_get m k = Some v → (k, v) ∈ m.
Proof.
  induction m as [|[k' v'] m IH]; cbn [omap_get]; [done|].
  case_decide; [intros [= ->]; subst; by left | intros; right; auto].
Qed.

Lemma omap_elem_of_get {V} (m : omap V) (k : string) (v : V) :
  NoDup (omap_keys m) → (k, v) ∈ m → omap_get m k = Some v.
Proof.
  unfold omap_keys. induction m as [|[k' v'] m IH]; intros Hnd Hin.
  - by apply elem_of_nil in Hin.
  - rewrite fmap_cons in Hnd. apply NoDup_cons in Hnd as [Hk' Hnd]. cbn [omap_get].
    apply elem_of_cons in Hin as [[= -> ->]|Hin]; [by rewrite decide_True|].
    rewrite decide_False; [by apply IH|].
    intros ->. apply Hk'. apply list_elem_of_fmap. by exists (k, v).
Qed.

Lemma omap_set_keys {V} (m : omap V) (k : string) (v : V) :
  omap_keys (omap_set m k v)
  = if omap_has m k then omap_keys m else omap_keys m ++ [k].
Proof.
  unfold omap_keys, omap_has. induction m as [|[k' v'] m IH]; cbn [omap_set omap_get]; [done|].
  case_decide; [done|]. rewrite !fmap_cons, IH. by destruct (omap_get m k).
Qed.

Lemma omap_set_NoDup {V} (m : omap V) (k : string) (v : V) :
  NoDup (omap_keys m) → NoDup (omap_keys (omap_set m k v)).
Proof.
  intros Hnd. rewrite omap_set_keys. unfold omap_has.
  destruct (omap_get m k) eqn:Hget; [done|].
  apply NoDup_app. split; [done|]. split; [|apply NoDup_singleton].
  intros x Hx ->%list_elem_of_singleton.
  unfold omap_keys in Hx. apply list_elem_of_fmap in Hx as ([k' v'] & -> & Hin).
  clear Hnd. induction m as [|[k0 v0] m IH]; [by apply elem_of_nil in Hin|].
  cbn [omap_get] in Hget. case_decide; [done|].
  apply elem_of_cons in Hin as [[= <- <-]|Hin]; [done | by apply IH].
Qed.

Lemma occurrences_cons (k x : string) (l : list string) :
  occurrences k (x :: l) = ((if decide (x = k) then 1 else 0) + occurrences k l)%nat.
Proof. unfold occurrences. rewrite filter_cons. by case_decide. Qed.

Lemma occurrences_zero (k : string) (l : list string) :
  occurrences k l = 0%nat ↔ k ∉ l.
Proof.
  induction l as [|x l IH]; [by split; [intros; apply not_elem_of_nil|]|].
  rewrite occurrences_cons, not_elem_of_cons. case_decide as Hx.
  - split; [lia | intros [Hne _]; by subst].
  - rewrite <- IH. split; [intros; split; [congruence | lia] | intros [_ ?]; lia].
Qed.

Lemma NoDup_occurrences (l : list string) :
  NoDup l ↔ ∀ k, (occurrences k l ≤ 1)%nat.
Proof.
  induction l as [|x l IH].
  - split; [intros _ k; unfold occurrences; simpl; lia | constructor].
  - rewrite NoDup_cons, IH. split.
    + intros [Hx Hl] k. rewrite occurrences_cons. case_decide; [|apply Hl].
      subst. apply occurrences_zero in Hx. lia.
    + intros H. split.
      * apply occurrences_zero. specialize (H x). rewrite occurrences_cons in H.
        rewrite decide_True in H by done. lia.
      * intros k. specialize (H k). rewrite occurrences_cons in H. lia.
Qed.

Lemma countUp_fold {A} (f : A → string) (l : list A) : ∀ (m : omap nat) (k : string),
  NoDup (omap_keys m) →
  NoDup (omap_keys (foldl (λ m x, countUp m (f x)) m l))
  ∧ omap_get (foldl (λ m x, countUp m (f x)) m l) k
    = if decide (k ∈ f <$> l ∨ is_Some (omap_get m k))
      then Some (default 0 (omap_get m k) + occurrences k (f <$> l))%nat
      else None.
Proof.
  induction l as [|x l IH]; intros m k Hnd; cbn [foldl].
  - split; [done|]. rewrite fmap_nil. destruct (omap_get m k) eqn:Hget.
    + rewrite decide_True by (right; by eexists). unfold occurrences. simpl.
      f_equal. lia.
    + rewrite decide_False; [done|]. intros [?%elem_of_nil|[? ?]]; done.
  - destruct (IH (countUp m (f x)) k) as [Hnd' Hget]; [by apply omap_set_NoDup|].
    split; [done|]. rewrite Hget. clear Hget IH.
    rewrite fmap_cons, occurrences_cons.
    assert (Hg : omap_get (countUp m (f x)) k
                 = if decide (f x = k) then Some (S (default 0%nat (omap_get m k)))
                   else omap_get m k).
    { unfold countUp. case_decide; [subst; apply omap_get_set_eq|].
      by apply omap_get_set_ne. }
    destruct (decide (k ∈ f <$> l ∨ is_Some (omap_get (countUp m (f x)) k))) as [H1|H1];
      destruct (decide (k ∈ f x :: (f <$> l) ∨ is_Some (omap_get m k))) as [H2|H2].
    + rewrite Hg. destruct (decide (f x = k)); cbn [default from_option]; unfold id; f_equal; lia.
    + exfalso. apply H2. destruct H1 as [H1|H1]; [left; by right|].
      rewrite Hg in H1. case_decide; [subst; left; by left | by right].
    + exfalso. apply H1. rewrite Hg. destruct H2 as [H2|H2].
      * apply elem_of_cons in H2 as [->|H2]; [|by left].
        right. rewrite decide_True by done. by eexists.
      * right. case_decide; [by eexists | done].
    + done.
Qed.

Lemma countUp_tally {A} (f : A → string) (l : list A) (k : string) (n : nat) :
  (k, n) ∈ foldl (λ m x, countUp m (f x)) [] l ↔
  k ∈ f <$> l ∧ n = occurrences k (f <$> l).
Proof.
  destruct (countUp_fold f l [] k) as [Hnd Hget]; [constructor|].
  cbn [omap_get default] in Hget. split.
  - intros Hin. apply (omap_elem_of_get _ _ _ Hnd) in Hin. rewrite Hget in Hin.
    case_decide as H; [|done]. injection Hin as <-.
    destruct H as [H|[? ?]]; done.
  - intros [Hin ->]. apply omap_get_elem_of. rewrite Hget.
    by rewrite decide_True by (by left).
Qed.

(** ** More on the business rules *)

(** X7: [validateNoOverposting] accepts exactly the post lists whose subreddits
    are pairwise distinct. *)
Theorem validateNoOverposting_iff (posts : list GeneratedPost) :
  isValid (validateNoOverposting posts) = true ↔ NoDup (subreddit <$> posts).
Proof.
  unfold validateNoOverposting, mkResult. cbn [isValid].
  set (counts := foldl (λ m post, countUp m (subreddit post)) [] posts).
  rewrite Nat.eqb_eq, length_zero_iff_nil, NoDup_occurrences. split.
  - intros Hnil k.
    destruct (decide (k ∈ subreddit <$> posts)) as [Hin|Hnin];
      [|apply occurrences_zero in Hnin; lia].
    assert ((k, occurrences k (subreddit <$> posts)) ∈ counts) as Hk
      by (by apply countUp_tally).
    destruct (Nat.ltb 1 (occurrences k (subreddit <$> posts))) eqn:Hlt;
      [|apply Nat.ltb_ge in Hlt; lia].
    exfalso. apply list_elem_of_In in Hk.
    assert (In (Overposting k (occurrences k (subreddit <$> posts)))
               (flat_map (λ '(sub, count),
                    if Nat.ltb 1 count then [Overposting sub count] else []) counts)).
    { apply in_flat_map. eexists. split; [exact Hk|]. cbv beta iota. rewrite Hlt. by left. }
    by rewrite Hnil in H.
  - intros Hocc. destruct (flat_map _ counts) as [|msg rest] eqn:Hflat; [done|].
    exfalso. assert (In msg (flat_map (λ '(sub, count),
                    if Nat.ltb 1 count then [Overposting sub count] else []) counts))
      as Hin by (rewrite Hflat; by left).
    apply in_flat_map in Hin as ([sub count] & Hin & Hmsg).
    apply list_elem_of_In, countUp_tally in Hin as [_ ->].
    destruct (Nat.ltb 1 _) eqn:Hlt; [|done].
    apply Nat.ltb_lt in Hlt. specialize (Hocc sub). lia.
Qed.

Lemma flat_map_nil_iff {A B} (f : A → list B) (l : list A) :
  flat_map f l = [] ↔ ∀ x, x ∈ l → f x = [].
Proof.
  induction l as [|x l IH]; cbn [flat_map].
  - split; [intros _ x Hx; by apply elem_of_nil in Hx | done].
  - split.
    + intros [Hx Hl]%app_eq_nil y [->|Hy]%elem_of_cons; [done | by apply IH].
    + intros H. rewrite (H x) by (by left). apply IH. intros y Hy. apply H. by right.
Qed.

Lemma concat_nil_iff {A} (ls : list (list A)) :
  concat ls = [] ↔ ∀ l, l ∈ ls → l = [].
Proof.
  induction ls as [|l ls IH]; cbn [concat].
  - split; [intros _ x Hx; by apply elem_of_nil in Hx | done].
  - split.
    + intros [Hx Hl]%app_eq_nil y [->|Hy]%elem_of_cons; [done | by apply IH].
    + intros H. rewrite (H l) by (by left). apply IH. intros y Hy. apply H. by right.
Qed.

Lemma mkResult_valid_iff (errs warns : list Message) :
  isValid (mkResult errs warns) = true ↔ errors (mkResult errs warns) = [].
Proof. cbn [mkResult isValid errors]. by rewrite Nat.eqb_eq, length_zero_iff_nil. Qed.

(** X8: [validateCommentThreads] accepts exactly the comment lists in which every
    parent reference is the id of a comment of the list other than the
    referring comment. *)
Theorem validateCommentThreads_iff (comments : list GeneratedComment) :
  isValid (validateCommentThreads comments) = true ↔
  ∀ c, c ∈ comments → truthy (parent_comment_id c) = true →
    (∃ c', c' ∈ comments ∧ Some (comment_id c') = parent_comment_id c)
    ∧ Some (comment_id c) ≠ parent_comment_id c.
Proof.
  unfold validateCommentThreads. rewrite mkResult_valid_iff. cbn [mkResult errors].
  rewrite flat_map_nil_iff. apply forall_proper. intros c.
  apply forall_proper. intros Hc. unfold threadMessages.
  destruct (truthy (parent_comment_id c)); [|by split].
  destruct (existsb _ comments) eqn:Hex; cbn [negb].
  - apply existsb_exists in Hex as (c' & Hc' & Heq).
    apply bool_decide_eq_true in Heq. apply list_elem_of_In in Hc'.
    case_bool_decide as Hself; cbn [app].
    + split; [done | intros H; by destruct (H eq_refl) as [_ ?]].
    + split; [intros _ _; split; [by exists c' | done] | done].
  - split; [done|]. intros H. destruct (H eq_refl) as [(c' & Hc' & Heq) _].
    apply not_true_iff_false in Hex. exfalso. apply Hex.
    apply existsb_exists. exists c'. split; [by apply list_elem_of_In|].
    by apply bool_decide_eq_true.
Qed.

Lemma Qltb_minutesBetween_0 (earlier later : Z) :
  Qltb (minutesBetween earlier later) 0 = true ↔ (later < earlier)%Z.
Proof.
  unfold Qltb, minutesBetween, Qle_bool. cbn [Qnum Qden].
  rewrite negb_true_iff, Z.leb_gt. lia.
Qed.

(** X9: [validateTimestamps] accepts exactly when no post is at 02:00 to 04:59,
    every comment's post exists, the comment is at least a minute and less
    than seven days after it, and a comment with a parent reference has its
    parent in the list, not later than itself. *)
Theorem validateTimestamps_iff (posts : list GeneratedPost)
    (comments : list GeneratedComment) :
  isValid (validateTimestamps posts comments) = true ↔
  (∀ p, p ∈ posts → ¬ (2 ≤ getHours (timestamp p) < 5)%Z)
  ∧ ∀ c, c ∈ comments →
      ∃ post, findPost posts (c_post_id c) = Some post
        ∧ (60000 ≤ c_timestamp c - timestamp post < 604800000)%Z
        ∧ (truthy (parent_comment_id c) = true →
             ∃ parent, findComment comments (parent_comment_id c) = Some parent
               ∧ (c_timestamp parent ≤ c_timestamp c)%Z).
Proof.
  unfold validateTimestamps. rewrite mkResult_valid_iff. cbn [mkResult errors].
  rewrite app_nil, !concat_nil_iff. f_equiv.
  - split.
    + intros H p Hp Hhour.
      specialize (H (postTimeMessages p).1). unfold postTimeMessages in H. cbn [fst] in H.
      destruct (_ && _) eqn:Hb; [|apply andb_false_iff in Hb as [?%Z.leb_gt|?%Z.ltb_ge]; lia].
      discriminate H. apply list_elem_of_fmap. eexists. split; [|by apply list_elem_of_fmap_2].
      unfold postTimeMessages. cbn [fst]. by rewrite Hb.
    + intros H l (m & -> & (p & -> & Hp)%list_elem_of_fmap)%list_elem_of_fmap.
      unfold postTimeMessages. cbn [fst].
      destruct (_ && _) eqn:Hb; [|done].
      apply andb_true_iff in Hb as [?%Z.leb_le ?%Z.ltb_lt]. destruct (H p Hp). lia.
  - assert (Hone : ∀ c, (commentTimeMessages posts comments c).1 = [] ↔
              ∃ post, findPost posts (c_post_id c) = Some post
                ∧ (60000 ≤ c_timestamp c - timestamp post < 604800000)%Z
                ∧ (truthy (parent_comment_id c) = true →
                     ∃ parent, findComment comments (parent_comment_id c) = Some parent
                       ∧ (c_timestamp parent ≤ c_timestamp c)%Z)).
    { intros c. unfold commentTimeMessages.
      destruct (findPost posts (c_post_id c)) as [post|]; [|split; [done | by intros (? & ? & _)]].
      pose proof (isValidCommentTime_iff (timestamp post) (c_timestamp c)) as Hv.
      destruct (isValidCommentTime (timestamp post) (c_timestamp c)); cbn [negb].
      - destruct (truthy (parent_comment_id c)).
        + destruct (findComment comments (parent_comment_id c)) as [parent|].
          * pose proof (Qltb_minutesBetween_0 (c_timestamp parent) (c_timestamp c)) as Hq.
            destruct (Qltb (minutesBetween (c_timestamp parent) (c_timestamp c)) 0).
            -- split; [done|]. intros (p & [= <-] & _ & Hpar).
               destruct (Hpar eq_refl) as (q & [= <-] & Hle).
               assert (c_timestamp c < c_timestamp parent)%Z by (by apply Hq). lia.
            -- assert (¬ (c_timestamp c < c_timestamp parent)%Z)
                 by (intros ?%Hq; done).
               split; [intros _|intros _; by destruct (Qltb _ 1)].
               exists post. split; [done|]. split; [by apply Hv|].
               intros _. exists parent. split; [done | lia].
          * split; [done|]. intros (p & _ & _ & Hpar).
            by destruct (Hpar eq_refl) as (q & ? & _).
        + split; [intros _|done]. exists post. split; [done|]. split; [by apply Hv | done].
      - split.
        + intros H. exfalso.
          destruct (Qltb _ 0);
            match type of H with context [let '(_, _) := ?E in _] => destruct E end;
            discriminate H.
        + intros (p & [= <-] & Hwin & _). apply Hv in Hwin. done. }
    split.
    + intros H c Hc. apply Hone. apply H.
      apply list_elem_of_fmap. eexists. split; [done|]. by apply list_elem_of_fmap_2.
    + intros H l (m & -> & (c & -> & Hc)%list_elem_of_fmap)%list_elem_of_fmap.
      apply Hone. by apply H.
Qed.

(** X10: [validateContentCalendar] reports validity exactly when it reports no
    error, and then each of the five checks accepts. *)
Theorem validateContentCalendar_valid_iff (posts : list GeneratedPost)
    (comments : list GeneratedComment) :
  isValid (validateContentCalendar posts comments) = true ↔
  errors (validateContentCalendar posts comments) = [].
Proof.
  unfold validateContentCalendar. cbn [isValid errors forallb flat_map].
  rewrite !andb_true_iff, app_nil_r, !app_nil.
  unfold validateNoOverposting, validateTopicDiversity, validateTimestamps,
    validatePersonaDistribution, validateCommentThreads.
  destruct (topicMessages posts) as [terrs twarns].
  rewrite !mkResult_valid_iff. tauto.
Qed.

Lemma occurrences_app (k : string) (l1 l2 : list string) :
  occurrences k (l1 ++ l2) = (occurrences k l1 + occurrences k l2)%nat.
Proof. unfold occurrences. by rewrite filter_app, length_app. Qed.

Lemma occurrences_le_length (k : string) (l : list string) :
  (occurrences k l ≤ length l)%nat.
Proof. unfold occurrences. apply length_filter. Qed.

Lemma personaCounts_tally (posts : list GeneratedPost)
    (comments : list GeneratedComment) (k : string) (n : nat) :
  (k, n) ∈ foldl (λ m comment, countUp m (c_username comment))
             (foldl (λ m post, countUp m (author_username post)) [] posts) comments
  ↔ k ∈ (author_username <$> posts) ++ (c_username <$> comments)
    ∧ n = occurrences k ((author_username <$> posts) ++ (c_username <$> comments)).
Proof.
  destruct (countUp_fold author_username posts [] k) as [Hnd1 Hget1]; [constructor|].
  destruct (countUp_fold c_username comments _ k Hnd1) as [Hnd2 Hget2].
  set (counts1 := foldl (λ m post, countUp m (author_username post)) [] posts) in *.
  assert (Hg1 : omap_get counts1 k
                = if decide (k ∈ author_username <$> posts)
                  then Some (occurrences k (author_username <$> posts)) else None).
  { rewrite Hget1. cbn [omap_get].
    destruct (decide (k ∈ author_username <$> posts ∨ is_Some None)) as [H1|H1];
      destruct (decide (k ∈ author_username <$> posts)) as [H2|H2]; try done.
    - destruct H1 as [?|[? ?]]; done.
    - exfalso. apply H1. by left. }
  clear Hget1. rewrite Hg1 in Hget2. clear Hg1.
  assert (Hg2 : omap_get (foldl (λ m comment, countUp m (c_username comment))
                            counts1 comments) k
                = if decide (k ∈ (author_username <$> posts) ++ (c_username <$> comments))
                  then Some (occurrences k
                               ((author_username <$> posts) ++ (c_username <$> comments)))
                  else None).
  { rewrite Hget2, occurrences_app.
    destruct (decide (k ∈ author_username <$> posts)) as [Ha|Ha].
    - rewrite decide_True by (right; by eexists).
      rewrite decide_True by (apply elem_of_app; by left). done.
    - apply occurrences_zero in Ha as Hz. rewrite Hz.
      destruct (decide (k ∈ c_username <$> comments)) as [Hc|Hc].
      + rewrite decide_True by (by left).
        rewrite decide_True by (apply elem_of_app; by right). done.
      + rewrite decide_False by (intros [?|[? ?]]; done).
        rewrite decide_False; [done|]. intros [?|?]%elem_of_app; done. }
  clear Hget2. split.
  - intros Hin. apply (omap_elem_of_get _ _ _ Hnd2) in Hin. rewrite Hg2 in Hin.
    case_decide; [|done]. by injection Hin as <-.
  - intros [Hin ->]. apply omap_get_elem_of. rewrite Hg2. by rewrite decide_True.
Qed.

Lemma Qltb_50_percentage (count total : nat) :
  (0 < total)%nat →
  Qltb 50 ((Z.of_nat count # Pos.of_nat total) * 100) = true ↔ (total < 2 * count)%nat.
Proof.
  intros Hpos. unfold Qltb, Qle_bool, Qmult. cbn [Qnum Qden].
  rewrite negb_true_iff, Z.leb_gt.
  rewrite Pos.mul_1_r.
  assert (Z.pos (Pos.of_nat total) = Z.of_nat total) as ->.
  { destruct total; [lia|]. by rewrite <- Pos.of_nat_succ, Zpos_P_of_succ_nat, Nat2Z.inj_succ. }
  lia.
Qed.

(** X11: [validatePersonaDistribution] accepts exactly when no username wrote
    more than half of the posts and comments taken together. *)
Theorem validatePersonaDistribution_iff (posts : list GeneratedPost)
    (comments : list GeneratedComment) :
  isValid (validatePersonaDistribution posts comments) = true ↔
  ∀ u, (2 * occurrences u ((author_username <$> posts) ++ (c_username <$> comments))
        ≤ length posts + length comments)%nat.
Proof.
  unfold validatePersonaDistribution. rewrite mkResult_valid_iff. cbn [mkResult errors].
  set (counts := foldl (λ m comment, countUp m (c_username comment))
                   (foldl (λ m post, countUp m (author_username post)) [] posts) comments).
  set (total := (length posts + length comments)%nat).
  set (mk := λ '(username, count),
         {| ps_username := username; ps_count := count;
            percentage := (Z.of_nat count # Pos.of_nat total) * 100 |}).
  set (cmp := λ a b : PersonaStat, (Z.of_nat (ps_count b) - Z.of_nat (ps_count a))%Z).
  set (authors := (author_username <$> posts) ++ (c_username <$> comments)).
  assert (Htotal : length authors = total).
  { unfold authors, total. by rewrite length_app, !length_fmap. }
  assert (Hstat : ∀ st, st ∈ mk <$> counts ↔
            ∃ u, u ∈ authors ∧ st = mk (u, occurrences u authors)).
  { intros st. rewrite list_elem_of_fmap. split.
    - intros ([u n] & -> & Hin). apply personaCounts_tally in Hin as [Hu ->]. by exists u.
    - intros (u & Hu & ->). exists (u, occurrences u authors). split; [done|].
      by apply personaCounts_tally. }
  assert (Hcmp_total : ∀ a b, (cmp a b ≤ 0)%Z ∨ (cmp b a ≤ 0)%Z) by (unfold cmp; lia).
  assert (Hcmp_trans : ∀ a b c, (cmp a b ≤ 0)%Z → (cmp b c ≤ 0)%Z → (cmp a c ≤ 0)%Z)
    by (unfold cmp; lia).
  destruct (sortBy cmp (mk <$> counts)) as [|top rest] eqn:Hsorted.
  - split; [intros _ u|done].
    destruct (decide (u ∈ authors)) as [Hu|Hu]; [|apply occurrences_zero in Hu; lia].
    assert (mk (u, occurrences u authors) ∈ sortBy cmp (mk <$> counts)) as Hin.
    { rewrite sortBy_Permutation. apply Hstat. by exists u. }
    rewrite Hsorted in Hin. by apply elem_of_nil in Hin.
  - assert (top ∈ mk <$> counts) as Htop.
    { rewrite <- (sortBy_Permutation cmp), Hsorted. by left. }
    apply Hstat in Htop as (v & Hv & ->). cbn [mk percentage ps_username].
    assert (Hpos : (0 < total)%nat).
    { rewrite <- Htotal. destruct authors; [by apply elem_of_nil in Hv | simpl; lia]. }
    pose proof (Qltb_50_percentage (occurrences v authors) total Hpos) as Hq.
    destruct (Qltb 50 _).
    + split; [done|]. intros H. specialize (H v).
      assert (total < 2 * occurrences v authors)%nat by (by apply Hq). lia.
    + split; [intros _ u|done].
      assert (¬ (total < 2 * occurrences v authors)%nat) as Hv' by (intros ?%Hq; done).
      destruct (decide (u ∈ authors)) as [Hu|Hu]; [|apply occurrences_zero in Hu; lia].
      assert (cmp (mk (v, occurrences v authors)) (mk (u, occurrences u authors)) ≤ 0)%Z
        as Hle.
      { apply (sortBy_head_least cmp (mk <$> counts)); [done..| |].
        - by rewrite Hsorted.
        - apply Hstat. by exists u. }
      unfold cmp in Hle. cbn [mk ps_count] in Hle. lia.
Qed.

(** ** Topic diversity *)

Lemma similarityMessagesWith_errors (lower : string → string) (post : GeneratedPost)
    (later : list GeneratedPost) :
  (similarityMessagesWith lower post later).1
  = flat_map (λ other,
      let similarity :=
        calculateTextSimilarity (lower (title post)) (lower (title other)) in
      if Qltb (7 # 10) similarity
      then [PostsTooSimilar (post_id post) (post_id other) similarity] else []) later.
Proof.
  unfold similarityMessagesWith.
  assert (H : ∀ errs warns,
    (foldl (λ '(errs, warns) other,
       let similarity :=
         calculateTextSimilarity (lower (title post)) (lower (title other)) in
       if Qltb (7 # 10) similarity
       then (errs ++ [PostsTooSimilar (post_id post) (post_id other) similarity], warns)
       else if Qltb (5 # 10) similarity
       then (errs, warns ++ [PostsModeratelySimilar (post_id post) (post_id other) similarity])
       else (errs, warns)) (errs, warns) later).1
    = errs ++ flat_map (λ other,
        let similarity :=
          calculateTextSimilarity (lower (title post)) (lower (title other)) in
        if Qltb (7 # 10) similarity
        then [PostsTooSimilar (post_id post) (post_id other) similarity] else []) later).
  { induction later as [|other later IH]; intros errs warns; cbn [foldl flat_map].
    - by rewrite app_nil_r.
    - cbv zeta. destruct (Qltb (7 # 10) _).
      + rewrite IH. by rewrite <- app_assoc.
      + destruct (Qltb (5 # 10) _); by rewrite IH. }
  apply (H [] []).
Qed.

Lemma topicMessagesWith_toLowerCase (posts : list GeneratedPost) :
  topicMessagesWith toLowerCase posts = topicMessages posts.
Proof.
  induction posts as [|post later IH]; [done|].
  cbn [topicMessagesWith topicMessages]. by rewrite IH.
Qed.

Lemma calculateTextSimilarity_same (text : string) :
  Qltb (7 # 10) (calculateTextSimilarity text text) = true.
Proof.
  unfold calculateTextSimilarity.
  destruct (Nat.eqb (size (longWords text)) 0) eqn:Hsize; cbn [andb orb]; [done|].
  apply Nat.eqb_neq in Hsize.
  rewrite (idemp_L (∩)), (idemp_L (∪)).
  unfold Qltb, Qle_bool. cbn [Qnum Qden]. rewrite negb_true_iff, Z.leb_gt.
  destruct (size (longWords text)) as [|n]; [done|].
  rewrite <- Pos.of_nat_succ, Zpos_P_of_succ_nat. lia.
Qed.

(** X12: The similarity of two texts does not depend on their order and lies
    between 0 and 1. *)
Theorem calculateTextSimilarity_symmetric (text1 text2 : string) :
  calculateTextSimilarity text1 text2 = calculateTextSimilarity text2 text1
  ∧ (0 <= calculateTextSimilarity text1 text2)%Q
  ∧ (calculateTextSimilarity text1 text2 <= 1)%Q.
Proof.
  unfold calculateTextSimilarity.
  rewrite (comm_L (∩) (longWords text2)), (comm_L (∪) (longWords text2)).
  rewrite (andb_comm (Nat.eqb (size (longWords text2)) 0)),
          (orb_comm (Nat.eqb (size (longWords text2)) 0)).
  split; [done|].
  destruct (_ && _); [done|]. destruct (_ || _) eqn:Hor; [done|].
  apply orb_false_iff in Hor as [H1%Nat.eqb_neq H2%Nat.eqb_neq].
  assert (Hle : (size (longWords text1 ∩ longWords text2)
                 ≤ size (longWords text1 ∪ longWords text2))%nat).
  { apply subseteq_size. etrans; [apply intersection_subseteq_l | apply union_subseteq_l]. }
  assert (Hpos : (0 < size (longWords text1 ∪ longWords text2))%nat).
  { assert (size (longWords text1) ≤ size (longWords text1 ∪ longWords text2))%nat
      by apply subseteq_size, union_subseteq_l. lia. }
  unfold Qle. cbn [Qnum Qden].
  destruct (size (longWords text1 ∪ longWords text2)) as [|n]; [lia|].
  rewrite <- Pos.of_nat_succ, Zpos_P_of_succ_nat. lia.
Qed.

(** X13: A post list in which two posts have the same title after
    lower-casing is rejected by [validateTopicDiversity], wherever the two
    stand in the list. This holds whichever function lower-cases the titles,
    so it does not depend on the characters that [toLowerCase] folds. *)
Theorem validateTopicDiversity_rejects_same_title
    (before between after : list GeneratedPost) (p q : GeneratedPost) :
  (∀ lower : string → string,
     lower (title p) = lower (title q) →
     isValid (validateTopicDiversityWith lower (before ++ p :: between ++ q :: after))
     = false)
  ∧ (toLowerCase (title p) = toLowerCase (title q) →
     isValid (validateTopicDiversity (before ++ p :: between ++ q :: after)) = false).
Proof.
  assert (Hgeneral : ∀ lower : string → string,
     lower (title p) = lower (title q) →
     isValid (validateTopicDiversityWith lower (before ++ p :: between ++ q :: after))
     = false).
  { intros lower Hsame. unfold validateTopicDiversityWith.
    assert (H : ∃ msg,
      msg ∈ (topicMessagesWith lower (before ++ p :: between ++ q :: after)).1).
    { induction before as [|b before IH]; cbn [app topicMessagesWith].
      - exists (PostsTooSimilar (post_id p) (post_id q)
                  (calculateTextSimilarity (lower (title p)) (lower (title q)))).
        pose proof (similarityMessagesWith_errors lower p (between ++ q :: after)) as Herrs.
        destruct (similarityMessagesWith lower p (between ++ q :: after)) as [errs warns].
        destruct (topicMessagesWith lower (between ++ q :: after)) as [errs' warns'].
        cbn [fst] in *. apply elem_of_app. left. rewrite Herrs.
        apply list_elem_of_In, in_flat_map. exists q.
        split; [apply list_elem_of_In, elem_of_app; right; by left|].
        cbv zeta. rewrite Hsame, calculateTextSimilarity_same. by left.
      - destruct IH as [msg Hmsg]. exists msg.
        destruct (similarityMessagesWith lower b _) as [errs warns].
        destruct (topicMessagesWith lower (before ++ p :: between ++ q :: after))
          as [errs' warns'].
        cbn [fst] in *. apply elem_of_app. by right. }
    destruct H as [msg Hmsg].
    destruct (topicMessagesWith lower _) as [errs warns]. cbn [fst] in Hmsg.
    unfold mkResult. cbn [isValid].
    destruct errs; [by apply elem_of_nil in Hmsg | done]. }
  split; [exact Hgeneral|].
  intros Hsame. specialize (Hgeneral toLowerCase Hsame).
  unfold validateTopicDiversityWith in Hgeneral.
  rewrite topicMessagesWith_toLowerCase in Hgeneral. exact Hgeneral.
Qed.

(** ** The auto-fix pass *)

Lemma adjustToBusinessHours_hours (t : Z) :
  (6 ≤ getHours (adjustToBusinessHours t) < 23)%Z
  ∧ adjustToBusinessHours (adjustToBusinessHours t) = adjustToBusinessHours t.
Proof.
  unfold adjustToBusinessHours, setHours, setMinutes, addDays,
    getHours, getMinutes, localTime, msPerDay, msPerHour, msPerMinute.
  split; repeat case_match; try reflexivity; Z.to_euclidean_division_equations; lia.
Qed.

Lemma findPost_fixPost (posts : list GeneratedPost) (id : string) :
  findPost (fixPost <$> posts) id = fixPost <$> findPost posts id.
Proof.
  unfold findPost. induction posts as [|p posts IH]; [done|].
  rewrite fmap_cons. cbn [find fixPost post_id]. by case_bool_decide.
Qed.

Lemma fixTimestampIssues_posts (posts : list GeneratedPost)
    (comments : list GeneratedComment) :
  (fixTimestampIssues posts comments).1 = fixPost <$> posts.
Proof. reflexivity. Qed.

Lemma fixTimestampIssues_not_before (posts : list GeneratedPost)
    (comments : list GeneratedComment) (c : GeneratedComment) (post : GeneratedPost) :
  c ∈ (fixTimestampIssues posts comments).2 →
  findPost (fixTimestampIssues posts comments).1 (c_post_id c) = Some post →
  (timestamp post ≤ c_timestamp c)%Z.
Proof.
  rewrite fixTimestampIssues_posts. unfold fixTimestampIssues. cbn [snd].
  fold fixPost. intros (c0 & -> & Hc0)%list_elem_of_fmap.
  destruct (findPost (fixPost <$> posts) (c_post_id c0)) as [post0|] eqn:Hfind.
  - destruct (c_timestamp c0 <? timestamp post0)%Z eqn:Hlt.
    + cbn [c_post_id c_timestamp]. rewrite Hfind. intros [= <-]. lia.
    + rewrite Hfind. intros [= <-]. apply Z.ltb_ge in Hlt. lia.
  - by rewrite Hfind.
Qed.

(** X14: After [fixTimestampIssues] every post has its hour in [6, 23) and no
    comment is earlier than its post; the ids and authors are unchanged, and
    running the pass again changes nothing. *)
Theorem fixTimestampIssues_fixed (posts : list GeneratedPost)
    (comments : list GeneratedComment) :
  let fixed := fixTimestampIssues posts comments in
  (∀ p, p ∈ fixed.1 → (6 ≤ getHours (timestamp p) < 23)%Z)
  ∧ (∀ c post, c ∈ fixed.2 → findPost fixed.1 (c_post_id c) = Some post →
       (timestamp post ≤ c_timestamp c)%Z)
  ∧ post_id <$> fixed.1 = post_id <$> posts
  ∧ subreddit <$> fixed.1 = subreddit <$> posts
  ∧ author_username <$> fixed.1 = author_username <$> posts
  ∧ c_username <$> fixed.2 = c_username <$> comments
  ∧ c_post_id <$> fixed.2 = c_post_id <$> comments
  ∧ fixTimestampIssues fixed.1 fixed.2 = fixed.
Proof.
  cbv zeta. change (fixTimestampIssues posts comments).1 with (fixPost <$> posts).
  split; [|split; [|split; [|split; [|split; [|split; [|split]]]]]].
  - intros p (p0 & -> & _)%list_elem_of_fmap. apply adjustToBusinessHours_hours.
  - intros c post. apply fixTimestampIssues_not_before.
  - by rewrite <- list_fmap_compose.
  - by rewrite <- list_fmap_compose.
  - by rewrite <- list_fmap_compose.
  - unfold fixTimestampIssues. cbn [snd]. rewrite <- list_fmap_compose.
    apply list_fmap_ext. intros i c _. cbn. by repeat case_match.
  - unfold fixTimestampIssues. cbn [snd]. rewrite <- list_fmap_compose.
    apply list_fmap_ext. intros i c _. cbn. by repeat case_match.
  - pose proof (fixTimestampIssues_not_before posts comments) as Hnb.
    change (fixTimestampIssues posts comments).1 with (fixPost <$> posts) in Hnb.
    unfold fixTimestampIssues at 1. fold fixPost.
    assert (Hposts : fixPost <$> (fixPost <$> posts) = fixPost <$> posts).
    { rewrite <- list_fmap_compose. apply list_fmap_ext. intros i p _.
      unfold fixPost, compose. cbn.
      by rewrite (proj2 (adjustToBusinessHours_hours (timestamp p))). }
    rewrite Hposts.
    transitivity (fixPost <$> posts, (fixTimestampIssues posts comments).2); [|done].
    f_equal.
    rewrite <- (list_fmap_id (fixTimestampIssues posts comments).2) at 2.
    apply Forall_fmap_ext, Forall_forall. intros c Hc. unfold id.
    destruct (findPost (fixPost <$> posts) (c_post_id c)) as [post|] eqn:Hfind; [|done].
    specialize (Hnb c post Hc Hfind).
    destruct (c_timestamp c <? timestamp post)%Z eqn:Hlt; [|done].
    apply Z.ltb_lt in Hlt. lia.
Qed.

Lemma commentTimeMessages_before_post posts comments c (msg : Message) :
  msg ∈ (commentTimeMessages posts comments c).1 →
  match msg with
  | CommentBeforePost _ _ =>
      ∃ post, findPost posts (c_post_id c) = Some post
              ∧ (c_timestamp c < timestamp post)%Z
  | UnrealisticTimestamp _ _ | UnusualTimestamp _ _ => False
  | _ => True
  end.
Proof.
  unfold commentTimeMessages.
  destruct (findPost posts (c_post_id c)) as [post|]; cbn [fst].
  - intros Hin.
    assert (Hcases :
      (msg ∈ (if negb (isValidCommentTime (timestamp post) (c_timestamp c))
              then if Qltb (minutesBetween (timestamp post) (c_timestamp c)) 0
                   then [CommentBeforePost (comment_id c)
                           (Qabs (minutesBetween (timestamp post) (c_timestamp c)))]
                   else [CommentTooLate (comment_id c)
                           (minutesBetween (timestamp post) (c_timestamp c) / 60 / 24)]
              else []))
      ∨ msg = CommentNonExistentParent (comment_id c) (default "" (parent_comment_id c))
      ∨ msg = CommentBeforeParent (comment_id c)).
    { revert Hin.
      match goal with |- context [let '(_, _) := ?E in _] => destruct E as [e2 w2] eqn:HE end.
      cbn [fst]. intros [Hin|Hin]%elem_of_app; [by left|]. right.
      destruct (truthy _); [|injection HE as <- _; by apply elem_of_nil in Hin].
      destruct (findComment _ _).
      - destruct (Qltb _ 0).
        + injection HE as <- _. apply list_elem_of_singleton in Hin. by right.
        + destruct (Qltb _ 1); injection HE as <- _; by apply elem_of_nil in Hin.
      - injection HE as <- _. apply list_elem_of_singleton in Hin. by left. }
    destruct Hcases as [Hc|[->| ->]]; [|done..].
    destruct (negb _); [|by apply elem_of_nil in Hc].
    destruct (Qltb _ 0) eqn:Hq; apply list_elem_of_singleton in Hc as ->; [|done].
    exists post. split; [done|]. by apply Qltb_minutesBetween_0.
  - by intros ->%list_elem_of_singleton.
Qed.

(** X15: After the auto-fix pass, [validateTimestamps] reports no post at an
    unrealistic or unusual hour and no comment before its post. *)
Theorem validateTimestamps_after_fix (posts : list GeneratedPost)
    (comments : list GeneratedComment) :
  let fixed := fixTimestampIssues posts comments in
  (∀ id h, UnrealisticTimestamp id h ∉ errors (validateTimestamps fixed.1 fixed.2))
  ∧ (∀ id m, CommentBeforePost id m ∉ errors (validateTimestamps fixed.1 fixed.2))
  ∧ (∀ id h, UnusualTimestamp id h ∉ warnings (validateTimestamps fixed.1 fixed.2)).
Proof.
  cbv zeta. change (fixTimestampIssues posts comments).1 with (fixPost <$> posts).
  set (fixedComments := (fixTimestampIssues posts comments).2).
  pose proof (fixTimestampIssues_not_before posts comments) as Hnb.
  change (fixTimestampIssues posts comments).1 with (fixPost <$> posts) in Hnb.
  fold fixedComments in Hnb.
  assert (Hposts : ∀ p msg, p ∈ fixPost <$> posts →
            msg ∈ (postTimeMessages p).1 ∨ msg ∈ (postTimeMessages p).2 → False).
  { intros p msg (p0 & -> & _)%list_elem_of_fmap.
    pose proof (proj1 (adjustToBusinessHours_hours (timestamp p0))) as Hh.
    unfold postTimeMessages. cbn [fst snd fixPost timestamp].
    destruct (_ && _) eqn:Hb.
    { apply andb_true_iff in Hb as [_ ?%Z.ltb_lt]. lia. }
    destruct (_ <? 6)%Z eqn:Hb'; [apply Z.ltb_lt in Hb'; lia|].
    intros [?%elem_of_nil|?%elem_of_nil]; done. }
  unfold validateTimestamps. cbn [mkResult errors warnings].
  assert (Herr : ∀ msg,
            msg ∈ concat (postTimeMessages <$> (fixPost <$> posts)).*1
                  ++ concat (commentTimeMessages (fixPost <$> posts) fixedComments
                               <$> fixedComments).*1 →
            ∃ c, c ∈ fixedComments
                 ∧ msg ∈ (commentTimeMessages (fixPost <$> posts) fixedComments c).1).
  { intros msg [Hin|Hin]%elem_of_app;
      apply list_elem_of_In, in_concat in Hin as (l & Hl & Hin);
      apply list_elem_of_In, list_elem_of_fmap in Hl as (pr & -> & Hl);
      apply list_elem_of_fmap in Hl as (x & -> & Hx); apply list_elem_of_In in Hin.
    - exfalso. eapply Hposts; [exact Hx | by left].
    - by exists x. }
  split; [|split].
  - intros id h (c & Hc & Hin)%Herr.
    by apply commentTimeMessages_before_post in Hin.
  - intros id m (c & Hc & Hin)%Herr.
    apply commentTimeMessages_before_post in Hin as (post & Hfind & Hlt).
    specialize (Hnb c post Hc Hfind). lia.
  - intros id h [Hin|Hin]%elem_of_app;
      apply list_elem_of_In, in_concat in Hin as (l & Hl & Hin);
      apply list_elem_of_In, list_elem_of_fmap in Hl as (pr & -> & Hl);
      apply list_elem_of_fmap in Hl as (x & -> & Hx); apply list_elem_of_In in Hin.
    + eapply Hposts; [exact Hx | by right].
    + revert Hin. unfold commentTimeMessages.
      destruct (findPost _ _); cbn [snd]; [|by intros ?%elem_of_nil].
      match goal with |- context [let '(_, _) := ?E in _] => destruct E as [e2 w2] eqn:HE end.
      cbn [snd]. intros Hin.
      destruct (truthy _); [|injection HE as _ <-; by apply elem_of_nil in Hin].
      destruct (findComment _ _); [|injection HE as _ <-; by apply elem_of_nil in Hin].
      destruct (Qltb _ 0); [injection HE as _ <-; by apply elem_of_nil in Hin|].
      destruct (Qltb _ 1); injection HE as _ <-;
        [by apply list_elem_of_singleton in Hin | by apply elem_of_nil in Hin].
Qed.

(** ** More on subreddit rotation *)

Lemma omap_elem_of_is_Some {V} (m : omap V) (k : string) (v : V) :
  (k, v) ∈ m → is_Some (omap_get m k).
Proof.
  induction m as [|[k' v'] m IH]; [by intros ?%elem_of_nil|].
  cbn [omap_get]. intros [[= <- <-]|Hin]%elem_of_cons.
  - rewrite decide_True by done. by eexists.
  - case_decide; [by eexists | by apply IH].
Qed.

Lemma omap_set_elem_of {V} (m : omap V) (k k' : string) (v v' : V) :
  (k', v') ∈ omap_set m k v → (k', v') = (k, v) ∨ (k', v') ∈ m.
Proof.
  induction m as [|[k0 v0] m IH]; cbn [omap_set].
  - intros ?%list_elem_of_singleton. by left.
  - case_decide; subst.
    + intros [?|?]%elem_of_cons; [by left | right; by right].
    + intros [->|Hin]%elem_of_cons; [right; by left|].
      destruct (IH Hin); [by left | right; by right].
Qed.

Lemma initSubredditTracker_filedUnder subs : ∀ tracker,
  ∀ sub usage, (sub, usage) ∈ initSubredditTracker tracker subs →
    (sub, usage) ∈ tracker ∨ usage = freshSubreddit sub ∧ sub ∈ subs.
Proof.
  unfold initSubredditTracker.
  induction subs as [|s subs IH]; intros tracker sub usage; cbn [foldl]; [by left|].
  intros Hin. apply IH in Hin as [Hin|[-> Hin]]; [|right; split; [done | by right]].
  destruct (omap_has tracker s); [by left|].
  apply omap_set_elem_of in Hin as [[= -> ->]|Hin]; [|by left].
  right. split; [done | by left].
Qed.

(** What a call that returns has done: the subreddit it returns was tracked
    after initialisation, and its entry gets one more post and the index of
    this post; no draw is consumed. *)
Lemma selectSubreddit_Ok_inv subs postIndex totalPosts tracker k sub tracker' k' :
  selectSubreddit subs postIndex totalPosts tracker k = Ok (sub, tracker', k') →
  ∃ usage,
    omap_get (initSubredditTracker tracker subs) sub = Some usage
    ∧ tracker' = omap_set (initSubredditTracker tracker subs) sub
                   {| su_subreddit := su_subreddit usage;
                      postsThisWeek := S (postsThisWeek usage);
                      lastPostIndex := Z.of_nat postIndex |}
    ∧ k' = k
    ∧ (sub ∈ filter (λ s, isUnposted (initSubredditTracker tracker subs) s = true) subs
       ∨ filter (λ s, isUnposted (initSubredditTracker tracker subs) s = true) subs = []
         ∧ ∃ first, head (sortBy (λ a b, (lastPostIndex a - lastPostIndex b)%Z)
                            (omap_values (initSubredditTracker tracker subs))) = Some first
                    ∧ su_subreddit first = sub).
Proof.
  unfold selectSubreddit. unfold bind at 1, getState at 1.
  set (tracker1 := initSubredditTracker tracker subs).
  set (available := filter (λ s, isUnposted tracker1 s = true) subs).
  intros (sel & s1 & k1 & Hsel & Hrun)%bind_Ok_inv.
  apply bind_Ok_inv in Hrun as (usage & s2 & k2 & Husage & Hrun).
  unfold bind, putState, ret in Hrun. injection Hrun as <- <- <-.
  destruct (omap_get tracker1 sel) as [u|] eqn:Hget; [|done].
  unfold defined, ret in Husage. injection Husage as <- <- <-.
  exists u.
  assert (s1 = tracker ∧ k1 = k
          ∧ (sel ∈ available
             ∨ available = []
               ∧ ∃ first, head (sortBy (λ a b, (lastPostIndex a - lastPostIndex b)%Z)
                                  (omap_values tracker1)) = Some first
                          ∧ su_subreddit first = sel)) as (-> & -> & Hwhich).
  { destruct (Nat.eqb (length available) 0) eqn:Hav.
    - apply Nat.eqb_eq, length_zero_iff_nil in Hav.
      apply bind_Ok_inv in Hsel as (first & s3 & k3 & Hfirst & Hret).
      unfold ret in Hret. injection Hret as <- <- <-.
      destruct (head _) as [f|] eqn:Hhead; [|done].
      unfold defined, ret in Hfirst. injection Hfirst as <- <- <-.
      split; [done|]. split; [done|]. right. split; [done|]. by exists f.
    - destruct (available !! _) as [s|] eqn:Hlook; [|done].
      unfold defined, ret in Hsel. injection Hsel as <- <- <-.
      split; [done|]. split; [done|]. left. by eapply list_elem_of_lookup_2. }
  done.
Qed.

Lemma filedUnder_step subs postIndex totalPosts tracker k sub tracker' k' :
  filedUnder subs tracker →
  selectSubreddit subs postIndex totalPosts tracker k = Ok (sub, tracker', k') →
  filedUnder subs tracker' ∧ sub ∈ subs.
Proof.
  intros Hfiled (usage & Hget & -> & -> & Hwhich)%selectSubreddit_Ok_inv.
  assert (Hfiled1 : filedUnder subs (initSubredditTracker tracker subs)).
  { intros s u [Hin|[-> Hin]]%initSubredditTracker_filedUnder; [by apply Hfiled | done]. }
  apply omap_get_elem_of in Hget as Hin. destruct (Hfiled1 _ _ Hin) as [Hname Hsub].
  split; [|done].
  intros s u [[= -> ->]|Hin']%omap_set_elem_of; [done | by apply Hfiled1].
Qed.

Lemma selectSubreddit_total subs postIndex totalPosts tracker k :
  subs ≠ [] → filedUnder subs tracker →
  ∃ sub tracker', selectSubreddit subs postIndex totalPosts tracker k = Ok (sub, tracker', k).
Proof.
  intros Hne Hfiled.
  set (tracker1 := initSubredditTracker tracker subs).
  assert (Hfiled1 : filedUnder subs tracker1).
  { intros s u [Hin|[-> Hin]]%initSubredditTracker_filedUnder; [by apply Hfiled | done]. }
  set (available := filter (λ s, isUnposted tracker1 s = true) subs).
  assert (Hsel : ∃ sel usage,
    (if Nat.eqb (length available) 0 then
       let! first := defined (head (sortBy (λ a b, (lastPostIndex a - lastPostIndex b)%Z)
                                      (omap_values tracker1))) in
       ret (su_subreddit first)
     else defined (available !! (postIndex mod length available)%nat)) tracker k
    = Ok (sel, tracker, k) ∧ omap_get tracker1 sel = Some usage).
  { destruct (Nat.eqb (length available) 0) eqn:Hav.
    - destruct subs as [|s0 subs']; [done|].
      assert (is_Some (omap_get tracker1 s0)) as [u0 Hu0].
      { unfold tracker1. rewrite initSubredditTracker_get.
        destruct (omap_get tracker s0); [by eexists|].
        rewrite decide_True by (by left). by eexists. }
      destruct (sortBy (λ a b, (lastPostIndex a - lastPostIndex b)%Z)
                  (omap_values tracker1)) as [|first rest] eqn:Hsorted.
      + exfalso. apply omap_get_elem_of in Hu0.
        assert (u0 ∈ omap_values tracker1) as Hin
          by (unfold omap_values; apply list_elem_of_fmap; by exists (s0, u0)).
        rewrite <- (sortBy_Permutation (λ a b, (lastPostIndex a - lastPostIndex b)%Z)) in Hin.
        rewrite Hsorted in Hin. by apply elem_of_nil in Hin.
      + assert (first ∈ omap_values tracker1) as Hin.
        { rewrite <- (sortBy_Permutation (λ a b, (lastPostIndex a - lastPostIndex b)%Z)),
            Hsorted. by left. }
        unfold omap_values in Hin. apply list_elem_of_fmap in Hin as ([s u] & -> & Hin).
        destruct (Hfiled1 _ _ Hin) as [Hname _]. cbn [snd] in *.
        destruct (omap_elem_of_is_Some _ _ _ Hin) as [u' Hu'].
        exists s, u'. split; [|done]. cbn [head defined snd]. unfold bind, ret.
        by rewrite Hname.
    - apply Nat.eqb_neq in Hav.
      destruct (lookup_lt_is_Some_2 available (postIndex mod length available))
        as [sel Hlook]; [apply Nat.mod_upper_bound; lia|].
      assert (sel ∈ available) as [Hun _]%list_elem_of_filter
        by (by eapply list_elem_of_lookup_2).
      unfold isUnposted in Hun. destruct (omap_get tracker1 sel) as [u|] eqn:Hu; [|done].
      exists sel, u. rewrite Hlook. by split. }
  destruct Hsel as (sel & usage & Hsel & Husage).
  exists sel. eexists. unfold selectSubreddit. unfold bind at 1, getState at 1.
  fold tracker1. fold available.
  rewrite (bind_Ok _ _ _ _ _ _ _ Hsel). rewrite Husage. reflexivity.
Qed.

(** X16: With a non-empty subreddit list, the calls of [selectSubreddit] for any
    number of posts on a fresh strategy all return, with members of the
    list; with an empty list the first call throws a [TypeError]. *)
Theorem selectSubreddits_never_fail (subs : list string) (totalPosts n k : nat) :
  (subs ≠ [] →
   ∃ results tracker',
     selectSubreddits subs totalPosts 0 n SubredditStrategy_new k
       = Ok (results, tracker', k)
     ∧ length results = n
     ∧ ∀ sub, sub ∈ results → sub ∈ subs)
  ∧ (∀ postIndex, selectSubreddit [] postIndex totalPosts SubredditStrategy_new k
                  = Throw TypeError).
Proof.
  split; [|done]. intros Hne.
  assert (H : ∀ n from tracker, filedUnder subs tracker →
    ∃ results tracker',
      selectSubreddits subs totalPosts from n tracker k = Ok (results, tracker', k)
      ∧ length results = n ∧ ∀ sub, sub ∈ results → sub ∈ subs).
  { clear n. induction n as [|n IH]; intros from tracker Hfiled.
    - exists [], tracker. split; [done|]. split; [done|]. by intros ? ?%elem_of_nil.
    - destruct (selectSubreddit_total subs from totalPosts tracker k Hne Hfiled)
        as (sub & tracker1 & Hrun).
      destruct (filedUnder_step _ _ _ _ _ _ _ _ Hfiled Hrun) as [Hfiled1 Hsub].
      destruct (IH (S from) tracker1 Hfiled1) as (rest & tracker2 & Hrest & Hlen & Hin).
      exists (sub :: rest), tracker2. cbn [selectSubreddits].
      rewrite (bind_Ok _ _ _ _ _ _ _ Hrun), (bind_Ok _ _ _ _ _ _ _ Hrest).
      split; [done|]. split; [cbn; by rewrite Hlen|].
      intros s [->|Hs]%elem_of_cons; [done | by apply Hin]. }
  apply H. intros s u ?%elem_of_nil. done.
Qed.

(** X17: When no subreddit of the list is left without a post, [selectSubreddit]
    returns the subreddit of a tracked entry whose last post index is least. *)
Theorem selectSubreddit_least_recently_used subs postIndex totalPosts tracker k
    sub tracker' k' :
  (∀ s, s ∈ subs → isUnposted (initSubredditTracker tracker subs) s = false) →
  selectSubreddit subs postIndex totalPosts tracker k = Ok (sub, tracker', k') →
  ∃ usage,
    usage ∈ omap_values (initSubredditTracker tracker subs)
    ∧ su_subreddit usage = sub
    ∧ ∀ other, other ∈ omap_values (initSubredditTracker tracker subs) →
        (lastPostIndex usage ≤ lastPostIndex other)%Z.
Proof.
  intros Hnone (usage & Hget & _ & _ & Hwhich)%selectSubreddit_Ok_inv.
  destruct Hwhich as [[Hun Hin]%list_elem_of_filter|(_ & first & Hhead & Hname)].
  { by rewrite (Hnone sub Hin) in Hun. }
  set (cmp := λ a b : SubredditUsageTracker, (lastPostIndex a - lastPostIndex b)%Z) in *.
  exists first. split; [|split; [done|]].
  - rewrite <- (sortBy_Permutation cmp).
    destruct (sortBy cmp _); [done|]. injection Hhead as ->. by left.
  - intros other Hother.
    assert (cmp first other ≤ 0)%Z; [|unfold cmp in *; lia].
    apply (sortBy_head_least cmp (omap_values (initSubredditTracker tracker subs)));
      [unfold cmp; lia | unfold cmp; lia | done | done].
Qed.

Lemma initSubredditTracker_NoDup subs : ∀ tracker,
  NoDup (omap_keys tracker) → NoDup (omap_keys (initSubredditTracker tracker subs)).
Proof.
  unfold initSubredditTracker.
  induction subs as [|s subs IH]; intros tracker Hnd; cbn [foldl]; [done|].
  apply IH. destruct (omap_has tracker s); [done | by apply omap_set_NoDup].
Qed.

Lemma countsUsed_step subs postIndex totalPosts used tracker k sub tracker' k' :
  tracksUsed used tracker → countsUsed used tracker → NoDup (omap_keys tracker) →
  sub ∉ used →
  selectSubreddit subs postIndex totalPosts tracker k = Ok (sub, tracker', k') →
  countsUsed (sub :: used) tracker' ∧ NoDup (omap_keys tracker').
Proof.
  intros Htracks Hcounts Hnd Hnew (usage & Hget & -> & -> & _)%selectSubreddit_Ok_inv.
  assert (Hcounts1 : countsUsed used (initSubredditTracker tracker subs)).
  { intros s u. rewrite initSubredditTracker_get. specialize (Htracks s).
    destruct (omap_get tracker s) as [u0|] eqn:Hs.
    - intros [= <-]. by apply Hcounts.
    - case_decide; [|done]. intros [= <-]. by rewrite decide_False. }
  split; [|by apply omap_set_NoDup, initSubredditTracker_NoDup].
  intros s u. destruct (decide (sub = s)) as [<-|Hne].
  - rewrite omap_get_set_eq. intros [= <-]. cbn [postsThisWeek].
    rewrite decide_True by (by left). rewrite (Hcounts1 _ _ Hget).
    by rewrite decide_False.
  - rewrite omap_get_set_ne by done. intros Hs. rewrite (Hcounts1 _ _ Hs).
    destruct (decide (s ∈ used)) as [Hin|Hnin].
    + by rewrite decide_True by (by right).
    + rewrite decide_False; [done|]. by intros [->|?]%elem_of_cons.
Qed.

Lemma countsUsed_ext used1 used2 tracker :
  (∀ s, s ∈ used1 ↔ s ∈ used2) → countsUsed used1 tracker → countsUsed used2 tracker.
Proof.
  intros Hsame Hcounts sub usage Hget. rewrite (Hcounts _ _ Hget).
  destruct (decide (sub ∈ used1)) as [Hin|Hnin].
  - by rewrite decide_True by (by apply Hsame).
  - rewrite decide_False; [done|]. by rewrite <- Hsame.
Qed.

Lemma selectSubreddits_counts subs totalPosts n : ∀ from used tracker k,
  tracksUsed used tracker → countsUsed used tracker → NoDup (omap_keys tracker) →
  NoDup used →
  (length used + n ≤ length (remove_dups subs))%nat →
  ∃ results tracker',
    selectSubreddits subs totalPosts from n tracker k = Ok (results, tracker', k)
    ∧ countsUsed (results ++ used) tracker'
    ∧ NoDup (omap_keys tracker').
Proof.
  induction n as [|n IH]; intros from used tracker k Htracks Hcounts Hkeys Hnd Hlen.
  - by exists [], tracker.
  - destruct (selectSubreddit_unused subs from totalPosts used tracker k Htracks Hnd)
      as (sub & tracker1 & Hrun & Hin & Hnew & Htracks1); [lia|].
    destruct (countsUsed_step _ _ _ _ _ _ _ _ _ Htracks Hcounts Hkeys Hnew Hrun)
      as [Hcounts1 Hkeys1].
    destruct (IH (S from) (sub :: used) tracker1 k Htracks1 Hcounts1 Hkeys1)
      as (rest & tracker2 & Hrest & Hcounts2 & Hkeys2).
    { by constructor. }
    { cbn [length]. lia. }
    exists (sub :: rest), tracker2. cbn [selectSubreddits].
    rewrite (bind_Ok _ _ _ _ _ _ _ Hrun), (bind_Ok _ _ _ _ _ _ _ Hrest).
    split; [done|]. split; [|done].
    eapply countsUsed_ext; [|exact Hcounts2].
    intros s. cbn [app]. repeat (rewrite elem_of_app || rewrite elem_of_cons). tauto.
Qed.

(** X18: When the list has at least [totalPosts] distinct subreddits, after the
    calls for a whole week on a fresh strategy the tracker counts exactly one
    post for each subreddit returned and none for the others: no subreddit is
    overposted. *)
Theorem selectSubreddits_usage (subs : list string) (totalPosts k : nat) :
  (totalPosts ≤ length (remove_dups subs))%nat →
  ∃ results tracker',
    selectSubreddits subs totalPosts 0 totalPosts SubredditStrategy_new k
      = Ok (results, tracker', k)
    ∧ (∀ sub usage, omap_get tracker' sub = Some usage →
         postsThisWeek usage = if decide (sub ∈ results) then 1%nat else 0%nat)
    ∧ (∀ sub, isOverposted sub tracker' k = Ok (false, tracker', k))
    ∧ getOverpostedSubreddits tracker' k = Ok ([], tracker', k).
Proof.
  intros Hlen.
  destruct (selectSubreddits_counts subs totalPosts totalPosts 0 [] SubredditStrategy_new k)
    as (results & tracker' & Hrun & Hcounts & Hkeys).
  - intros sub. cbn. apply not_elem_of_nil.
  - by intros sub usage.
  - constructor.
  - constructor.
  - cbn [length]. lia.
  - rewrite app_nil_r in Hcounts.
    assert (Hone : ∀ sub usage, omap_get tracker' sub = Some usage →
              (postsThisWeek usage ≤ 1)%nat).
    { intros sub usage Hget. rewrite (Hcounts _ _ Hget). case_decide; lia. }
    exists results, tracker'. split; [done|]. split; [exact Hcounts|]. split.
    + intros sub. unfold isOverposted, bind, getState, ret.
      destruct (omap_get tracker' sub) as [usage|] eqn:Hget; [|done].
      specialize (Hone _ _ Hget). destruct (Nat.ltb 1 _) eqn:Hlt; [|done].
      apply Nat.ltb_lt in Hlt. lia.
    + unfold getOverpostedSubreddits, bind, getState, ret.
      destruct (filter (λ usage, (1 < postsThisWeek usage)%nat) (omap_values tracker'))
        as [|usage rest] eqn:Hfilter; [done|]. exfalso.
      assert (usage ∈ filter (λ usage, (1 < postsThisWeek usage)%nat)
                (omap_values tracker')) as [Hlt Hin]%list_elem_of_filter
        by (rewrite Hfilter; by left).
      unfold omap_values in Hin. apply list_elem_of_fmap in Hin as ([sub u] & -> & Hin).
      apply (omap_elem_of_get _ _ _ Hkeys) in Hin. specialize (Hone _ _ Hin).
      cbn [snd] in Hlt. lia.
Qed.

(** ** More on keyword rotation *)

Lemma markKeywordUsed_Ok_inv id postIndex st k u st' k' :
  markKeywordUsed id postIndex st k = Ok (u, st', k') →
  k' = k
  ∧ keywordCombinations st' = keywordCombinations st
  ∧ kw_usageTracker st' = bumpKeyword postIndex (kw_usageTracker st) id.
Proof.
  unfold markKeywordUsed, bind, getState, putState, bumpKeyword.
  destruct (kw_usageTracker st !! id) as [usage|]; [|done].
  cbn [defined]. unfold ret. by intros [= _ <- <-].
Qed.

Lemma selectUnseenCombination_tracker keywordCount postIndex sortedKeywords :
  ∀ selectedKeywords st k result st' k',
  selectUnseenCombination keywordCount postIndex sortedKeywords selectedKeywords st k
    = Ok (result, st', k') →
  ∃ picked,
    result = selectedKeywords ++ picked
    ∧ keywordCombinations st' = keywordCombinations st
    ∧ kw_usageTracker st'
      = foldl (bumpKeyword postIndex) (kw_usageTracker st) (keyword_id <$> picked).
Proof.
  induction sortedKeywords as [|keyword rest IH]; intros selected st k result st' k';
    cbn [selectUnseenCombination].
  - unfold ret. intros [= <- <- _]. exists []. by rewrite app_nil_r.
  - destruct (Nat.leb keywordCount (length selected)).
    { unfold ret. intros [= <- <- _]. exists []. by rewrite app_nil_r. }
    unfold bind at 1, getState at 1. destruct (_ || _).
    + intros (u & s1 & k1 & Hmark & Hrun)%bind_Ok_inv.
      apply markKeywordUsed_Ok_inv in Hmark as (-> & Hc1 & Ht1).
      apply IH in Hrun as (picked & -> & Hc2 & Ht2).
      exists (keyword :: picked). rewrite <- app_assoc. split; [done|].
      split; [congruence|]. rewrite Ht2, Ht1. done.
    + intros Hrun. apply IH in Hrun as (picked & -> & Hc2 & Ht2). by exists picked.
Qed.

Lemma fillLeastUsed_tracker keywordCount postIndex sortedKeywords :
  ∀ selectedKeywords st k result st' k',
  fillLeastUsed keywordCount postIndex sortedKeywords selectedKeywords st k
    = Ok (result, st', k') →
  ∃ added,
    result = selectedKeywords ++ added
    ∧ keywordCombinations st' = keywordCombinations st
    ∧ kw_usageTracker st'
      = foldl (bumpKeyword postIndex) (kw_usageTracker st) (keyword_id <$> added).
Proof.
  induction sortedKeywords as [|keyword rest IH]; intros selected st k result st' k';
    cbn [fillLeastUsed].
  - unfold ret. intros [= <- <- _]. exists []. by rewrite app_nil_r.
  - destruct (Nat.leb keywordCount (length selected)).
    { unfold ret. intros [= <- <- _]. exists []. by rewrite app_nil_r. }
    destruct (negb _).
    + intros (u & s1 & k1 & Hmark & Hrun)%bind_Ok_inv.
      apply markKeywordUsed_Ok_inv in Hmark as (-> & Hc1 & Ht1).
      apply IH in Hrun as (added & -> & Hc2 & Ht2).
      exists (keyword :: added). rewrite <- app_assoc. split; [done|].
      split; [congruence|]. rewrite Ht2, Ht1. done.
    + intros Hrun. apply IH in Hrun as (added & -> & Hc2 & Ht2). by exists added.
Qed.

Lemma bumpKeyword_fold postIndex (ids : list string) :
  ∀ (tracker : gmap string KeywordUsageTracker) (id : string),
  NoDup ids →
  foldl (bumpKeyword postIndex) tracker ids !! id
  = if decide (id ∈ ids) then usedOnceMore postIndex <$> tracker !! id
    else tracker !! id.
Proof.
  induction ids as [|id0 ids IH]; intros tracker id Hnd; cbn [foldl].
  - by rewrite decide_False by apply not_elem_of_nil.
  - apply NoDup_cons in Hnd as [Hid0 Hnd]. rewrite IH by done.
    unfold bumpKeyword. destruct (decide (id = id0)) as [->|Hne].
    + rewrite decide_False by done. rewrite decide_True by (by left).
      destruct (tracker !! id0) eqn:Hl; [by rewrite lookup_insert_eq | by rewrite Hl].
    + assert ((match tracker !! id0 with
               | Some usage => <[id0:=usedOnceMore postIndex usage]> tracker
               | None => tracker
               end) !! id = tracker !! id) as ->.
      { destruct (tracker !! id0); [by rewrite lookup_insert_ne | done]. }
      destruct (decide (id ∈ ids)) as [Hin|Hnin].
      * by rewrite decide_True by (by right).
      * rewrite decide_False; [done|]. by intros [?|?]%elem_of_cons.
Qed.

(** The whole run of [selectKeywordsForPost] on keywords with distinct ids. *)
Lemma selectKeywordsForPost_run availableKeywords postIndex subreddit st k :
  NoDup (keyword_id <$> availableKeywords) →
  let tracker := initKeywordTracker (kw_usageTracker st) availableKeywords in
  let keywordCount := if Qltb (random k) double_0_6 then 2%nat else 3%nat in
  ∃ selected st',
    selectKeywordsForPost availableKeywords postIndex subreddit st k
      = Ok (selected, st', S k)
    ∧ length selected = Nat.min keywordCount (length availableKeywords)
    ∧ NoDup (keyword_id <$> selected)
    ∧ (∀ kw, kw ∈ selected → kw ∈ availableKeywords)
    ∧ keywordCombinations st' = {[combinationOf selected]} ∪ keywordCombinations st
    ∧ ∀ id, kw_usageTracker st' !! id
            = if decide (id ∈ keyword_id <$> selected)
              then usedOnceMore postIndex <$> tracker !! id
              else tracker !! id.
Proof.
  intros Hnodup tracker keywordCount.
  set (st0 := {| kw_usageTracker := tracker; keywordCombinations := keywordCombinations st |}).
  destruct (withKeywordUsage_ok tracker availableKeywords st0 (S k))
    as (ranked & Hranked & Hfst); [apply initKeywordTracker_tracks|].
  set (sortedKeywords := (sortBy compareKeywordUsage ranked).*1).
  assert (Hperm : sortedKeywords ≡ₚ availableKeywords).
  { unfold sortedKeywords. by rewrite sortBy_Permutation, Hfst. }
  assert (Hsorted_nd : NoDup (keyword_id <$> sortedKeywords)) by (by rewrite Hperm).
  assert (Htracked : ∀ kw, kw ∈ sortedKeywords →
            is_Some (kw_usageTracker st0 !! keyword_id kw)).
  { intros kw Hkw. rewrite Hperm in Hkw. by apply initKeywordTracker_tracks. }
  destruct (selectUnseenCombination_spec keywordCount postIndex sortedKeywords [] st0 (S k) Htracked)
    as (picked & st1 & Hloop1 & Hsub1 & Hlen1 & Hkeep1).
  cbn [app length] in Hloop1, Hlen1.
  destruct (selectUnseenCombination_tracker _ _ _ _ _ _ _ _ _ Hloop1)
    as (picked' & Hpicked & Hc1 & Ht1).
  cbn [app] in Hpicked. subst picked'.
  assert (Hpicked_nd : NoDup (keyword_id <$> picked)).
  { apply (sublist_NoDup _ (keyword_id <$> sortedKeywords)); [exact Hsorted_nd|].
    by apply fmap_sublist. }
  assert (Hfill : ∃ added st2,
    (if Nat.ltb (length picked) keywordCount
     then fillLeastUsed keywordCount postIndex sortedKeywords picked
     else ret picked) st1 (S k) = Ok (picked ++ added, st2, S k)
    ∧ length (picked ++ added) = Nat.min keywordCount (length availableKeywords)
    ∧ NoDup (keyword_id <$> (picked ++ added))
    ∧ (∀ kw, kw ∈ picked ++ added → kw ∈ sortedKeywords)
    ∧ keywordCombinations st2 = keywordCombinations st1
    ∧ kw_usageTracker st2
      = foldl (bumpKeyword postIndex) (kw_usageTracker st1) (keyword_id <$> added)).
  { assert (Hupper : ∀ l : list Keyword,
              NoDup (keyword_id <$> l) → (∀ kw, kw ∈ l → kw ∈ sortedKeywords) →
              (length l ≤ length availableKeywords)%nat).
    { intros l Hl Hin. rewrite <- (Permutation_length Hperm).
      rewrite <- (length_fmap keyword_id l), <- (length_fmap keyword_id sortedKeywords).
      apply submseteq_length, NoDup_submseteq; [done|].
      intros id (kw & -> & Hkw)%list_elem_of_fmap. apply list_elem_of_fmap_2. by apply Hin. }
    destruct (Nat.ltb (length picked) keywordCount) eqn:Hshort.
    - apply Nat.ltb_lt in Hshort.
      destruct (fillLeastUsed_spec keywordCount postIndex sortedKeywords picked st1 (S k))
        as (added & st2 & Hrun & Hsub2 & Hnew & Hlen2 & Hall & _).
      { intros kw Hkw. apply Hkeep1, Htracked, Hkw. }
      destruct (fillLeastUsed_tracker _ _ _ _ _ _ _ _ _ Hrun)
        as (added' & Hadded & Hc2 & Ht2).
      apply app_inv_head in Hadded. subst added'.
      assert (Hnd : NoDup (keyword_id <$> (picked ++ added))).
      { rewrite fmap_app. apply NoDup_app. split; [done|]. split.
        - intros id Hid (kw & -> & Hkw)%list_elem_of_fmap. by apply (Hnew kw Hkw).
        - apply (sublist_NoDup _ (keyword_id <$> sortedKeywords)); [exact Hsorted_nd|].
          by apply fmap_sublist. }
      assert (Hfrom : ∀ kw, kw ∈ picked ++ added → kw ∈ sortedKeywords).
      { intros kw [Hkw|Hkw]%elem_of_app;
          [exact (sublist_subseteq _ _ Hsub1 kw Hkw) | exact (sublist_subseteq _ _ Hsub2 kw Hkw)]. }
      exists added, st2. split; [done|]. split; [|done].
      pose proof (Hupper _ Hnd Hfrom) as Hup.
      destruct Hall as [Hall|Hall]; [lia|].
      assert ((keyword_id <$> sortedKeywords) ⊆+ (keyword_id <$> (picked ++ added))) as Hincl.
      { apply NoDup_submseteq; [done|].
        intros id (kw & -> & Hkw)%list_elem_of_fmap. by apply Hall. }
      apply submseteq_length in Hincl. rewrite !length_fmap in Hincl.
      apply Permutation_length in Hperm. lia.
    - apply Nat.ltb_ge in Hshort. exists [], st1. rewrite app_nil_r.
      assert (Hfrom : ∀ kw, kw ∈ picked → kw ∈ sortedKeywords)
        by (intros kw Hkw; exact (sublist_subseteq _ _ Hsub1 kw Hkw)).
      pose proof (Hupper _ Hpicked_nd Hfrom).
      split; [done|]. split; [lia|]. done. }
  destruct Hfill as (added & st2 & Hrun2 & Hlen & Hnd & Hfrom & Hc2 & Ht2).
  exists (picked ++ added). eexists.
  split; [|split; [done|split; [done|split; [|split]]]].
  - unfold selectKeywordsForPost.
    unfold bind at 1, getState at 1. unfold bind at 1, putState at 1.
    unfold bind at 1, Math_random at 1.
    fold tracker. fold st0. fold keywordCount.
    rewrite (bind_Ok _ _ _ _ _ _ _ Hranked). fold sortedKeywords.
    rewrite (bind_Ok _ _ _ _ _ _ _ Hloop1).
    rewrite (bind_Ok _ _ _ _ _ _ _ Hrun2).
    reflexivity.
  - intros kw Hkw. rewrite <- Hperm. by apply Hfrom.
  - cbn [keywordCombinations]. by rewrite Hc2, Hc1.
  - intros id. cbn [kw_usageTracker]. rewrite Ht2, Ht1, <- foldl_app, <- fmap_app.
    by apply bumpKeyword_fold.
Qed.

(** X19: On keywords with distinct ids, [selectKeywordsForPost] returns 2 keywords
    when the draw is below the number that the literal 0.6 denotes and 3
    otherwise, or all of them when fewer are supplied (a single keyword
    alone, none for an empty list), with distinct ids, from the supplied
    list. *)
Theorem selectKeywordsForPost_count availableKeywords postIndex subreddit st k :
  NoDup (keyword_id <$> availableKeywords) →
  ∃ selected st',
    selectKeywordsForPost availableKeywords postIndex subreddit st k
      = Ok (selected, st', S k)
    ∧ length selected
      = Nat.min (if Qltb (random k) double_0_6 then 2 else 3) (length availableKeywords)
    ∧ NoDup (keyword_id <$> selected)
    ∧ ∀ kw, kw ∈ selected → kw ∈ availableKeywords.
Proof.
  intros Hnd.
  destruct (selectKeywordsForPost_run availableKeywords postIndex subreddit st k Hnd)
    as (selected & st' & Hrun & Hlen & Hnd' & Hfrom & _).
  by exists selected, st'.
Qed.

(** X20: After [selectKeywordsForPost] on keywords with distinct ids, each
    selected keyword has one more use than before and the current post as
    last use, every other tracker entry is as initialised, and the sorted
    id combination of the selection is recorded. *)
Theorem selectKeywordsForPost_tracks_usage availableKeywords postIndex subreddit st k :
  NoDup (keyword_id <$> availableKeywords) →
  ∃ selected st',
    selectKeywordsForPost availableKeywords postIndex subreddit st k
      = Ok (selected, st', S k)
    ∧ keywordCombinations st' = {[combinationOf selected]} ∪ keywordCombinations st
    ∧ (∀ kw, kw ∈ selected →
         ∃ usage,
           initKeywordTracker (kw_usageTracker st) availableKeywords !! keyword_id kw
             = Some usage
           ∧ kw_usageTracker st' !! keyword_id kw
             = Some {| keywordId := keywordId usage;
                       usageCount := usageCount usage + 1;
                       lastUsedPostIndex := Z.of_nat postIndex |})
    ∧ (∀ id, id ∉ keyword_id <$> selected →
         kw_usageTracker st' !! id
         = initKeywordTracker (kw_usageTracker st) availableKeywords !! id).
Proof.
  intros Hnd.
  destruct (selectKeywordsForPost_run availableKeywords postIndex subreddit st k Hnd)
    as (selected & st' & Hrun & _ & _ & Hfrom & Hcombos & Htracker).
  exists selected, st'. split; [done|]. split; [done|]. split.
  - intros kw Hkw.
    destruct (initKeywordTracker_tracks availableKeywords (kw_usageTracker st) kw)
      as [usage Husage]; [by apply Hfrom|].
    exists usage. split; [done|]. rewrite Htracker.
    rewrite decide_True by (by apply list_elem_of_fmap_2). by rewrite Husage.
  - intros id Hid. rewrite Htracker. by rewrite decide_False.
Qed.

(** ** More on persona rotation *)

Lemma insertBy_ordered {A} (cmp : A → A → Z) (x : A) (l : list A) :
  (∀ a b, (cmp a b ≤ 0)%Z ∨ (cmp b a ≤ 0)%Z) →
  (∀ a b c, (cmp a b ≤ 0)%Z → (cmp b c ≤ 0)%Z → (cmp a c ≤ 0)%Z) →
  ordered cmp l → ordered cmp (insertBy cmp x l).
Proof.
  intros Htotal Htrans. induction l as [|y l IH]; cbn [insertBy ordered].
  - intros _. split; [by intros ? ?%elem_of_nil | done].
  - intros [Hy Hl]. destruct (cmp x y <=? 0)%Z eqn:Hxy; cbn [ordered].
    + apply Z.leb_le in Hxy. split; [|done].
      intros z [->|Hz]%elem_of_cons; [done|]. eapply Htrans; [exact Hxy | by apply Hy].
    + apply Z.leb_gt in Hxy. split; [|by apply IH].
      intros z Hz. rewrite insertBy_Permutation in Hz.
      apply elem_of_cons in Hz as [->|Hz]; [|by apply Hy].
      destruct (Htotal x y); [lia | done].
Qed.

Lemma sortBy_ordered {A} (cmp : A → A → Z) (l : list A) :
  (∀ a b, (cmp a b ≤ 0)%Z ∨ (cmp b a ≤ 0)%Z) →
  (∀ a b c, (cmp a b ≤ 0)%Z → (cmp b c ≤ 0)%Z → (cmp a c ≤ 0)%Z) →
  ordered cmp (sortBy cmp l).
Proof.
  intros Htotal Htrans. induction l as [|x l IH]; [done|].
  by apply insertBy_ordered.
Qed.

Lemma ordered_take_drop {A} (cmp : A → A → Z) (l : list A) (n : nat) (x y : A) :
  ordered cmp l → x ∈ take n l → y ∈ drop n l → (cmp x y ≤ 0)%Z.
Proof.
  revert n. induction l as [|z l IH]; intros n Hord Hx Hy.
  - rewrite take_nil in Hx. by apply elem_of_nil in Hx.
  - destruct n as [|n]; [by apply elem_of_nil in Hx|].
    cbn [take drop ordered] in *. destruct Hord as [Hz Hord].
    apply elem_of_cons in Hx as [->|Hx]; [|by eapply IH].
    apply Hz. eapply sublist_subseteq; [apply sublist_drop | exact Hy].
Qed.

Lemma comparePostUsage_total a b :
  (comparePostUsage a b ≤ 0)%Z ∨ (comparePostUsage b a ≤ 0)%Z.
Proof. unfold comparePostUsage. repeat case_bool_decide; lia. Qed.

Lemma comparePostUsage_trans a b c :
  (comparePostUsage a b ≤ 0)%Z → (comparePostUsage b c ≤ 0)%Z →
  (comparePostUsage a c ≤ 0)%Z.
Proof. unfold comparePostUsage. repeat case_bool_decide; lia. Qed.

Lemma compareCommentUsage_total a b :
  (compareCommentUsage a b ≤ 0)%Z ∨ (compareCommentUsage b a ≤ 0)%Z.
Proof. unfold compareCommentUsage. repeat case_bool_decide; lia. Qed.

Lemma compareCommentUsage_trans a b c :
  (compareCommentUsage a b ≤ 0)%Z → (compareCommentUsage b c ≤ 0)%Z →
  (compareCommentUsage a c ≤ 0)%Z.
Proof. unfold compareCommentUsage. repeat case_bool_decide; lia. Qed.

Lemma initPersonaTracker_lookup personas : ∀ tracker name,
  initPersonaTracker tracker personas !! name
  = match tracker !! name with
    | Some usage => Some usage
    | None =>
        if decide (name ∈ username <$> personas)
        then Some {| pu_username := name; postCount := 0; commentCount := 0;
                     lastUsedIndex := -1 |}
        else None
    end.
Proof.
  unfold initPersonaTracker.
  induction personas as [|p personas IH]; intros tracker name; cbn [foldl].
  - destruct (tracker !! name); [done|]. by rewrite decide_False by apply not_elem_of_nil.
  - rewrite IH, fmap_cons. destruct (tracker !! username p) eqn:Hp.
    + destruct (tracker !! name) eqn:Hn; [done|].
      destruct (decide (name ∈ username <$> personas)) as [Hin|Hnin].
      * by rewrite decide_True by (by right).
      * rewrite decide_False; [done|].
        intros [->|?]%elem_of_cons; [congruence | done].
    + destruct (decide (username p = name)) as [<-|Hne].
      * rewrite lookup_insert_eq, Hp. by rewrite decide_True by (by left).
      * rewrite lookup_insert_ne by done. destruct (tracker !! name); [done|].
        destruct (decide (name ∈ username <$> personas)) as [Hin|Hnin].
        -- by rewrite decide_True by (by right).
        -- rewrite decide_False; [done|]. by intros [->|?]%elem_of_cons.
Qed.

Lemma initPersonaTracker_postsOf personas tracker name :
  postsOf (initPersonaTracker tracker personas) name = postsOf tracker name.
Proof.
  unfold postsOf. rewrite initPersonaTracker_lookup.
  destruct (tracker !! name); [done|]. by case_decide.
Qed.

Lemma withPersonaUsage_lookup tracker personas st k ranked st' k' :
  withPersonaUsage tracker personas st k = Ok (ranked, st', k') →
  st' = st ∧ k' = k ∧ ∀ p u, (p, u) ∈ ranked → p ∈ personas ∧ tracker !! username p = Some u.
Proof.
  revert ranked st k st' k'.
  induction personas as [|p l IH]; intros ranked st k st' k'; cbn [withPersonaUsage].
  - unfold ret. intros [= <- <- <-]. split; [done|]. split; [done|].
    by intros ? ? ?%elem_of_nil.
  - intros (usage & s1 & k1 & Hu & H)%bind_Ok_inv.
    apply bind_Ok_inv in H as (others & s2 & k2 & Ho & H).
    unfold ret in H. injection H as <- <- <-.
    destruct (tracker !! username p) eqn:Hp; [|done]. unfold defined, ret in Hu.
    injection Hu as <- <- <-.
    destruct (IH _ _ _ _ _ Ho) as (-> & -> & Hin).
    split; [done|]. split; [done|].
    intros q u [[= -> ->]|Hq]%elem_of_cons; [split; [by left | done]|].
    destruct (Hin _ _ Hq). split; [by right | done].
Qed.

(** What a call of [selectPostAuthor] that returns has done. *)
Lemma selectPostAuthor_Ok_inv personas postIndex tracker k p tracker' k' :
  selectPostAuthor personas postIndex tracker k = Ok (p, tracker', k') →
  let init := initPersonaTracker tracker personas in
  ∃ usage,
    k' = k ∧ p ∈ personas
    ∧ init !! username p = Some usage
    ∧ tracker' = <[username p := {| pu_username := pu_username usage;
                                    postCount := postCount usage + 1;
                                    commentCount := commentCount usage;
                                    lastUsedIndex := Z.of_nat postIndex |}]> init
    ∧ ∀ q, q ∈ personas → (postsOf init (username p) ≤ postsOf init (username q))%Z.
Proof.
  unfold selectPostAuthor. unfold bind at 1, getState at 1.
  unfold bind at 1, putState at 1.
  set (init := initPersonaTracker tracker personas).
  intros (ranked & s1 & k1 & Hranked & Hrun)%bind_Ok_inv. cbv zeta.
  pose proof (withPersonaUsage_inv _ _ _ _ _ _ _ Hranked) as Hfst.
  apply withPersonaUsage_lookup in Hranked as (-> & -> & Hlook).
  apply bind_Ok_inv in Hrun as ([p0 u0] & s2 & k2 & Hfirst & Hrun).
  destruct (head (sortBy comparePostUsage ranked)) as [first|] eqn:Hhead; [|done].
  unfold defined, ret in Hfirst. injection Hfirst as -> <- <-.
  cbn [fst] in Hrun.
  assert ((p0, u0) ∈ ranked) as Hin.
  { rewrite <- (sortBy_Permutation comparePostUsage).
    destruct (sortBy comparePostUsage ranked); [done|]. injection Hhead as ->. by left. }
  destruct (Hlook _ _ Hin) as [Hp0 Hu0]. rewrite Hu0 in Hrun.
  unfold bind, defined, ret, putState in Hrun. injection Hrun as <- <- <-.
  exists u0. split; [done|]. split; [done|]. split; [done|]. split; [done|].
  intros q Hq.
  assert (∃ uq, (q, uq) ∈ ranked) as [uq Hquq].
  { rewrite <- Hfst in Hq. apply list_elem_of_fmap in Hq as ([q' uq] & -> & Hq). by exists uq. }
  destruct (Hlook _ _ Hquq) as [_ Huq].
  unfold postsOf. rewrite Hu0, Huq. cbn.
  assert (comparePostUsage (p0, u0) (q, uq) ≤ 0)%Z as Hle.
  { apply (sortBy_head_least comparePostUsage ranked);
      [apply comparePostUsage_total | apply comparePostUsage_trans | done | done]. }
  unfold comparePostUsage in Hle. cbn [snd] in Hle. case_bool_decide; lia.
Qed.

Lemma selectPostAuthor_total personas postIndex tracker k :
  personas ≠ [] →
  ∃ p tracker', selectPostAuthor personas postIndex tracker k = Ok (p, tracker', k).
Proof.
  intros Hne. unfold selectPostAuthor. unfold bind at 1, getState at 1.
  unfold bind at 1, putState at 1.
  set (init := initPersonaTracker tracker personas).
  destruct (withPersonaUsage_ok init personas init k) as (ranked & Hranked).
  { intros p Hp. unfold init. rewrite initPersonaTracker_lookup.
    destruct (tracker !! username p); [by eexists|].
    rewrite decide_True by (by apply list_elem_of_fmap_2). by eexists. }
  rewrite (bind_Ok _ _ _ _ _ _ _ Hranked).
  pose proof (withPersonaUsage_inv _ _ _ _ _ _ _ Hranked) as Hfst.
  apply withPersonaUsage_lookup in Hranked as (_ & _ & Hlook).
  destruct (sortBy comparePostUsage ranked) as [|[p u] rest] eqn:Hsorted.
  - exfalso. apply Hne. rewrite <- Hfst.
    apply (f_equal length) in Hsorted. rewrite length_sortBy in Hsorted.
    by destruct ranked.
  - assert ((p, u) ∈ ranked) as Hin.
    { rewrite <- (sortBy_Permutation comparePostUsage), Hsorted. by left. }
    destruct (Hlook _ _ Hin) as [_ Hu].
    exists p. eexists. cbn [head defined]. unfold bind at 1, ret at 1. cbn [fst].
    rewrite Hu. reflexivity.
Qed.

(** X21: [selectPostAuthor] on a non-empty list returns one of the personas, one
    with the fewest posts so far, and adds one to its post count; on an empty
    list it throws a [TypeError]. *)
Theorem selectPostAuthor_fewest_posts personas postIndex
    (tracker : gmap string PersonaUsageTracker) k :
  (personas ≠ [] →
   ∃ p tracker',
     selectPostAuthor personas postIndex tracker k = Ok (p, tracker', k)
     ∧ p ∈ personas
     ∧ (∀ q, q ∈ personas →
          (postsOf tracker (username p) ≤ postsOf tracker (username q))%Z)
     ∧ postsOf tracker' (username p) = (postsOf tracker (username p) + 1)%Z
     ∧ ∀ name, name ≠ username p → postsOf tracker' name = postsOf tracker name)
  ∧ selectPostAuthor [] postIndex tracker k = Throw TypeError.
Proof.
  split; [|done]. intros Hne.
  destruct (selectPostAuthor_total personas postIndex tracker k Hne)
    as (p & tracker' & Hrun).
  exists p, tracker'. split; [done|].
  destruct (selectPostAuthor_Ok_inv _ _ _ _ _ _ _ Hrun)
    as (usage & _ & Hp & Husage & -> & Hleast).
  split; [done|]. split; [|split].
  - intros q Hq. specialize (Hleast q Hq). by rewrite !initPersonaTracker_postsOf in Hleast.
  - rewrite <- (initPersonaTracker_postsOf personas tracker).
    unfold postsOf. by rewrite lookup_insert_eq, Husage.
  - intros name Hname. rewrite <- (initPersonaTracker_postsOf personas tracker name).
    unfold postsOf. by rewrite lookup_insert_ne.
Qed.

(** X22: The post counts of a fresh matcher are evenly spread, and a call of
    [selectPostAuthor] keeps them so: with one persona list the authors'
    post counts never differ by more than one. *)
Theorem selectPostAuthor_evenly_spread personas postIndex
    (tracker : gmap string PersonaUsageTracker) k p tracker' k' :
  evenlySpread personas PersonaMatcher_new
  ∧ (evenlySpread personas tracker →
     selectPostAuthor personas postIndex tracker k = Ok (p, tracker', k') →
     evenlySpread personas tracker').
Proof.
  split.
  - exists 0%Z. intros q _. unfold postsOf, PersonaMatcher_new.
    rewrite lookup_empty. cbn. lia.
  - intros [m Hm] Hrun.
    destruct (selectPostAuthor_Ok_inv _ _ _ _ _ _ _ Hrun)
      as (usage & _ & Hp & Husage & -> & Hleast).
    assert (Hposts : ∀ name,
      postsOf (<[username p := {| pu_username := pu_username usage;
                                  postCount := postCount usage + 1;
                                  commentCount := commentCount usage;
                                  lastUsedIndex := Z.of_nat postIndex |}]>
                 (initPersonaTracker tracker personas)) name
      = (postsOf tracker name + if decide (name = username p) then 1 else 0)%Z).
    { intros name. case_decide as Hname.
      - subst. rewrite <- (initPersonaTracker_postsOf personas tracker).
        unfold postsOf. by rewrite lookup_insert_eq, Husage.
      - rewrite <- (initPersonaTracker_postsOf personas tracker name).
        unfold postsOf. rewrite lookup_insert_ne by done. lia. }
    assert (Hleast' : ∀ q, q ∈ personas →
              (postsOf tracker (username p) ≤ postsOf tracker (username q))%Z).
    { intros q Hq. specialize (Hleast q Hq).
      by rewrite !initPersonaTracker_postsOf in Hleast. }
    destruct (decide (postsOf tracker (username p) = m)) as [Hlow|Hhigh].
    + exists m. intros q Hq. rewrite Hposts. specialize (Hm q Hq).
      case_decide as Hname; [rewrite Hname in *; lia | lia].
    + exists (m + 1)%Z. intros q Hq. rewrite Hposts.
      pose proof (Hm p Hp). pose proof (Hm q Hq). pose proof (Hleast' q Hq).
      case_decide as Hname; [rewrite Hname in *; lia | lia].
Qed.

Lemma markCommenters_Ok_inv selectedPersonas postIndex :
  ∀ (tracker : gmap string PersonaUsageTracker) k u tracker' k',
  markCommenters selectedPersonas postIndex tracker k = Ok (u, tracker', k') →
  k' = k
  ∧ ∀ name,
      commentsOf tracker' name
      = (commentsOf tracker name
         + Z.of_nat (occurrences name (username <$> selectedPersonas)))%Z
      ∧ postsOf tracker' name = postsOf tracker name.
Proof.
  induction selectedPersonas as [|p l IH]; intros tracker k u tracker' k';
    cbn [markCommenters].
  - unfold ret. intros [= _ <- <-]. split; [done|]. intros name.
    unfold occurrences. cbn. split; [lia | done].
  - unfold bind at 1, getState at 1.
    destruct (tracker !! username p) as [usage|] eqn:Husage; [|done].
    cbn [defined]. unfold bind at 1, ret at 1. unfold bind at 1, putState at 1.
    intros Hrun. apply IH in Hrun as [-> Hrun]. split; [done|].
    intros name. destruct (Hrun name) as [-> ->].
    rewrite fmap_cons, occurrences_cons. unfold commentsOf, postsOf.
    case_decide as Hname.
    + rewrite Hname in *. rewrite lookup_insert_eq, Husage. cbn. split; [lia | done].
    + rewrite lookup_insert_ne by done. split; [lia | done].
Qed.

(** X23: What [selectCommentAuthors] returns. When the post author is the only
    persona it returns the author alone and leaves the tracker as it is.
    Otherwise it returns the commenters, followed by the post author when
    the second draw is below 0.7: the commenters are taken from the personas
    other than the author (each at most as often as it is listed), as many
    as are available up to a number from 2 to 4, none of them has more
    comments so far than a persona that was passed over, and the tracker's
    comment counts grow by exactly the returned names while its post counts
    stay. *)
Theorem selectCommentAuthors_least_commented personas postAuthor postIndex
    (tracker : gmap string PersonaUsageTracker) k selected tracker' k' :
  (0 <= random k)%Q → (random k < 1)%Q →
  selectCommentAuthors personas postAuthor postIndex tracker k
    = Ok (selected, tracker', k') →
  let available := filter (λ p, username p ≠ username postAuthor) personas in
  (available = [] ∧ selected = [postAuthor] ∧ tracker' = tracker ∧ k' = k)
  ∨ (available ≠ [] ∧ k' = S (S k)
     ∧ ∃ commenters,
         selected = commenters
                    ++ (if Qltb (random (S k)) double_0_7 then [postAuthor] else [])
         ∧ (∃ n, (2 ≤ n ≤ 4)%nat
                 ∧ length commenters = Nat.min n (length available))
         ∧ commenters ⊆+ available
         ∧ (∀ p q, p ∈ commenters → q ∈ available → q ∉ commenters →
              (commentsOf tracker (username p) ≤ commentsOf tracker (username q))%Z)
         ∧ ∀ name,
             commentsOf tracker' name
             = (commentsOf tracker name
                + Z.of_nat (occurrences name (username <$> selected)))%Z
             ∧ postsOf tracker' name = postsOf tracker name).
Proof.
  intros Hlo Hhi. unfold selectCommentAuthors.
  set (available := filter (λ p, username p ≠ username postAuthor) personas).
  destruct (Nat.eqb (length available) 0) eqn:Hempty.
  { unfold ret. intros [= <- <- <-]. left.
    apply Nat.eqb_eq in Hempty. by destruct available. }
  apply Nat.eqb_neq in Hempty. intros Hrun. right.
  split; [by intros Hnil; rewrite Hnil in Hempty|].
  pose proof (selectCommentAuthors_count (random k) (length available) Hlo Hhi ltac:(lia))
    as Hcount.
  remember (Nat.min (Z.to_nat (2 + floorTimes (random k) 3)) (length available))
    as commenterCount eqn:Hcc.
  unfold bind at 1, Math_random at 1 in Hrun. rewrite <- Hcc in Hrun.
  unfold bind at 1, getState at 1 in Hrun.
  apply bind_Ok_inv in Hrun as (ranked & s1 & k1 & Hranked & Hrun).
  pose proof (withPersonaUsage_inv _ _ _ _ _ _ _ Hranked) as Hfst.
  apply withPersonaUsage_lookup in Hranked as (-> & -> & Hlook).
  set (sorted := sortBy compareCommentUsage ranked) in *.
  set (commenters := (take commenterCount sorted).*1) in *.
  assert (Hlen : length commenters = commenterCount).
  { unfold commenters, sorted. rewrite length_fmap, length_take, length_sortBy.
    rewrite <- (length_fmap fst ranked), Hfst. lia. }
  assert (Hn : ∃ n, (2 ≤ n ≤ 4)%nat
                    ∧ length commenters = Nat.min n (length available)).
  { exists (Z.to_nat (2 + floorTimes (random k) 3)).
    pose proof (floorTimes_range (random k) 3 Hlo Hhi ltac:(lia)).
    split; [lia | by rewrite Hlen, Hcc]. }
  assert (Hsub : commenters ⊆+ available).
  { rewrite <- Hfst, <- (sortBy_Permutation compareCommentUsage ranked).
    apply sublist_submseteq, fmap_sublist, sublist_take. }
  assert (Hleast : ∀ p q, p ∈ commenters → q ∈ available → q ∉ commenters →
            (commentsOf tracker (username p) ≤ commentsOf tracker (username q))%Z).
  { intros p q Hp Hq Hnq.
    apply list_elem_of_fmap in Hp as ([p' up] & -> & Hp). cbn [fst].
    rewrite <- Hfst in Hq. apply list_elem_of_fmap in Hq as ([q' uq] & -> & Hq).
    cbn [fst] in *.
    assert ((p', up) ∈ ranked) as Hpr.
    { rewrite <- (sortBy_Permutation compareCommentUsage ranked).
      eapply sublist_subseteq; [apply sublist_take | exact Hp]. }
    destruct (Hlook _ _ Hpr) as [_ Hup]. destruct (Hlook _ _ Hq) as [_ Huq].
    unfold commentsOf. rewrite Hup, Huq. cbn.
    assert ((q', uq) ∈ drop commenterCount sorted) as Hqd.
    { rewrite <- (sortBy_Permutation compareCommentUsage ranked) in Hq.
      fold sorted in Hq. rewrite <- (take_drop commenterCount sorted) in Hq.
      apply elem_of_app in Hq as [Hq|Hq]; [|done].
      exfalso. apply Hnq. unfold commenters. apply list_elem_of_fmap.
      by exists (q', uq). }
    assert (compareCommentUsage (p', up) (q', uq) ≤ 0)%Z as Hle.
    { apply (ordered_take_drop compareCommentUsage sorted commenterCount); [|done|done].
      apply sortBy_ordered;
        [apply compareCommentUsage_total | apply compareCommentUsage_trans]. }
    unfold compareCommentUsage in Hle. cbn [snd] in Hle. case_bool_decide; lia. }
  apply bind_Ok_inv in Hrun as (u & tracker1 & k2 & Hmark & Hrun).
  apply markCommenters_Ok_inv in Hmark as [-> Hmark].
  unfold bind at 1, Math_random at 1 in Hrun.
  assert (Nat.ltb 0 (length commenters) = true) as Hpos
    by (apply Nat.ltb_lt; lia).
  rewrite Hpos, andb_true_r in Hrun.
  destruct (Qltb (random (S k)) double_0_7).
  - unfold bind at 1, getState at 1 in Hrun.
    destruct (tracker1 !! username postAuthor) as [usage|] eqn:Husage; [|done].
    cbn [defined] in Hrun. unfold bind, ret, putState in Hrun.
    injection Hrun as <- <- <-. split; [done|].
    exists commenters. split; [done|]. split; [done|]. split; [done|].
    split; [done|]. intros name. destruct (Hmark name) as [Hc Hp].
    rewrite fmap_app, occurrences_app, <- Hp. cbn [fmap list_fmap].
    rewrite occurrences_cons. unfold occurrences at 2. cbn [filter list_filter length].
    unfold commentsOf, postsOf in *. case_decide as Hname.
    + rewrite Hname in *. rewrite lookup_insert_eq. rewrite Husage in Hc, Hp |- *.
      cbn in *. split; [lia | done].
    + rewrite lookup_insert_ne by done. split; [lia | done].
  - unfold ret in Hrun. injection Hrun as <- <- <-. split; [done|].
    exists commenters. rewrite app_nil_r. done.
Qed.

(** ** More on the content generator *)

Lemma zoom_Ok_inv {S T A} (proj : S → T) (upd : T → S → S) (m : M T A) s k a s' k' :
  zoom proj upd m s k = Ok (a, s', k') →
  ∃ t', m (proj s) k = Ok (a, t', k') ∧ s' = upd t' s.
Proof.
  unfold zoom. destruct (m (proj s) k) as [[[a0 t] k0]|e]; [|done].
  intros [= <- <- <-]. by exists t.
Qed.

Lemma zoom_Ok {S T A} (proj : S → T) (upd : T → S → S) (m : M T A) s k a t' k' :
  m (proj s) k = Ok (a, t', k') → zoom proj upd m s k = Ok (a, upd t' s, k').
Proof. unfold zoom. by intros ->. Qed.

Lemma zoom_Throw {S T A} (proj : S → T) (upd : T → S → S) (m : M T A) s k e :
  m (proj s) k = Throw e → zoom proj upd m s k = Throw e.
Proof. unfold zoom. by intros ->. Qed.

Lemma bind_Throw {St A B} (m : M St A) (f : A → M St B) s k e :
  m s k = Throw e → bind m f s k = Throw e.
Proof. intros H. unfold bind. by rewrite H. Qed.

(** [selectKeywordsForPost] returns on every list of keywords, with keywords
    of the list. *)
Lemma selectKeywordsForPost_total availableKeywords postIndex subreddit st k :
  ∃ selected st',
    selectKeywordsForPost availableKeywords postIndex subreddit st k
      = Ok (selected, st', S k)
    ∧ ∀ kw, kw ∈ selected → kw ∈ availableKeywords.
Proof.
  set (tracker := initKeywordTracker (kw_usageTracker st) availableKeywords).
  set (st0 := {| kw_usageTracker := tracker; keywordCombinations := keywordCombinations st |}).
  set (keywordCount := if Qltb (random k) double_0_6 then 2%nat else 3%nat).
  destruct (withKeywordUsage_ok tracker availableKeywords st0 (S k))
    as (ranked & Hranked & Hfst); [apply initKeywordTracker_tracks|].
  set (sortedKeywords := (sortBy compareKeywordUsage ranked).*1).
  assert (Hperm : sortedKeywords ≡ₚ availableKeywords).
  { unfold sortedKeywords. by rewrite sortBy_Permutation, Hfst. }
  assert (Htracked : ∀ kw, kw ∈ sortedKeywords →
            is_Some (kw_usageTracker st0 !! keyword_id kw)).
  { intros kw Hkw. rewrite Hperm in Hkw. by apply initKeywordTracker_tracks. }
  destruct (selectUnseenCombination_spec keywordCount postIndex sortedKeywords [] st0 (S k) Htracked)
    as (picked & st1 & Hloop1 & Hsub1 & _ & Hkeep1).
  cbn [app] in Hloop1.
  assert (Hfill : ∃ selected st2,
    (if Nat.ltb (length picked) keywordCount
     then fillLeastUsed keywordCount postIndex sortedKeywords picked
     else ret picked) st1 (S k) = Ok (selected, st2, S k)
    ∧ ∀ kw, kw ∈ selected → kw ∈ sortedKeywords).
  { destruct (Nat.ltb (length picked) keywordCount).
    - destruct (fillLeastUsed_spec keywordCount postIndex sortedKeywords picked st1 (S k))
        as (added & st2 & Hrun & Hsub2 & _).
      { intros kw Hkw. apply Hkeep1, Htracked, Hkw. }
      exists (picked ++ added), st2. split; [done|].
      intros kw [Hkw|Hkw]%elem_of_app;
        [exact (sublist_subseteq _ _ Hsub1 kw Hkw) | exact (sublist_subseteq _ _ Hsub2 kw Hkw)].
    - exists picked, st1. split; [done|].
      intros kw Hkw. exact (sublist_subseteq _ _ Hsub1 kw Hkw). }
  destruct Hfill as (selected & st2 & Hrun2 & Hfrom).
  exists selected. eexists. split.
  - unfold selectKeywordsForPost.
    unfold bind at 1, getState at 1. unfold bind at 1, putState at 1.
    unfold bind at 1, Math_random at 1.
    fold tracker. fold st0. fold keywordCount.
    rewrite (bind_Ok _ _ _ _ _ _ _ Hranked). fold sortedKeywords.
    rewrite (bind_Ok _ _ _ _ _ _ _ Hloop1).
    rewrite (bind_Ok _ _ _ _ _ _ _ Hrun2).
    reflexivity.
  - intros kw Hkw. rewrite <- Hperm. by apply Hfrom.
Qed.

(** What phase 1 has planned when it returns. *)
Lemma createPostPlansFrom_Ok_inv input weekStart n : ∀ i s k plans s' k',
  filedUnder (subreddits (company input)) (subredditStrategy s) →
  createPostPlansFrom input weekStart i n s k = Ok (plans, s', k') →
  postIndex <$> plans = seq i n ∧ Forall (plannedFrom input) plans.
Proof.
  induction n as [|n IH]; intros i s k plans s' k' Hfiled; cbn [createPostPlansFrom].
  - unfold ret. by intros [= <- _ _].
  - intros (sub & s1 & k1 & Hsub & Hrun)%bind_Ok_inv.
    apply zoom_Ok_inv in Hsub as (t1 & Hsub & ->).
    apply filedUnder_step in Hsub as [Hfiled1 Hin]; [|done].
    apply bind_Ok_inv in Hrun as (selectedKeywords & s2 & k2 & Hkw & Hrun).
    apply zoom_Ok_inv in Hkw as (t2 & Hkw & ->).
    match type of Hkw with
    | selectKeywordsForPost ?a ?b ?c ?d ?e = _ =>
        destruct (selectKeywordsForPost_total a b c d e) as (sel & st2 & Hkw' & Hfrom)
    end.
    rewrite Hkw' in Hkw. injection Hkw as <- <- <-.
    apply bind_Ok_inv in Hrun as (who & s3 & k3 & Hwho & Hrun).
    apply zoom_Ok_inv in Hwho as (t3 & Hwho & ->).
    apply selectPostAuthor_Ok_inv in Hwho as (usage & _ & Hp & _).
    apply bind_Ok_inv in Hrun as (time & s4 & k4 & Htime & Hrun).
    rewrite generatePostTime_eq in Htime. injection Htime as _ <- _.
    apply bind_Ok_inv in Hrun as (plans0 & s5 & k5 & Hrest & Hret).
    unfold ret in Hret. injection Hret as <- _ _.
    apply IH in Hrest as [Hidx Hall]; [|done].
    split; [by rewrite fmap_cons, Hidx|].
    constructor; [|done]. done.
Qed.

Lemma bind_returns {St A B} (m : M St A) (f : A → M St B) s k a s1 k1 :
  m s k = Ok (a, s1, k1) → (∃ r, f a s1 k1 = Ok r) → ∃ r, bind m f s k = Ok r.
Proof. intros Hm [r Hr]. exists r. by rewrite (bind_Ok _ _ _ _ _ _ _ Hm). Qed.

(** Phase 1 returns when there is a subreddit and a persona. *)
Lemma createPostPlansFrom_total input weekStart n : ∀ i s k,
  subreddits (company input) ≠ [] → personas input ≠ [] →
  filedUnder (subreddits (company input)) (subredditStrategy s) →
  ∃ r, createPostPlansFrom input weekStart i n s k = Ok r.
Proof.
  induction n as [|n IH]; intros i s k Hsubs Hpersonas Hfiled; cbn [createPostPlansFrom].
  - by eexists.
  - destruct (selectSubreddit_total (subreddits (company input)) i
                (postsPerWeek (company input)) (subredditStrategy s) k Hsubs Hfiled)
      as (sub & t1 & Hsub).
    pose proof (filedUnder_step _ _ _ _ _ _ _ _ Hfiled Hsub) as [Hfiled1 _].
    eapply bind_returns; [apply zoom_Ok, Hsub|].
    match goal with
    | |- ∃ _, bind (onKeywordStrategy (selectKeywordsForPost ?a ?b ?c)) _ ?st ?kk = _ =>
        destruct (selectKeywordsForPost_total a b c (keywordStrategy st) kk)
          as (sel & t2 & Hkw & _)
    end.
    eapply bind_returns; [apply zoom_Ok, Hkw|].
    match goal with
    | |- ∃ _, bind _ _ ?st ?kk = _ =>
        destruct (selectPostAuthor_total (personas input) i (personaMatcher st) kk Hpersonas)
          as (who & t3 & Hwho)
    end.
    eapply bind_returns; [apply zoom_Ok, Hwho|].
    eapply bind_returns; [apply generatePostTime_eq|].
    match goal with
    | |- ∃ _, bind _ _ ?st ?kk = _ =>
        destruct (IH (S i) st kk Hsubs Hpersonas Hfiled1) as ([[plans s'] k'] & Hrest)
    end.
    eapply bind_returns; [exact Hrest|]. by eexists.
Qed.


(** Phase 2 stops at the first request the service fails. *)
Lemma generatePostsFrom_Throw input plans : ∀ call s k j e,
  (call ≤ j < call + length plans)%nat →
  (∀ i req, (call ≤ i < j)%nat → ∃ r, aiGeneratePost i req = Ok r) →
  (∀ req, aiGeneratePost j req = Throw e) →
  generatePostsFrom plans input call s k = Throw e.
Proof.
  induction plans as [|plan rest IH]; intros call s k j e Hj Hbefore Hfail;
    cbn [generatePostsFrom length] in *; [lia|].
  destruct (decide (j = call)) as [->|Hne].
  - apply bind_Throw. unfold await. by rewrite Hfail.
  - match goal with
    | |- bind (await (aiGeneratePost call ?req)) _ _ _ = _ =>
        destruct (Hbefore call req ltac:(lia)) as [r Hr]; rewrite Hr
    end.
    unfold bind at 1, await at 1. apply bind_Throw.
    apply (IH (S call) s k j e); [lia| |done].
    intros i req Hi. apply Hbefore. lia.
Qed.

(** X28: A failed request for the post at index [j] ends [generate] with the
    service's error, when there is a subreddit and a persona to plan with
    and the requests before it succeeded: nothing is retried or skipped. *)
Theorem generate_post_failure input (s : ContentGenerator) k (j : nat) (e : Exn) :
  subreddits (company input) ≠ [] → personas input ≠ [] →
  (j < postsPerWeek (company input))%nat →
  (∀ i req, (i < j)%nat → ∃ r, aiGeneratePost i req = Ok r) →
  (∀ req, aiGeneratePost j req = Throw e) →
  generate input s k = Throw e.
Proof.
  intros Hsubs Hpersonas Hj Hbefore Hfail.
  unfold generate. apply bind_Throw. unfold assemble.
  unfold bind at 1, putState at 1. unfold createWeeklyPostPlan.
  destruct (createPostPlansFrom_total input (startOfWeek (now 0))
              (postsPerWeek (company input)) 0 ContentGenerator_new k Hsubs Hpersonas)
    as ([[plans s1] k1] & Hplans).
  { by intros sub usage ?%elem_of_nil. }
  rewrite (bind_Ok _ _ _ _ _ _ _ Hplans).
  apply createPostPlansFrom_Ok_inv in Hplans as [Hidx _];
    [|by intros sub usage ?%elem_of_nil].
  apply bind_Throw. unfold generatePosts.
  apply (generatePostsFrom_Throw input plans 0 s1 k1 j e); [|intros; apply Hbefore; lia|done].
  apply (f_equal length) in Hidx. rewrite length_fmap, length_seq in Hidx. lia.
Qed.

(** X29: With a post to plan, [generate] throws a [TypeError] when the company
    lists no subreddit, and when it lists one but there is no persona. *)
Theorem generate_empty_lists input (s : ContentGenerator) k :
  (1 ≤ postsPerWeek (company input))%nat →
  subreddits (company input) = [] ∨ personas input = [] →
  generate input s k = Throw TypeError.
Proof.
  intros Hposts Hempty.
  unfold generate. apply bind_Throw. unfold assemble.
  unfold bind at 1, putState at 1. apply bind_Throw. unfold createWeeklyPostPlan.
  destruct (postsPerWeek (company input)) as [|n] eqn:Hn; [lia|].
  cbn [createPostPlansFrom]. rewrite Hn.
  unfold onSubredditStrategy, onKeywordStrategy, onPersonaMatcher.
  destruct (decide (subreddits (company input) = [])) as [Hsubs|Hsubs].
  - apply bind_Throw. apply zoom_Throw. by rewrite Hsubs.
  - destruct Hempty as [?|Hpersonas]; [done|].
    destruct (selectSubreddit_total (subreddits (company input)) 0 (S n)
                (subredditStrategy ContentGenerator_new) k Hsubs) as (sub & t1 & Hsub).
    { by intros sub usage ?%elem_of_nil. }
    rewrite (bind_Ok _ _ _ _ _ _ _ (zoom_Ok subredditStrategy _ _ _ _ _ _ _ Hsub)).
    match goal with
    | |- bind (zoom _ _ (selectKeywordsForPost ?a ?b ?c)) _ ?st ?kk = _ =>
        destruct (selectKeywordsForPost_total a b c (keywordStrategy st) kk)
          as (sel & t2 & Hkw & _)
    end.
    rewrite (bind_Ok _ _ _ _ _ _ _ (zoom_Ok keywordStrategy _ _ _ _ _ _ _ Hkw)).
    apply bind_Throw. apply zoom_Throw. by rewrite Hpersonas.
Qed.



Lemma selectCommentAuthors_from personas postAuthor postIndex
    (tracker : gmap string PersonaUsageTracker) k selected tracker' k' :
  (0 <= random k)%Q → (random k < 1)%Q →
  selectCommentAuthors personas postAuthor postIndex tracker k
    = Ok (selected, tracker', k') →
  selected ≠ [] ∧ ∀ p, p ∈ selected → p ∈ personas ∨ p = postAuthor.
Proof.
  intros Hlo Hhi. unfold selectCommentAuthors.
  set (available := filter (λ p, username p ≠ username postAuthor) personas).
  destruct (Nat.eqb (length available) 0) eqn:Hempty.
  { unfold ret. intros [= <- _ _]. split; [done|].
    intros p ->%list_elem_of_singleton. by right. }
  apply Nat.eqb_neq in Hempty. intros Hrun.
  pose proof (selectCommentAuthors_count (random k) (length available) Hlo Hhi ltac:(lia))
    as Hcount.
  remember (Nat.min (Z.to_nat (2 + floorTimes (random k) 3)) (length available))
    as commenterCount eqn:Hcc.
  unfold bind at 1, Math_random at 1 in Hrun. rewrite <- Hcc in Hrun.
  unfold bind at 1, getState at 1 in Hrun.
  apply bind_Ok_inv in Hrun as (ranked & s1 & k1 & Hranked & Hrun).
  apply withPersonaUsage_inv in Hranked as Hfst.
  set (commenters := (take commenterCount (sortBy compareCommentUsage ranked)).*1) in *.
  assert (Hlen : length commenters = commenterCount).
  { unfold commenters. rewrite length_fmap, length_take, length_sortBy.
    rewrite <- (length_fmap fst ranked), Hfst. lia. }
  assert (Hfrom : ∀ p, p ∈ commenters → p ∈ personas).
  { intros p Hp.
    assert (p ∈ available) as [_ ?]%list_elem_of_filter; [|done].
    rewrite <- Hfst, <- (sortBy_Permutation compareCommentUsage ranked).
    revert Hp. apply sublist_subseteq, fmap_sublist, sublist_take. }
  apply bind_Ok_inv in Hrun as (u & s2 & k2 & _ & Hrun).
  unfold bind at 1, Math_random at 1 in Hrun.
  destruct (_ && _).
  - unfold bind at 1, getState at 1 in Hrun.
    apply bind_Ok_inv in Hrun as (usage & s3 & k3 & _ & Hrun).
    unfold bind, putState, ret in Hrun. injection Hrun as <- _ _. split.
    + intros Hnil. apply (f_equal length) in Hnil.
      rewrite length_app in Hnil. cbn in Hnil. lia.
    + intros p [Hp| ->%list_elem_of_singleton]%elem_of_app; [left; by apply Hfrom | by right].
  - unfold ret in Hrun. injection Hrun as <- _ _. split.
    + intros Hnil. rewrite Hnil in Hlen. cbn in Hlen. lia.
    + intros p Hp. left. by apply Hfrom.
Qed.

Lemma createCommentPlansFrom_authors postAuthor personas : ∀ i s k plans s' k',
  createCommentPlansFrom i personas postAuthor s k = Ok (plans, s', k') →
  cp_author <$> plans = personas.
Proof.
  induction personas as [|persona rest IH]; intros i s k plans s' k';
    cbn [createCommentPlansFrom].
  - unfold ret. by intros [= <- _ _].
  - intros (plan0 & s1 & k1 & Hplan & Hrest)%bind_Ok_inv.
    apply bind_Ok_inv in Hrest as (plans0 & s2 & k2 & Hrest & Hret).
    unfold ret in Hret. injection Hret as <- _ _.
    rewrite fmap_cons, (IH _ _ _ _ _ _ Hrest). f_equal.
    unfold createCommentPlan in Hplan.
    apply bind_Ok_inv in Hplan as ([[pos parent] mention] & s3 & k3 & _ & Hret).
    unfold ret in Hret. by injection Hret as <- _ _.
Qed.

Lemma generateThread_Ok_inv post input commentPlans :
  ∀ allComments commentIdCounter s k allComments' commentIdCounter' s' k',
  generateThread post input commentPlans allComments commentIdCounter s k
    = Ok ((allComments', commentIdCounter'), s', k') →
  ∃ new,
    allComments' = allComments ++ new
    ∧ c_username <$> new = username <$> (cp_author <$> commentPlans)
    ∧ ∀ c, c ∈ new → c_post_id c = post_id post.
Proof.
  induction commentPlans as [|commentPlan rest IH];
    intros all counter s k all' counter' s' k'; cbn [generateThread].
  - unfold ret. intros [= <- _ _ _]. exists []. rewrite app_nil_r.
    split; [done|]. split; [done|]. by intros c ?%elem_of_nil.
  - intros (result & s1 & k1 & _ & Hrun)%bind_Ok_inv.
    apply bind_Ok_inv in Hrun as (commentTimestamp & s2 & k2 & _ & Hrun).
    apply IH in Hrun as (new & -> & Hnames & Hpost).
    eexists (_ :: new). rewrite <- app_assoc. split; [reflexivity|].
    split; [by rewrite !fmap_cons, Hnames|].
    intros c [->|Hc]%elem_of_cons; [done | by apply Hpost].
Qed.

(** What phase 3 has added when it returns: one thread for each post. *)
Lemma generateCommentsFrom_Ok_inv postPlans input posts :
  (∀ j, (0 <= random j)%Q ∧ (random j < 1)%Q) →
  Forall (plannedFrom input) postPlans →
  ∀ i allComments commentIdCounter s k result s' k',
  generateCommentsFrom posts postPlans input i allComments commentIdCounter s k
    = Ok (result, s', k') →
  ∃ threads,
    result = allComments ++ concat threads ∧ Forall2 (threadOf input) posts threads.
Proof.
  intros Hrange Hplanned.
  induction posts as [|post rest IH];
    intros i all counter s k result s' k'; cbn [generateCommentsFrom].
  - unfold ret. intros [= <- _ _]. exists []. by rewrite app_nil_r.
  - intros (plan & s1 & k1 & Hplan & Hrun)%bind_Ok_inv.
    destruct (postPlans !! i) as [plan0|] eqn:Hi; [|done].
    unfold defined, ret in Hplan. injection Hplan as -> <- <-.
    apply list_elem_of_lookup_2 in Hi.
    rewrite Forall_forall in Hplanned. destruct (Hplanned plan Hi) as (_ & Hauthor & _).
    unfold bind at 1, Math_random at 1 in Hrun.
    apply bind_Ok_inv in Hrun as (commentingPersonas & s3 & k3 & Hwho & Hrun).
    apply zoom_Ok_inv in Hwho as (t3 & Hwho & ->).
    destruct (Hrange (S k)) as [Hlo1 Hhi1].
    apply selectCommentAuthors_from in Hwho as [Hne Hfrom]; [|done..].
    apply bind_Ok_inv in Hrun as (commentPlans & s4 & k4 & Hplans & Hrun).
    unfold createCommentPlans in Hplans.
    apply createCommentPlansFrom_authors in Hplans.
    apply bind_Ok_inv in Hrun as ([all' counter'] & s5 & k5 & Hthread & Hrun).
    apply generateThread_Ok_inv in Hthread as (new & -> & Hnames & Hpost).
    apply IH in Hrun as (threads & -> & Hthreads).
    exists (new :: threads). cbn [concat]. rewrite <- app_assoc. split; [done|].
    constructor; [|done]. rewrite Hplans in Hnames. split.
    + rewrite <- (length_fmap c_username), Hnames, length_fmap, length_take.
      destruct (Hrange k) as [Hlo Hhi].
      pose proof (floorTimes_range (random k) 3 Hlo Hhi ltac:(lia)).
      assert (1 ≤ length commentingPersonas)%nat
        by (destruct commentingPersonas; [done | cbn; lia]).
      lia.
    + intros c Hc. split; [by apply Hpost|].
      apply (list_elem_of_fmap_2 c_username) in Hc. rewrite Hnames in Hc.
      apply list_elem_of_fmap in Hc as (p & -> & Hp).
      apply (sublist_subseteq _ _ (sublist_take _ _)) in Hp.
      destruct (Hfrom p Hp) as [?| ->]; by apply list_elem_of_fmap_2.
Qed.

Lemma fmap_concat {A B} (f : A → B) (ls : list (list A)) :
  f <$> concat ls = concat ((λ l : list A, f <$> l) <$> ls).
Proof.
  induction ls as [|l ls IH]; [done|]. cbn [concat]. by rewrite fmap_app, IH.
Qed.

Lemma fixTimestampIssues_comments (posts : list GeneratedPost)
    (comments : list GeneratedComment) :
  (fixTimestampIssues posts comments).2 = fixComment (fixPost <$> posts) <$> comments.
Proof. reflexivity. Qed.

Lemma fixComment_same (posts : list GeneratedPost) (c : GeneratedComment) :
  c_post_id (fixComment posts c) = c_post_id c
  ∧ c_username (fixComment posts c) = c_username c.
Proof. unfold fixComment. by repeat case_match. Qed.

(** X27: In every calendar that [generate] returns the comments are the threads
    of the posts, one after the other in the order of the posts: each post
    has between one and four comments, all on that post and by personas of
    the input. *)
Theorem generate_threads input (s : ContentGenerator) k calendar s' k' :
  (∀ j, (0 <= random j)%Q ∧ (random j < 1)%Q) →
  generate input s k = Ok (calendar, s', k') →
  ∃ threads,
    comments calendar = concat threads
    ∧ Forall2 (threadOf input) (posts calendar) threads.
Proof.
  intros Hrange. unfold generate.
  intros ([posts0 comments0] & s1 & k1 & Hassemble & Hrun)%bind_Ok_inv.
  pose proof (fixTimestampIssues_posts posts0 comments0) as Hposts.
  pose proof (fixTimestampIssues_comments posts0 comments0) as Hcomments.
  destruct (fixTimestampIssues posts0 comments0) as [posts1 comments1].
  cbn [fst snd] in Hposts, Hcomments. subst posts1 comments1.
  destruct (negb _); [done|]. unfold ret in Hrun. injection Hrun as <- _ _.
  cbn [posts comments].
  unfold assemble in Hassemble.
  apply bind_Ok_inv in Hassemble as (u & s2 & k2 & Hput & Hassemble).
  unfold putState in Hput. injection Hput as _ <- <-.
  apply bind_Ok_inv in Hassemble as (postPlans & s3 & k3 & Hplans & Hassemble).
  apply bind_Ok_inv in Hassemble as (posts' & s4 & k4 & _ & Hassemble).
  apply bind_Ok_inv in Hassemble as (comments' & s5 & k5 & Hthreads & Hret).
  unfold ret in Hret. injection Hret as <- <- _ _.
  apply createPostPlansFrom_Ok_inv in Hplans as [_ Hplanned];
    [|by intros sub usage ?%elem_of_nil].
  apply generateCommentsFrom_Ok_inv in Hthreads as (threads & -> & Hthreads); [|done..].
  exists ((λ thread : list GeneratedComment,
            fixComment (fixPost <$> posts') <$> thread) <$> threads).
  split; [apply fmap_concat|].
  apply Forall2_fmap_2. eapply Forall2_impl; [exact Hthreads|].
  intros post thread [Hlen Hall]. split; [by rewrite length_fmap|].
  intros c (c0 & -> & Hc0)%list_elem_of_fmap.
  destruct (fixComment_same (fixPost <$> posts') c0) as [-> ->].
  by apply Hall.
Qed.

(** ** ICP mapping *)

Lemma prefix_spec (sub s : string) :
  String.prefix sub s = true ↔ ∃ post, s = sub +:+ post.
Proof.
  revert s. induction sub as [|a sub IH]; intros s.
  - split; [intros _; by exists s | intros _; by destruct s].
  - destruct s as [|b s]; simpl; [split; [done | by intros [post [=]]]|].
    destruct (ascii_dec a b) as [->|Hne].
    + rewrite IH. split; intros [post H]; exists post.
      * cbn. by rewrite H.
      * by injection H.
    + split; [done|]. intros [post [= ? _]]. congruence.
Qed.

Lemma includes_spec (s sub : string) : includes s sub = true ↔ occursIn sub s.
Proof.
  unfold occursIn. induction s as [|c s IH]; cbn [includes].
  - rewrite orb_false_r, prefix_spec. split.
    + intros [post H]. by exists EmptyString, post.
    + intros (pre & post & H). destruct pre; [by exists post|done].
  - rewrite orb_true_iff, prefix_spec, IH. split.
    + intros [[post H]|(pre & post & H)].
      * by exists EmptyString, post.
      * exists (String c pre), post. cbn. by rewrite H.
    + intros ([|c' pre] & post & H).
      * left. by exists post.
      * right. injection H as _ H. by exists pre, post.
Qed.

Lemma lowerChar_idemp (c : ascii) : lowerChar (lowerChar c) = lowerChar c.
Proof. by destruct c as [[] [] [] [] [] [] [] []]. Qed.

Lemma toLowerCase_idemp (s : string) : toLowerCase (toLowerCase s) = toLowerCase s.
Proof.
  induction s as [|c s IH]; [done|]. cbn [toLowerCase]. by rewrite lowerChar_idemp, IH.
Qed.

(** X25: A segment that [mapICPToSubreddit] returns is one of the table, and
    keywords of that segment occur in the lower-cased subreddit name and in
    the lower-cased description; the answer does not depend on the case of
    either text. *)
Theorem mapICPToSubreddit_segment (subreddit companyDescription segment : string) :
  mapICPToSubreddit subreddit companyDescription = Some segment →
  (∃ kws kw1 kw2,
     (segment, kws) ∈ icpMappings ∧ kw1 ∈ kws ∧ kw2 ∈ kws
     ∧ occursIn kw1 (toLowerCase subreddit)
     ∧ occursIn kw2 (toLowerCase companyDescription))
  ∧ mapICPToSubreddit (toLowerCase subreddit) (toLowerCase companyDescription)
    = Some segment.
Proof.
  intros Hmap. split; [|unfold mapICPToSubreddit in *; by rewrite !toLowerCase_idemp].
  unfold mapICPToSubreddit in Hmap.
  destruct (find _ icpMappings) as [[seg kws]|] eqn:Hfind; [|done].
  injection Hmap as <-.
  apply find_some in Hfind as [Hin Hmatch].
  apply andb_true_iff in Hmatch as [Hsub Hdesc].
  apply existsb_exists in Hsub as (kw1 & Hkw1 & Hsub).
  apply existsb_exists in Hdesc as (kw2 & Hkw2 & Hdesc).
  exists kws, kw1, kw2. rewrite !list_elem_of_In.
  split; [done|]. split; [done|]. split; [done|].
  split; by apply includes_spec.
Qed.

(** ** Minutes between two dates *)

(** X1: [getMinutesDifference] is the number of whole minutes from the first
    date to the second, rounded down; [isValidCommentTime] holds exactly when
    the comment is at least one minute and less than seven days after the
    post. *)
Theorem getMinutesDifference_floor (date1 date2 amount : Z) :
  (getMinutesDifference date1 date2 * msPerMinute ≤ date2 - date1
   < (getMinutesDifference date1 date2 + 1) * msPerMinute)%Z
  ∧ getMinutesDifference date1 (addMinutes date1 amount) = amount
  ∧ (isValidCommentTime date1 date2 = true
     ↔ (msPerMinute ≤ date2 - date1 < 7 * msPerDay)%Z).
Proof.
  split; [|split].
  - unfold getMinutesDifference, msPerMinute.
    Z.to_euclidean_division_equations; lia.
  - unfold getMinutesDifference, addMinutes, msPerMinute.
    replace (date1 + amount * 60000 - date1)%Z with (amount * 60000)%Z by lia.
    change (1000 * 60)%Z with 60000%Z. by rewrite Z.div_mul.
  - unfold isValidCommentTime, getMinutesDifference, msPerMinute, msPerDay.
    rewrite andb_true_iff, !Z.ltb_lt.
    change (1000 * 60)%Z with 60000%Z. change (7 * 24 * 60)%Z with 10080%Z.
    split; intros H; Z.to_euclidean_division_equations; lia.
Qed.

(** ** The balance check of the persona matcher *)

Lemma foldl_content_bounds (l : list PersonaUsageTracker) : ∀ init : Z,
  (∀ u, u ∈ l → (0 ≤ postCount u + commentCount u)%Z) →
  let total := foldl (λ sum usage, (sum + postCount usage + commentCount usage)%Z) init l in
  (init ≤ total)%Z ∧ ∀ u, u ∈ l → (init + (postCount u + commentCount u) ≤ total)%Z.
Proof.
  induction l as [|u0 l IH]; intros init Hpos; cbn [foldl].
  - split; [lia|]. by intros u ?%elem_of_nil.
  - destruct (IH (init + postCount u0 + commentCount u0)%Z) as [Hinit Hall].
    { intros u Hu. apply Hpos. by right. }
    pose proof (Hpos u0 ltac:(by left)).
    split; [lia|]. intros u [->|Hu]%elem_of_cons; [lia|].
    specialize (Hall u Hu). lia.
Qed.

Lemma Math_max_from (values : list Z) : ∀ a : Z,
  ∃ m,
    foldl (λ acc v, Some (match acc with Some m => Z.max m v | None => v end))
          (Some a) values = Some m
    ∧ (m = a ∨ m ∈ values) ∧ (a ≤ m)%Z ∧ ∀ v, v ∈ values → (v ≤ m)%Z.
Proof.
  induction values as [|v0 values IH]; intros a; cbn [foldl].
  - exists a. split; [done|]. split; [by left|]. split; [lia|]. by intros v ?%elem_of_nil.
  - destruct (IH (Z.max a v0)) as (m & Hm & Hin & Hle & Hall).
    exists m. split; [done|]. split; [|split; [lia|]].
    + destruct Hin as [->|Hin]; [|right; by right].
      destruct (Z.max_spec a v0) as [[_ ->]|[_ ->]]; [right; by left | by left].
    + intros v [->|Hv]%elem_of_cons; [lia | by apply Hall].
Qed.

Lemma Math_max_spec (values : list Z) :
  values ≠ [] →
  ∃ m, Math_max values = Some m ∧ m ∈ values ∧ ∀ v, v ∈ values → (v ≤ m)%Z.
Proof.
  destruct values as [|v0 values]; [done|]. intros _.
  unfold Math_max. cbn [foldl].
  destruct (Math_max_from values v0) as (m & Hm & Hin & Hle & Hall).
  exists m. split; [done|]. split.
  - destruct Hin as [->|Hin]; [by left | by right].
  - intros v [->|Hv]%elem_of_cons; [done | by apply Hall].
Qed.

Lemma Qle_bool_half (m total : Z) :
  (0 < total)%Z →
  Qle_bool (inject_Z m / inject_Z total) (1 # 2) = true ↔ (2 * m ≤ total)%Z.
Proof.
  intros Hpos. destruct total as [|p|p]; [lia| |lia].
  unfold Qle_bool, Qdiv, Qmult, Qinv, inject_Z. cbn [Qnum Qden].
  rewrite Z.leb_le. rewrite Pos.mul_1_l. lia.
Qed.

(** X24: On a tracker without negative counts [isPersonaDistributionBalanced]
    answers true exactly when no persona has more than half of all posts and
    comments counted; it changes nothing. *)
Theorem isPersonaDistributionBalanced_iff (tracker : gmap string PersonaUsageTracker) k :
  (∀ name usage, tracker !! name = Some usage →
     (0 ≤ postCount usage)%Z ∧ (0 ≤ commentCount usage)%Z) →
  ∃ balanced,
    isPersonaDistributionBalanced tracker k = Ok (balanced, tracker, k)
    ∧ (balanced = true ↔
       ∀ name, (2 * (postsOf tracker name + commentsOf tracker name)
                ≤ totalContentOf tracker)%Z).
Proof.
  intros Hpos.
  unfold isPersonaDistributionBalanced, bind, getState.
  assert (Hin : ∀ u, u ∈ (map_to_list tracker).*2 ↔ ∃ name, tracker !! name = Some u).
  { intros u. rewrite list_elem_of_fmap. split.
    - intros ([name u'] & -> & Hu). exists name. by apply elem_of_map_to_list.
    - intros [name Hu]. exists (name, u). split; [done|]. by apply elem_of_map_to_list. }
  assert (Hpos' : ∀ u, u ∈ (map_to_list tracker).*2 →
                    (0 ≤ postCount u + commentCount u)%Z).
  { intros u [name Hu]%Hin. destruct (Hpos name u Hu). lia. }
  destruct (foldl_content_bounds _ 0%Z Hpos') as [Htotal Hall].
  fold (totalContentOf tracker) in Htotal, Hall.
  assert (Hcontent : ∀ name,
    (postsOf tracker name + commentsOf tracker name)%Z
    = match tracker !! name with
      | Some u => (postCount u + commentCount u)%Z
      | None => 0%Z
      end).
  { intros name. unfold postsOf, commentsOf. by destruct (tracker !! name). }
  destruct (totalContentOf tracker =? 0)%Z eqn:Hzero.
  - apply Z.eqb_eq in Hzero. exists true. split; [done|]. split; [|done].
    intros _ name. rewrite Hcontent.
    destruct (tracker !! name) as [u|] eqn:Hu; [|lia].
    assert (u ∈ (map_to_list tracker).*2) as Hu' by (apply Hin; by exists name).
    specialize (Hall u Hu'). specialize (Hpos' u Hu'). lia.
  - apply Z.eqb_neq in Hzero.
    set (contents := (λ usage, (postCount usage + commentCount usage)%Z)
                       <$> (map_to_list tracker).*2).
    destruct (Math_max_spec contents) as (m & -> & Hm & Hmax).
    { unfold contents. intros Hnil. apply fmap_nil_inv in Hnil.
      apply Hzero. unfold totalContentOf. by rewrite Hnil. }
    eexists. split; [reflexivity|].
    rewrite Qle_bool_half by lia. split.
    + intros Hhalf name. rewrite Hcontent.
      destruct (tracker !! name) as [u|] eqn:Hu; [|lia].
      assert (postCount u + commentCount u ≤ m)%Z; [|lia].
      apply Hmax. unfold contents. apply list_elem_of_fmap. exists u.
      split; [done|]. apply Hin. by exists name.
    + intros Hbal. unfold contents in Hm.
      apply list_elem_of_fmap in Hm as (u & -> & [name Hu]%Hin).
      specialize (Hbal name). rewrite Hcontent, Hu in Hbal. lia.
Qed.

End Planner.

(** * The properties on the sample data *)

(** C1: in the sample run the comment [C5], planned as a reply under post
    [P2], has parent [C1], a comment of post [P1]; the first comment created
    for [P2] is [C4]. The parent id written by [createCommentPlans] is the
    literal [C1] and [generateComments] never replaces it. *)
Theorem reply_parent_in_another_post :
  threadsOf <$> valueOf (generate 0 half demoPost demoComment demoNow demoInput
                                  ContentGenerator_new 0)
  = Some [ ("C1", "P1", None); ("C2", "P1", Some "C1"); ("C3", "P1", Some "C1");
           ("C4", "P2", None); ("C5", "P2", Some "C1"); ("C6", "P2", Some "C1") ].
Proof. vm_compute. reflexivity. Qed.

(** C2, as stated, fails: with five personas, after [selectPostAuthor] has
    made the first one the post author, a first draw of 0.9 and a second of 0.1 select the four
    other personas and append the post author. *)
Lemma selectCommentAuthors_returns_five :
  valueOf ((let! postAuthor := selectPostAuthor fivePersonas 0 in
            selectCommentAuthors highThenLow fivePersonas postAuthor 0)
             PersonaMatcher_new 0)
  = Some [bob; carol; dave; erin; alice]
  ∧ ¬ (length [bob; carol; dave; erin; alice] ≤ 4)%nat.
Proof. split; [vm_compute; reflexivity | cbn [length]; lia]. Qed.

Lemma selectCommentAuthors_one_to_five_witness :
  match (let! postAuthor := selectPostAuthor fivePersonas 0 in
         selectCommentAuthors highThenLow fivePersonas postAuthor 0)
          PersonaMatcher_new 0 with
  | Ok (selected, _, _) => (1 ≤ length selected ≤ 5)%nat
  | Throw _ => False
  end.
Proof.
  destruct ((let! postAuthor := selectPostAuthor fivePersonas 0 in
             selectCommentAuthors highThenLow fivePersonas postAuthor 0)
              PersonaMatcher_new 0)
    as [[[selected tracker'] k']|e] eqn:Hrun.
  - apply bind_Ok_inv in Hrun as (postAuthor & tracker & k & _ & Hrun).
    refine (proj1 (proj1 (selectCommentAuthors_one_to_five highThenLow fivePersonas
                            postAuthor 0 tracker k _ _) _ _ _ Hrun));
      unfold highThenLow; destruct (Nat.eqb k 0); vm_compute;
      first [discriminate | reflexivity].
  - vm_compute in Hrun. discriminate.
Defined.

Lemma generate_comment_threads_witness :
  match generate 0 half demoPost demoComment demoNow demoInput ContentGenerator_new 0 with
  | Ok (calendar, _, _) =>
      NoDup (comment_id <$> comments calendar)
      ∧ ∀ c parent, c ∈ comments calendar → parent_comment_id c = Some parent →
          parent ≠ comment_id c
          ∧ ∃ c', c' ∈ comments calendar ∧ comment_id c' = parent
  | Throw _ => False
  end.
Proof.
  destruct (generate 0 half demoPost demoComment demoNow demoInput ContentGenerator_new 0)
    as [[[calendar s'] k']|e] eqn:Hrun.
  - exact (generate_comment_threads 0 half demoPost demoComment demoNow demoInput
             ContentGenerator_new 0 calendar s' k' Hrun).
  - vm_compute in Hrun. discriminate.
Defined.

Lemma selectSubreddit_no_repeat_witness :
  ∃ results tracker',
    selectSubreddits ["r/A"; "r/B"; "r/C"] 3 0 3 SubredditStrategy_new 0
      = Ok (results, tracker', 0%nat)
    ∧ length results = 3%nat
    ∧ NoDup results
    ∧ ∀ sub, sub ∈ results → sub ∈ ["r/A"; "r/B"; "r/C"].
Proof.
  apply (selectSubreddit_no_repeat ["r/A"; "r/B"; "r/C"] 3 0).
  vm_compute. lia.
Defined.

(** C5, as stated, fails: no draws give a six-hour component; the delay
    stays below six hours. *)
Lemma generateLateCommentTime_never_six_hours :
  ¬ ∃ (random : nat → Q) (m : Z),
      (∀ k, (0 <= random k)%Q ∧ (random k < 1)%Q)
      ∧ (0 ≤ m ≤ 59)%Z
      ∧ valueOf (generateLateCommentTime random 0 () 0)
        = Some (0 + 6 * msPerHour + m * msPerMinute)%Z.
Proof.
  intros (random & m & Hrange & Hm & Hrun).
  rewrite generateLateCommentTime_eq in Hrun. cbn [valueOf] in Hrun.
  injection Hrun as Hrun.
  destruct (Hrange 0%nat) as [Hlo Hhi]. destruct (Hrange 1%nat) as [Hlo' Hhi'].
  pose proof (floorTimes_range (random 0%nat) 5 Hlo Hhi ltac:(lia)).
  pose proof (floorTimes_range (random 1%nat) 60 Hlo' Hhi' ltac:(lia)).
  unfold msPerHour, msPerMinute in Hrun. lia.
Qed.

Lemma generateLateCommentTime_delay_witness :
  ∃ h m : Z,
    generateLateCommentTime half 1765207800000 () 0
      = Ok ((1765207800000 + h * msPerHour + m * msPerMinute)%Z, (), 2%nat)
    ∧ (1 ≤ h ≤ 5)%Z ∧ (0 ≤ m ≤ 59)%Z
    ∧ (1 * msPerHour ≤ h * msPerHour + m * msPerMinute < 6 * msPerHour)%Z.
Proof.
  apply (generateLateCommentTime_delay half 1765207800000 () 0).
  - vm_compute. discriminate.
  - vm_compute. reflexivity.
  - vm_compute. discriminate.
  - vm_compute. reflexivity.
Defined.

(** C6: for a post by one persona and a comment by another, with a third
    persona of the run unused, the warnings are the high-share warning only;
    no unused-personas entry is reported. *)
Theorem validatePersonaDistribution_unused_not_reported :
  warnings (validatePersonaDistribution [lonePost] [quickComment])
  = [PersonaHighShare "riley_ops" (100 # 2)].
Proof. vm_compute. reflexivity. Qed.

Lemma generate_only_valid_witness :
  match generate 0 half demoPost demoComment demoNow demoInput ContentGenerator_new 0 with
  | Ok (calendar, _, _) =>
      isValid (validateContentCalendar 0 (posts calendar) (comments calendar)) = true
  | Throw _ => False
  end.
Proof.
  destruct (generate 0 half demoPost demoComment demoNow demoInput ContentGenerator_new 0)
    as [[[calendar s'] k']|e] eqn:Hrun.
  - exact (proj1 (proj2 (generate_only_valid 0 half demoPost demoComment demoNow demoInput
                           ContentGenerator_new 0) calendar s' k' Hrun)).
  - vm_compute in Hrun. discriminate.
Defined.

(** A run whose two posts get the same title is rejected. *)
Lemma generate_rejects_same_titles :
  generate 0 half sameTitlePost demoComment demoNow demoInput ContentGenerator_new 0
  = Throw (ValidationFailed [PostsTooSimilar "P1" "P2" (4 # 4)]).
Proof. vm_compute. reflexivity. Qed.

Lemma selectKeywordsForPost_two_or_three_witness :
  ∃ selected st',
    selectKeywordsForPost half (keywords demoInput) 0 "r/PowerPoint" KeywordStrategy_new 0
      = Ok (selected, st', 1%nat)
    ∧ (length selected = 2%nat ∨ length selected = 3%nat)
    ∧ NoDup (keyword_id <$> selected)
    ∧ ∀ kw, kw ∈ selected → kw ∈ keywords demoInput.
Proof.
  apply (selectKeywordsForPost_two_or_three half (keywords demoInput) 0 "r/PowerPoint"
           KeywordStrategy_new 0).
  - vm_compute. lia.
  - apply (bool_decide_unpack _). vm_compute. exact I.
Defined.

Lemma adjustToBusinessHours_idempotent_witness :
  (getHours 0 1765162800000 < 6)%Z
  ∧ getHours 0 (adjustToBusinessHours 0 1765162800000) = 9%Z
  ∧ getMinutes 0 (adjustToBusinessHours 0 1765162800000) = 0%Z
  ∧ localDay 0 (adjustToBusinessHours 0 1765162800000) = localDay 0 1765162800000.
Proof.
  assert (H : (getHours 0 1765162800000 < 6)%Z) by (vm_compute; reflexivity).
  split; [exact H|].
  exact (proj1 (proj2 (proj2 (adjustToBusinessHours_idempotent 0 1765162800000))) H).
Defined.

(** C10, as stated, fails: a comment made thirty seconds after its post is
    reported as too late, not as before its post. *)
Lemma validateTimestamps_half_a_minute :
  (0 < c_timestamp quickComment - timestamp lonePost < 60000)%Z
  ∧ isValidCommentTime (timestamp lonePost) (c_timestamp quickComment) = false
  ∧ errors (validateTimestamps 0 [lonePost] [quickComment])
    = [CommentTooLate "C1" (30000 # 86400000)]
  ∧ ¬ ∃ m, CommentBeforePost "C1" m ∈ errors (validateTimestamps 0 [lonePost] [quickComment]).
Proof.
  assert (Herrors : errors (validateTimestamps 0 [lonePost] [quickComment])
                    = [CommentTooLate "C1" (30000 # 86400000)])
    by (vm_compute; reflexivity).
  split; [vm_compute; split; reflexivity|]. split; [vm_compute; reflexivity|].
  split; [exact Herrors|]. rewrite Herrors.
  intros [m Hm]. apply list_elem_of_singleton in Hm. discriminate.
Qed.

Lemma validateTimestamps_under_a_minute_witness :
  isValidCommentTime (timestamp lonePost) (c_timestamp quickComment) = false
  ∧ CommentTooLate (comment_id quickComment)
      (minutesBetween (timestamp lonePost) (c_timestamp quickComment) / 60 / 24)
    ∈ errors (validateTimestamps 0 [lonePost] [quickComment])
  ∧ isValid (validateTimestamps 0 [lonePost] [quickComment]) = false
  ∧ ∀ m, CommentBeforePost (comment_id quickComment) m
         ∉ (commentTimeMessages [lonePost] [quickComment] quickComment).1.
Proof.
  apply (validateTimestamps_under_a_minute 0 [lonePost] [quickComment] quickComment lonePost).
  - apply list_elem_of_singleton. reflexivity.
  - vm_compute. reflexivity.
  - vm_compute. split; reflexivity.
Defined.


(** ** The further properties on the sample data *)

Lemma generateFirstCommentTime_valid_witness :
  ∃ d : Z,
    generateFirstCommentTime half 1765207800000 () 0
      = Ok ((1765207800000 + d * msPerMinute)%Z, (), 1%nat)
    ∧ (15 ≤ d ≤ 59)%Z
    ∧ isValidCommentTime 1765207800000 (1765207800000 + d * msPerMinute) = true.
Proof.
  apply (generateFirstCommentTime_valid half 1765207800000 () 0).
  - vm_compute. discriminate.
  - vm_compute. reflexivity.
Defined.

Lemma generateReplyCommentTime_after_parent_witness :
  ∃ d : Z,
    generateReplyCommentTime half 1765207800000 () 0
      = Ok ((1765207800000 + d * msPerMinute)%Z, (), 1%nat)
    ∧ (5 ≤ d ≤ 29)%Z.
Proof.
  apply (generateReplyCommentTime_after_parent half 1765207800000 () 0).
  - vm_compute. discriminate.
  - vm_compute. reflexivity.
Defined.

Lemma generateLateCommentTime_valid_witness :
  ∃ t : Z,
    generateLateCommentTime half 1765207800000 () 0 = Ok (t, (), 2%nat)
    ∧ isValidCommentTime 1765207800000 t = true.
Proof.
  apply (generateLateCommentTime_valid half 1765207800000 () 0).
  - vm_compute. discriminate.
  - vm_compute. reflexivity.
  - vm_compute. discriminate.
  - vm_compute. reflexivity.
Defined.

Lemma half_in_range : ∀ j, (0 <= half j)%Q ∧ (half j < 1)%Q.
Proof. intros j. split; vm_compute; [discriminate | reflexivity]. Defined.

Lemma generatePostTime_business_hours_witness :
  ∃ t k',
    generatePostTime 0 half 1765180800000 1 2 () 0 = Ok (t, (), k')
    ∧ (9 ≤ getHours 0 t < 21)%Z
    ∧ adjustToBusinessHours 0 t = t
    ∧ (startOfWeek 0 1765180800000 ≤ t)%Z.
Proof.
  destruct (generatePostTime_business_hours 0 half demoPost demoComment demoNow
              1765180800000 1 2 () 0 half_in_range ltac:(lia))
    as (t & k' & Hrun & Hhours & _ & Hfixed & Hweek & _).
  exists t, k'. repeat split; [exact Hrun | apply Hhours.. | exact Hfixed | exact Hweek].
Defined.

Lemma validateTopicDiversity_rejects_same_title_witness :
  isValid (validateTopicDiversity ([] ++ lonePost :: [] ++ shoutedPost :: [])) = false.
Proof.
  apply (proj2 (validateTopicDiversity_rejects_same_title [] [] [] lonePost shoutedPost)).
  vm_compute. reflexivity.
Defined.

Lemma selectSubreddits_never_fail_witness :
  ∃ results tracker',
    selectSubreddits ["r/A"; "r/B"] 5 0 5 SubredditStrategy_new 0
      = Ok (results, tracker', 0%nat)
    ∧ length results = 5%nat
    ∧ ∀ sub, sub ∈ results → sub ∈ ["r/A"; "r/B"].
Proof.
  apply (proj1 (selectSubreddits_never_fail ["r/A"; "r/B"] 5 5 0)).
  discriminate.
Defined.

Lemma selectSubreddit_least_recently_used_witness :
  ∃ usage,
    usage ∈ omap_values (initSubredditTracker postedTracker ["r/A"; "r/B"])
    ∧ su_subreddit usage = "r/A"
    ∧ ∀ other, other ∈ omap_values (initSubredditTracker postedTracker ["r/A"; "r/B"]) →
        (lastPostIndex usage ≤ lastPostIndex other)%Z.
Proof.
  eapply (selectSubreddit_least_recently_used ["r/A"; "r/B"] 2 3 postedTracker 0 "r/A").
  - intros s Hs. apply elem_of_cons in Hs as [->|Hs]; [vm_compute; reflexivity|].
    apply list_elem_of_singleton in Hs as ->. vm_compute. reflexivity.
  - vm_compute. reflexivity.
Defined.

Lemma selectSubreddits_usage_witness :
  ∃ results tracker',
    selectSubreddits ["r/A"; "r/B"; "r/A"; "r/C"] 3 0 3 SubredditStrategy_new 0
      = Ok (results, tracker', 0%nat)
    ∧ (∀ sub usage, omap_get tracker' sub = Some usage →
         postsThisWeek usage = if decide (sub ∈ results) then 1%nat else 0%nat)
    ∧ (∀ sub, isOverposted sub tracker' 0 = Ok (false, tracker', 0%nat))
    ∧ getOverpostedSubreddits tracker' 0 = Ok ([], tracker', 0%nat).
Proof.
  apply (selectSubreddits_usage half demoPost demoComment demoNow
           ["r/A"; "r/B"; "r/A"; "r/C"] 3 0).
  vm_compute. lia.
Defined.

Lemma selectKeywordsForPost_count_witness :
  ∃ selected st',
    selectKeywordsForPost half (take 1 (keywords demoInput)) 0 "r/PowerPoint"
      KeywordStrategy_new 0 = Ok (selected, st', 1%nat)
    ∧ length selected
      = Nat.min (if Qltb (half 0) double_0_6 then 2 else 3)
                (length (take 1 (keywords demoInput)))
    ∧ NoDup (keyword_id <$> selected)
    ∧ ∀ kw, kw ∈ selected → kw ∈ take 1 (keywords demoInput).
Proof.
  apply (selectKeywordsForPost_count half (take 1 (keywords demoInput)) 0 "r/PowerPoint"
           KeywordStrategy_new 0).
  apply (bool_decide_unpack _). vm_compute. exact I.
Defined.

Lemma selectKeywordsForPost_tracks_usage_witness :
  ∃ selected st',
    selectKeywordsForPost half (keywords demoInput) 4 "r/PowerPoint"
      KeywordStrategy_new 0 = Ok (selected, st', 1%nat)
    ∧ keywordCombinations st'
      = {[combinationOf selected]} ∪ keywordCombinations KeywordStrategy_new
    ∧ (∀ kw, kw ∈ selected →
         ∃ usage,
           initKeywordTracker (kw_usageTracker KeywordStrategy_new) (keywords demoInput)
             !! keyword_id kw = Some usage
           ∧ kw_usageTracker st' !! keyword_id kw
             = Some {| keywordId := keywordId usage;
                       usageCount := usageCount usage + 1;
                       lastUsedPostIndex := Z.of_nat 4 |})
    ∧ (∀ id, id ∉ keyword_id <$> selected →
         kw_usageTracker st' !! id
         = initKeywordTracker (kw_usageTracker KeywordStrategy_new) (keywords demoInput)
             !! id).
Proof.
  apply (selectKeywordsForPost_tracks_usage half (keywords demoInput) 4 "r/PowerPoint"
           KeywordStrategy_new 0).
  apply (bool_decide_unpack _). vm_compute. exact I.
Defined.

Lemma selectPostAuthor_fewest_posts_witness :
  ∃ p tracker',
    selectPostAuthor fivePersonas 0 PersonaMatcher_new 0 = Ok (p, tracker', 0%nat)
    ∧ p ∈ fivePersonas
    ∧ (∀ q, q ∈ fivePersonas →
         (postsOf PersonaMatcher_new (username p)
          ≤ postsOf PersonaMatcher_new (username q))%Z)
    ∧ postsOf tracker' (username p) = (postsOf PersonaMatcher_new (username p) + 1)%Z
    ∧ ∀ name, name ≠ username p →
        postsOf tracker' name = postsOf PersonaMatcher_new name.
Proof.
  apply (proj1 (selectPostAuthor_fewest_posts fivePersonas 0 PersonaMatcher_new 0)).
  discriminate.
Defined.

Lemma selectPostAuthor_evenly_spread_witness :
  evenlySpread fivePersonas
    (<["alice" := {| pu_username := "alice"; postCount := 1; commentCount := 0;
                     lastUsedIndex := 0 |}]>
       (initPersonaTracker PersonaMatcher_new fivePersonas)).
Proof.
  apply (proj2 (selectPostAuthor_evenly_spread fivePersonas 0 PersonaMatcher_new 0
                  alice _ 0)).
  - apply (proj1 (selectPostAuthor_evenly_spread fivePersonas 0 PersonaMatcher_new 0
                    alice PersonaMatcher_new 0)).
  - vm_compute. reflexivity.
Defined.

Lemma selectCommentAuthors_least_commented_witness :
  ∃ commenters,
    [bob; alice] = commenters ++ [alice]
    ∧ commenters ⊆+ filter (λ p, username p ≠ username alice) [alice; bob]
    ∧ ∀ name, commentsOf commentedTracker name
              = (commentsOf postedByAlice name
                 + Z.of_nat (occurrences name (username <$> [bob; alice])))%Z.
Proof.
  destruct (selectCommentAuthors_least_commented half [alice; bob] alice 0
              postedByAlice 0 [bob; alice] commentedTracker 2)
    as [(Hnil & _)|(_ & _ & commenters & Hsel & _ & Hsub & _ & Hcounts)].
  - vm_compute. discriminate.
  - vm_compute. reflexivity.
  - vm_compute. reflexivity.
  - vm_compute in Hnil. discriminate.
  - exists commenters. split; [exact Hsel|]. split; [exact Hsub|].
    intros name. exact (proj1 (Hcounts name)).
Defined.

Lemma isPersonaDistributionBalanced_iff_witness :
  ∃ balanced,
    isPersonaDistributionBalanced sharedTracker 0 = Ok (balanced, sharedTracker, 0%nat)
    ∧ (balanced = true ↔
       ∀ name, (2 * (postsOf sharedTracker name + commentsOf sharedTracker name)
                ≤ totalContentOf sharedTracker)%Z).
Proof.
  apply (isPersonaDistributionBalanced_iff sharedTracker 0).
  intros name usage H. unfold sharedTracker in H.
  apply lookup_insert_Some in H as [[_ <-]|[_ H]]; [cbn; lia|].
  apply lookup_singleton_Some in H as [_ <-]. cbn. lia.
Defined.

Lemma mapICPToSubreddit_segment_witness :
  (∃ kws kw1 kw2,
     ("consultants", kws) ∈ icpMappings ∧ kw1 ∈ kws ∧ kw2 ∈ kws
     ∧ occursIn kw1 (toLowerCase "r/Consulting")
     ∧ occursIn kw2 (toLowerCase (description demoCompany)))
  ∧ mapICPToSubreddit (toLowerCase "r/Consulting")
      (toLowerCase (description demoCompany)) = Some "consultants".
Proof.
  apply (mapICPToSubreddit_segment "r/Consulting" (description demoCompany) "consultants").
  vm_compute. reflexivity.
Defined.


Lemma generate_threads_witness :
  match generate 0 half demoPost demoComment demoNow demoInput ContentGenerator_new 0 with
  | Ok (calendar, _, _) =>
      ∃ threads,
        comments calendar = concat threads
        ∧ Forall2 (threadOf demoInput) (posts calendar) threads
  | Throw _ => False
  end.
Proof.
  destruct (generate 0 half demoPost demoComment demoNow demoInput ContentGenerator_new 0)
    as [[[calendar s'] k']|e] eqn:Hrun.
  - exact (generate_threads 0 half demoPost demoComment demoNow demoInput
             ContentGenerator_new 0 calendar s' k' half_in_range Hrun).
  - vm_compute in Hrun. discriminate.
Defined.

Lemma generate_post_failure_witness :
  generate 0 half failingPost demoComment demoNow demoInput ContentGenerator_new 0
  = Throw (AiError "rate limit").
Proof.
  apply (generate_post_failure 0 half failingPost demoComment demoNow demoInput
           ContentGenerator_new 0 1 (AiError "rate limit")).
  - discriminate.
  - discriminate.
  - vm_compute. lia.
  - intros i req Hi. assert (i = 0%nat) as -> by lia. eexists. reflexivity.
  - intros req. reflexivity.
Defined.

Lemma generate_empty_lists_witness :
  generate 0 half demoPost demoComment demoNow noPersonas ContentGenerator_new 0
  = Throw TypeError.
Proof.
  apply (generate_empty_lists 0 half demoPost demoComment demoNow noPersonas
           ContentGenerator_new 0).
  - vm_compute. lia.
  - right. reflexivity.
Defined.
